(** * Army builder (app.js): roster, favorites and their persistence

    A shallow embedding of the state-handling functions of the client script:
    [addUnitToArmy], [removeUnitFromArmy], [updatePointsTotal],
    [loadFavorites], [saveFavorites], the favorite branch of the document
    click handler, the crusade save handler and [loadCrusadeData], together
    with the host functions they call ([parseInt], [JSON.stringify],
    [JSON.parse], [localStorage]), and of what they and [renderArmyList],
    [renderFavorites], [renderUnitCard] and the tab listeners write to the
    page: the cards of the army list and favorites containers, the favorite
    button of a card and the tab shown. *)

From Stdlib Require Import List ZArith NArith Bool String Ascii Lia.
From Stdlib Require DecimalN DecimalPos DecimalFacts.
Import ListNotations.
Local Open Scope Z_scope.
Set Warnings "-register-all".

(** ** Strings

    A JavaScript string is a sequence of UTF-16 code units. *)

Definition jsstring := list N.

Fixpoint str (s : string) : jsstring :=
  match s with
  | EmptyString => []
  | String c r => N_of_ascii c :: str r
  end.

Fixpoint str_eqb (a b : jsstring) : bool :=
  match a, b with
  | [], [] => true
  | x :: a', y :: b' => N.eqb x y && str_eqb a' b'
  | _, _ => false
  end.

(** ** Numbers

    The script makes numbers with [parseInt(_, 10)] and adds them: they are
    NaN, the two infinities and the doubles that hold an integer. [Int z]
    is the double that holds the integer [z], and both zeros are [Int 0]
    (the script cannot tell them apart: they print, add and test alike).
    Every integer of magnitude at most 2^53 has its double; a larger one
    is rounded to the nearest integer that has 53 significant bits, the
    even one of two nearest, and to an infinity when that integer is
    2^1024 or more. *)

Inductive jsnum : Type :=
| NaN
| Int (z : Z)
| Infinity (negative : bool).

Definition MAX_EXACT : Z := 2 ^ 53.

Definition exact (z : Z) : bool := (Z.abs z <=? MAX_EXACT).

(** The nearest integer with at most 53 significant bits, the one with the
    even significand of two nearest. *)
Definition round_integer (z : Z) : Z :=
  let a := Z.abs z in
  let dropped := Z.log2 a - 52 in
  if dropped <=? 0 then z
  else
    let q := a / 2 ^ dropped in
    let r := a mod 2 ^ dropped in
    let half := 2 ^ (dropped - 1) in
    let q' := if (half <? r) || ((r =? half) && Z.odd q) then q + 1 else q in
    Z.sgn z * (q' * 2 ^ dropped).

(** The double nearest to the integer [z]. *)
Definition of_integer (z : Z) : jsnum :=
  let r := round_integer z in
  if Z.abs r <? 2 ^ 1024 then Int r else Infinity (z <? 0).

(** [a + b] on numbers. *)
Definition num_add (a b : jsnum) : jsnum :=
  match a, b with
  | NaN, _ | _, NaN => NaN
  | Infinity s, Infinity s' => if Bool.eqb s s' then Infinity s else NaN
  | Infinity s, Int _ | Int _, Infinity s => Infinity s
  | Int x, Int y => of_integer (x + y)
  end.

(** *** parseInt(string, 10) *)

(** StrWhiteSpaceChar: white space and line terminators. *)
Definition is_str_whitespace (c : N) : bool :=
  match c with
  | 9 | 10 | 11 | 12 | 13 | 32 | 160 | 5760 | 8232 | 8233 | 8239 | 8287
  | 12288 | 65279 => true
  | _ => (8192 <=? c) && (c <=? 8202)
  end%N.

(** The decimal digit a code unit stands for, as a constructor of the
    standard library's decimal numerals. *)
Definition digit_of_unit (c : N) : option (Decimal.uint -> Decimal.uint) :=
  match c with
  | 48 => Some Decimal.D0 | 49 => Some Decimal.D1 | 50 => Some Decimal.D2
  | 51 => Some Decimal.D3 | 52 => Some Decimal.D4 | 53 => Some Decimal.D5
  | 54 => Some Decimal.D6 | 55 => Some Decimal.D7 | 56 => Some Decimal.D8
  | 57 => Some Decimal.D9
  | _ => None
  end%N.

Fixpoint trim_start (s : jsstring) : jsstring :=
  match s with
  | c :: r => if is_str_whitespace c then trim_start r else s
  | [] => []
  end.

(** The longest prefix of decimal digits, and what follows it. *)
Fixpoint take_digits (s : jsstring) : Decimal.uint * jsstring :=
  match s with
  | c :: r =>
      match digit_of_unit c with
      | Some D => let '(d, rest) := take_digits r in (D d, rest)
      | None => (Decimal.Nil, s)
      end
  | [] => (Decimal.Nil, [])
  end.

Definition uint_value (d : Decimal.uint) : Z := Z.of_N (N.of_uint d).

Definition parseInt (input : jsstring) : jsnum :=
  let s := trim_start input in
  let '(sign, s) :=
    match s with
    | 45%N :: r => (-1, r)
    | 43%N :: r => (1, r)
    | _ => (1, s)
    end in
  match fst (take_digits s) with
  | Decimal.Nil => NaN
  | d => of_integer (sign * uint_value d)
  end.

(** ** The army list *)

Record Unit : Type := mkUnit {
  id : jsstring;
  name : jsstring;
  points : jsnum
}.

(** [Array.prototype.findIndex] with the predicate [unit => unit.id === unitId];
    -1 when no element satisfies it. *)
Fixpoint findIndex (unitId : jsstring) (l : list Unit) : Z :=
  match l with
  | [] => -1
  | unit :: r =>
      if str_eqb (id unit) unitId then 0
      else let i := findIndex unitId r in
           if i <? 0 then -1 else i + 1
  end.

(** [l.splice(index, 1)] for an index inside the array or at its end: the
    element at [index], if any, is taken out. *)
Definition splice1 (index : Z) (l : list Unit) : list Unit :=
  firstn (Z.to_nat index) l ++ skipn (S (Z.to_nat index)) l.

(** The reduce of [updatePointsTotal]. *)
Definition totalPoints (l : list Unit) : jsnum :=
  fold_left (fun sum unit => num_add sum (points unit)) l (Int 0).

(** ** Values

    The values [JSON.parse] can build and the click handler stores: the
    favorites variable holds one of them. [VDecimal negative m e] is the
    number [JSON.parse] reads from a literal whose value, [m] times ten to
    the [e], negated when [negative], is no integer and does not round to
    zero: the double nearest to it, which the embedding does not compute. *)

Inductive jsval : Type :=
| VUndef
| VNull
| VBool (b : bool)
| VNum (n : jsnum)
| VStr (s : jsstring)
| VArr (elems : list jsval)
| VObj (props : list (jsstring * jsval))
| VDecimal (negative : bool) (m e : Z).

(** ToBoolean. *)
Definition truthy (v : jsval) : bool :=
  match v with
  | VUndef | VNull => false
  | VBool b => b
  | VNum NaN => false
  | VNum (Int z) => negb (z =? 0)
  | VNum (Infinity _) => true
  | VStr s => match s with [] => false | _ => true end
  | VArr _ | VObj _ => true
  | VDecimal _ _ _ => true
  end.

(** *** Plain objects

    The own properties of a plain object, in the order the host lists them
    ([Object.values], [JSON.stringify]): keys that are array indices first,
    by ascending value, then the other keys in the order they were created.
    A key occurs once. *)

Definition object := list (jsstring * jsval).

(** The value of a canonical array index: the decimal numeral without
    leading zero of an integer below 2^32 - 1. *)
Definition array_index (k : jsstring) : option Z :=
  match take_digits k with
  | (Decimal.Nil, _) => None
  | (d, []) =>
      let canonical :=
        match d with
        | Decimal.D0 Decimal.Nil => true
        | Decimal.D0 _ => false
        | _ => true
        end in
      if canonical && (uint_value d <? 2 ^ 32 - 1) then Some (uint_value d)
      else None
  | (_, _ :: _) => None
  end.

Fixpoint get_own (k : jsstring) (o : object) : option jsval :=
  match o with
  | [] => None
  | (k', v) :: r => if str_eqb k' k then Some v else get_own k r
  end.

Fixpoint replace_own (k : jsstring) (v : jsval) (o : object) : object :=
  match o with
  | [] => []
  | (k', v') :: r =>
      if str_eqb k' k then (k', v) :: r else (k', v') :: replace_own k v r
  end.

(** Where a new array-index key goes: after the smaller indices. *)
Fixpoint insert_index (i : Z) (k : jsstring) (v : jsval) (o : object) : object :=
  match o with
  | [] => [(k, v)]
  | (k', v') :: r =>
      match array_index k' with
      | Some j => if j <? i then (k', v') :: insert_index i k v r
                  else (k, v) :: o
      | None => (k, v) :: o
      end
  end.

(** Defining the data property [k]: an own property keeps its place and
    takes the new value, a new one is created. This is what [o[k] = v] does
    when [k] is an own property of [o] or is not inherited, and what
    [JSON.parse] does with every member it reads. *)
Definition set_own (k : jsstring) (v : jsval) (o : object) : object :=
  match get_own k o with
  | Some _ => replace_own k v o
  | None =>
      match array_index k with
      | Some i => insert_index i k v o
      | None => o ++ [(k, v)]
      end
  end.

(** [delete o[k]]. *)
Fixpoint delete_own (k : jsstring) (o : object) : object :=
  match o with
  | [] => []
  | (k', v) :: r => if str_eqb k' k then r else (k', v) :: delete_own k r
  end.

(** The property names every plain object inherits from [Object.prototype];
    each of them reads as a function, or as the prototype itself for
    [__proto__]: a truthy value. *)
Definition object_prototype_names : list jsstring :=
  map str
    ["constructor"; "__defineGetter__"; "__defineSetter__"; "hasOwnProperty";
     "__lookupGetter__"; "__lookupSetter__"; "isPrototypeOf";
     "propertyIsEnumerable"; "toString"; "valueOf"; "__proto__";
     "toLocaleString"]%string.

Definition inherited (k : jsstring) : bool :=
  existsb (str_eqb k) object_prototype_names.

(** What reading [o[k]] finds on a plain object. *)
Inductive property : Type :=
| Own (v : jsval)
| Inherited
| Missing.

Definition get (k : jsstring) (o : object) : property :=
  match get_own k o with
  | Some v => Own v
  | None => if inherited k then Inherited else Missing
  end.

Definition property_truthy (p : property) : bool :=
  match p with
  | Own v => truthy v
  | Inherited => true
  | Missing => false
  end.

(** [Object.values(o)]. *)
Definition values (o : object) : list jsval := map snd o.

(** ** JSON.stringify *)

Definition hex_unit (n : N) : N := (if n <? 10 then 48 + n else 87 + n)%N.

(** The escape [\uXXXX], in lower case. *)
Definition unicode_escape (c : N) : jsstring :=
  [92; 117; hex_unit ((c / 4096) mod 16); hex_unit ((c / 256) mod 16);
   hex_unit ((c / 16) mod 16); hex_unit (c mod 16)]%N.

Definition is_high_surrogate (c : N) : bool := ((55296 <=? c) && (c <=? 56319))%N.
Definition is_low_surrogate (c : N) : bool := ((56320 <=? c) && (c <=? 57343))%N.

(** One code unit that is not half of a surrogate pair. *)
Definition quote_unit (c : N) : jsstring :=
  (if c =? 8 then [92; 98]
   else if c =? 9 then [92; 116]
   else if c =? 10 then [92; 110]
   else if c =? 12 then [92; 102]
   else if c =? 13 then [92; 114]
   else if c =? 34 then [92; 34]
   else if c =? 92 then [92; 92]
   else if (c <? 32) || is_high_surrogate c || is_low_surrogate c
        then unicode_escape c
   else [c])%N.

Fixpoint quote_units (s : jsstring) : jsstring :=
  match s with
  | [] => []
  | c :: r =>
      if is_high_surrogate c then
        match r with
        | d :: r' => if is_low_surrogate d then c :: d :: quote_units r'
                     else quote_unit c ++ quote_units r
        | [] => quote_unit c
        end
      else quote_unit c ++ quote_units r
  end.

(** QuoteJSONString. *)
Definition quote (s : jsstring) : jsstring := 34%N :: quote_units s ++ [34%N].

Fixpoint uint_units (d : Decimal.uint) : jsstring :=
  match d with
  | Decimal.Nil => []
  | Decimal.D0 r => 48%N :: uint_units r
  | Decimal.D1 r => 49%N :: uint_units r
  | Decimal.D2 r => 50%N :: uint_units r
  | Decimal.D3 r => 51%N :: uint_units r
  | Decimal.D4 r => 52%N :: uint_units r
  | Decimal.D5 r => 53%N :: uint_units r
  | Decimal.D6 r => 54%N :: uint_units r
  | Decimal.D7 r => 55%N :: uint_units r
  | Decimal.D8 r => 56%N :: uint_units r
  | Decimal.D9 r => 57%N :: uint_units r
  end.

(** Number::toString of an integer of magnitude at most 2^53. *)
Definition integer_text (z : Z) : jsstring :=
  let digits := uint_units (N.to_uint (Z.to_N (Z.abs z))) in
  if z <? 0 then 45%N :: digits else digits.

Fixpoint join (l : list jsstring) : jsstring :=
  match l with
  | [] => []
  | [t] => t
  | t :: r => t ++ 44%N :: join r
  end.

(** What [JSON.stringify(v)] gives: a text, [undefined], or, for a value
    with a number in it that is neither NaN, an infinity nor an integer of
    magnitude at most 2^53, a text this embedding does not follow. *)
Inductive stringified : Type :=
| Text (t : jsstring)
| Undefined
| Beyond.

Fixpoint JSON_stringify (v : jsval) : stringified :=
  match v with
  | VUndef => Undefined
  | VNull => Text (str "null")
  | VBool true => Text (str "true")
  | VBool false => Text (str "false")
  | VNum NaN => Text (str "null")
  | VNum (Infinity _) => Text (str "null")
  | VNum (Int z) => if exact z then Text (integer_text z) else Beyond
  | VDecimal _ _ _ => Beyond
  | VStr s => Text (quote s)
  | VArr l =>
      let elements :=
        (fix elements (l : list jsval) : option (list jsstring) :=
           match l with
           | [] => Some []
           | e :: r =>
               match JSON_stringify e, elements r with
               | Text t, Some ts => Some (t :: ts)
               | Undefined, Some ts => Some (str "null" :: ts)
               | _, _ => None
               end
           end) in
      match elements l with
      | Some ts => Text (91%N :: join ts ++ [93%N])
      | None => Beyond
      end
  | VObj o =>
      let members :=
        (fix members (o : list (jsstring * jsval)) : option (list jsstring) :=
           match o with
           | [] => Some []
           | (k, x) :: r =>
               match JSON_stringify x, members r with
               | Text t, Some ts => Some ((quote k ++ 58%N :: t) :: ts)
               | Undefined, Some ts => Some ts
               | _, _ => None
               end
           end) in
      match members o with
      | Some ts => Text (123%N :: join ts ++ [125%N])
      | None => Beyond
      end
  end.

(** ** JSON.parse *)

Definition is_json_whitespace (c : N) : bool :=
  match c with
  | 9 | 10 | 13 | 32 => true
  | _ => false
  end%N.

Fixpoint skip_ws (s : jsstring) : jsstring :=
  match s with
  | c :: r => if is_json_whitespace c then skip_ws r else s
  | [] => []
  end.

Definition hex_value (c : N) : option N :=
  (if (48 <=? c) && (c <=? 57) then Some (c - 48)
   else if (97 <=? c) && (c <=? 102) then Some (c - 87)
   else if (65 <=? c) && (c <=? 70) then Some (c - 55)
   else None)%N.

Definition hex4 (a b c d : N) : option N :=
  match hex_value a, hex_value b, hex_value c, hex_value d with
  | Some x, Some y, Some z, Some w => Some (4096 * x + 256 * y + 16 * z + w)%N
  | _, _, _, _ => None
  end.

(** The characters of a string literal after its opening quote, up to the
    closing one. *)
Fixpoint parse_chars (s : jsstring) : option (jsstring * jsstring) :=
  let continue (c : N) (r : jsstring) :=
    match parse_chars r with
    | Some (t, rest) => Some (c :: t, rest)
    | None => None
    end in
  match s with
  | [] => None
  | c :: r =>
      if (c =? 34)%N then Some ([], r)
      else if (c =? 92)%N then
        match r with
        | 34%N :: r' => continue 34%N r'
        | 92%N :: r' => continue 92%N r'
        | 47%N :: r' => continue 47%N r'
        | 98%N :: r' => continue 8%N r'
        | 102%N :: r' => continue 12%N r'
        | 110%N :: r' => continue 10%N r'
        | 114%N :: r' => continue 13%N r'
        | 116%N :: r' => continue 9%N r'
        | 117%N :: a :: b :: c :: d :: r' =>
            match hex4 a b c d with
            | Some u => continue u r'
            | None => None
            end
        | _ => None
        end
      else if (c <? 32)%N then None
      else continue c r
  end.

(** The number a literal denotes: [m] times ten to the [e], negated when
    [negative]. A literal of magnitude at most 2^-1075 rounds to zero. *)
Definition decimal_value (negative : bool) (m e : Z) : jsval :=
  let sign := if negative then -1 else 1 in
  if m =? 0 then VNum (Int 0)
  else if 0 <=? e then VNum (of_integer (sign * (m * 10 ^ e)))
  else
    let p := 10 ^ (- e) in
    if m mod p =? 0 then VNum (of_integer (sign * (m / p)))
    else if m * 2 ^ 1075 <=? p then VNum (Int 0)
    else VDecimal negative m e.

(** The parts of a number literal, [-? int frac? exp?]: each function
    gives what it read and what follows. *)
Definition parse_sign (s : jsstring) : bool * jsstring :=
  match s with
  | c :: r => if (c =? 45)%N then (true, r) else (false, s)
  | [] => (false, s)
  end.

(** A zero stands alone: no digit follows it in the integer part. *)
Definition parse_int (s : jsstring) : Decimal.uint * jsstring :=
  match s with
  | c :: r => if (c =? 48)%N then (Decimal.D0 Decimal.Nil, r)
              else take_digits s
  | [] => take_digits s
  end.

Definition parse_frac (s : jsstring) : option (Decimal.uint * jsstring) :=
  match s with
  | c :: r =>
      if (c =? 46)%N then
        match take_digits r with
        | (Decimal.Nil, _) => None
        | (fd, rest) => Some (fd, rest)
        end
      else Some (Decimal.Nil, s)
  | [] => Some (Decimal.Nil, s)
  end.

Definition parse_exp (s : jsstring) : option (Z * jsstring) :=
  match s with
  | c :: r =>
      if (c =? 101)%N || (c =? 69)%N then
        let '(esign, r) :=
          match r with
          | c' :: r' => if (c' =? 45)%N then (-1, r')
                        else if (c' =? 43)%N then (1, r')
                        else (1, r)
          | [] => (1, r)
          end in
        match take_digits r with
        | (Decimal.Nil, _) => None
        | (ed, rest) => Some (esign * uint_value ed, rest)
        end
      else Some (0, s)
  | [] => Some (0, s)
  end.

Definition parse_number (s : jsstring) : option (jsval * jsstring) :=
  let '(negative, s) := parse_sign s in
  let '(ip, s) := parse_int s in
  match ip with
  | Decimal.Nil => None
  | _ =>
      match parse_frac s with
      | None => None
      | Some (fd, s) =>
          match parse_exp s with
          | None => None
          | Some (e, rest) =>
              Some (decimal_value negative
                      (uint_value (Decimal.app ip fd))
                      (e - Z.of_nat (Decimal.nb_digits fd)),
                    rest)
          end
      end
  end.

Definition build_object (members : list (jsstring * jsval)) : object :=
  fold_left (fun o m => set_own (fst m) (snd m) o) members [].

(** The code unit [c], after white space. *)
Definition expect (c : N) (s : jsstring) : option jsstring :=
  match skip_ws s with
  | c' :: r => if (c' =? c)%N then Some r else None
  | [] => None
  end.

(** How a value starts, after white space. *)
Inductive start : Type :=
| StartNull (r : jsstring)
| StartTrue (r : jsstring)
| StartFalse (r : jsstring)
| StartString (r : jsstring)
| StartArray (r : jsstring)
| StartObject (r : jsstring)
| StartNumber (s : jsstring).

Definition classify (s : jsstring) : start :=
  match skip_ws s with
  | 110%N :: 117%N :: 108%N :: 108%N :: r => StartNull r
  | 116%N :: 114%N :: 117%N :: 101%N :: r => StartTrue r
  | 102%N :: 97%N :: 108%N :: 115%N :: 101%N :: r => StartFalse r
  | 34%N :: r => StartString r
  | 91%N :: r => StartArray r
  | 123%N :: r => StartObject r
  | s' => StartNumber s'
  end.

(** A value; the elements of an array that has one, up to its bracket; the
    members of an object that has one, up to its brace. Every call uses up
    one unit of [fuel]. *)
Fixpoint parse_value (fuel : nat) (s : jsstring) : option (jsval * jsstring) :=
  match fuel with
  | O => None
  | S fuel =>
      match classify s with
      | StartNull r => Some (VNull, r)
      | StartTrue r => Some (VBool true, r)
      | StartFalse r => Some (VBool false, r)
      | StartString r =>
          match parse_chars r with
          | Some (t, rest) => Some (VStr t, rest)
          | None => None
          end
      | StartArray r =>
          match expect 93 r with
          | Some rest => Some (VArr [], rest)
          | None =>
              match parse_elements fuel r with
              | Some (l, rest) => Some (VArr l, rest)
              | None => None
              end
          end
      | StartObject r =>
          match expect 125 r with
          | Some rest => Some (VObj [], rest)
          | None =>
              match parse_members fuel r with
              | Some (l, rest) => Some (VObj (build_object l), rest)
              | None => None
              end
          end
      | StartNumber s' => parse_number s'
      end
  end

with parse_elements (fuel : nat) (s : jsstring)
  : option (list jsval * jsstring) :=
  match fuel with
  | O => None
  | S fuel =>
      match parse_value fuel s with
      | Some (v, r) =>
          match expect 93 r with
          | Some rest => Some ([v], rest)
          | None =>
              match expect 44 r with
              | Some r' =>
                  match parse_elements fuel r' with
                  | Some (l, rest) => Some (v :: l, rest)
                  | None => None
                  end
              | None => None
              end
          end
      | None => None
      end
  end

with parse_members (fuel : nat) (s : jsstring)
  : option (list (jsstring * jsval) * jsstring) :=
  match fuel with
  | O => None
  | S fuel =>
      match expect 34 s with
      | Some r =>
          match parse_chars r with
          | Some (k, r1) =>
              match expect 58 r1 with
              | Some r2 =>
                  match parse_value fuel r2 with
                  | Some (v, r3) =>
                      match expect 125 r3 with
                      | Some rest => Some ([(k, v)], rest)
                      | None =>
                          match expect 44 r3 with
                          | Some r4 =>
                              match parse_members fuel r4 with
                              | Some (l, rest) => Some ((k, v) :: l, rest)
                              | None => None
                              end
                          | None => None
                          end
                      end
                  | None => None
                  end
              | None => None
              end
          | None => None
          end
      | None => None
      end
  end.

(** The text of [JSON.parse]: [None] is its SyntaxError. No path through
    the three functions above makes more than two calls per code unit of the
    text. *)
Definition parse_text (text : jsstring) : option jsval :=
  match parse_value (2 * List.length text + 2) text with
  | Some (v, rest) =>
      match skip_ws rest with
      | [] => Some v
      | _ => None
      end
  | None => None
  end.

(** ** localStorage

    The items of the origin, by key. *)

Definition storage := list (jsstring * jsstring).

Fixpoint getItem (k : jsstring) (st : storage) : option jsstring :=
  match st with
  | [] => None
  | (k', v) :: r => if str_eqb k' k then Some v else getItem k r
  end.

(** The items once the store has accepted the write of [v] under [k]. *)
Fixpoint stored (k v : jsstring) (st : storage) : storage :=
  match st with
  | [] => [(k, v)]
  | (k', v') :: r =>
      if str_eqb k' k then (k', v) :: r else (k', v') :: stored k v r
  end.

(** ** The host

    What the script finds around it and does not change: the ids of the
    elements of the page ([getElementById] finds an element for these and
    for no other id), and whether the store accepts a write, given the
    items it holds, the key and the value: a store that is full refuses.
    The elements the script looks up when it is evaluated (its containers,
    inputs and buttons) are taken to be on the page, and the store to be
    readable. *)

Record Host : Type := mkHost {
  elementIds : list jsstring;
  accepts : storage -> jsstring -> jsstring -> bool
}.

(** A page with the elements [ids] and a store that accepts every write. *)
Definition accepting (ids : list jsstring) : Host :=
  mkHost ids (fun _ _ _ => true).

(** A page with the elements [ids] and a store that refuses every write. *)
Definition refusing (ids : list jsstring) : Host :=
  mkHost ids (fun _ _ _ => false).

(** The size of the items, in code units, and a store that accepts a write
    when the items are then of size at most [quota]. *)
Definition size (st : storage) : N :=
  fold_right (fun kv n => (N.of_nat (List.length (fst kv))
                           + N.of_nat (List.length (snd kv)) + n)%N) 0%N st.

Definition limited (quota : N) (ids : list jsstring) : Host :=
  mkHost ids (fun st k v => (size (stored k v st) <=? quota)%N).

(** ** State

    The two variables of the script, the storage, the host, and the parts
    of the page the handlers write: the number last written to the points
    total, the strings last given to the three crusade inputs (by the user
    or by [loadCrusadeData]), the tab button marked as active and the tab
    whose content is shown. An input keeps the string it is given, as a
    text input does with a string it has held before. The two tab fields
    are [None] as long as [showTab] has not written them, and are read for
    a page whose elements with an id [tab-...] are its tab buttons and whose
    elements with an id [content-...] are its tab contents. The rest of the
    page, the catalogue fetches and the status message of the crusade
    tracker are left out. *)

Record State : Type := mkState {
  armyList : list Unit;
  favorites : jsval;
  localStorage : storage;
  pointsTotalElement : option jsnum;
  crusadeBattleHonorsInput : jsstring;
  crusadeXpInput : jsstring;
  crusadeRpInput : jsstring;
  activeTabBtn : option jsstring;
  activeTab : option jsstring;
  host : Host
}.

Definition with_armyList (l : list Unit) (s : State) : State :=
  mkState l (favorites s) (localStorage s) (pointsTotalElement s)
    (crusadeBattleHonorsInput s) (crusadeXpInput s) (crusadeRpInput s)
    (activeTabBtn s) (activeTab s) (host s).

Definition with_favorites (v : jsval) (s : State) : State :=
  mkState (armyList s) v (localStorage s) (pointsTotalElement s)
    (crusadeBattleHonorsInput s) (crusadeXpInput s) (crusadeRpInput s)
    (activeTabBtn s) (activeTab s) (host s).

Definition with_localStorage (st : storage) (s : State) : State :=
  mkState (armyList s) (favorites s) st (pointsTotalElement s)
    (crusadeBattleHonorsInput s) (crusadeXpInput s) (crusadeRpInput s)
    (activeTabBtn s) (activeTab s) (host s).

Definition with_pointsTotal (n : jsnum) (s : State) : State :=
  mkState (armyList s) (favorites s) (localStorage s) (Some n)
    (crusadeBattleHonorsInput s) (crusadeXpInput s) (crusadeRpInput s)
    (activeTabBtn s) (activeTab s) (host s).

Definition with_crusadeInputs (honors xp rp : jsstring) (s : State) : State :=
  mkState (armyList s) (favorites s) (localStorage s) (pointsTotalElement s)
    honors xp rp (activeTabBtn s) (activeTab s) (host s).

Definition with_activeTabBtn (button : option jsstring) (s : State) : State :=
  mkState (armyList s) (favorites s) (localStorage s) (pointsTotalElement s)
    (crusadeBattleHonorsInput s) (crusadeXpInput s) (crusadeRpInput s)
    button (activeTab s) (host s).

Definition with_activeTab (tabId : option jsstring) (s : State) : State :=
  mkState (armyList s) (favorites s) (localStorage s) (pointsTotalElement s)
    (crusadeBattleHonorsInput s) (crusadeXpInput s) (crusadeRpInput s)
    (activeTabBtn s) tabId (host s).

(** The script when it has just been evaluated, on the host [h] and over
    the storage earlier sessions left. *)
Definition initial (h : Host) (st : storage) : State :=
  mkState [] (VObj []) st None [] [] [] None None h.

(** ** Outcomes

    A handler runs on the state and ends in one of three ways: it returns,
    it throws (what it did to the state before stays done), or it leaves
    what this embedding follows (the text of a number that is no integer of
    magnitude at most 2^53, a favorites value that is an array or a
    primitive, whose properties depend on host prototypes, markup with a
    text the HTML parser does not read back as it is). *)

Inductive error : Type :=
| SyntaxError
| TypeError
| QuotaExceededError.

Inductive outcome (A : Type) : Type :=
| Done (a : A) (s : State)
| Raised (e : error) (s : State)
| Unfollowed.

Arguments Done {A} a s.
Arguments Raised {A} e s.
Arguments Unfollowed {A}.

Definition M (A : Type) : Type := State -> outcome A.

Definition ret {A : Type} (a : A) : M A := fun s => Done a s.

Definition bind {A B : Type} (m : M A) (f : A -> M B) : M B :=
  fun s =>
    match m s with
    | Done a s' => f a s'
    | Raised e s' => Raised e s'
    | Unfollowed => Unfollowed
    end.

Notation "x <- m ;; k" := (bind m (fun x => k))
  (at level 61, m at next level, right associativity).
Notation "m ;;; k" := (bind m (fun _ => k))
  (at level 61, right associativity).

Definition throw {A : Type} (e : error) : M A := fun s => Raised e s.

Definition beyond {A : Type} : M A := fun _ => Unfollowed.

Definition read {A : Type} (f : State -> A) : M A := fun s => Done (f s) s.

Definition modify (f : State -> State) : M unit := fun s => Done tt (f s).

(** [try { body } catch (e) { handler }]. *)
Definition try_catch {A : Type} (body : M A) (handler : error -> M A) : M A :=
  fun s =>
    match body s with
    | Raised e s' => handler e s'
    | r => r
    end.

(** [JSON.parse(text)]. *)
Definition JSON_parse (text : jsstring) : M jsval :=
  match parse_text text with
  | Some v => ret v
  | None => throw SyntaxError
  end.

(** [JSON.stringify(v)] as an argument of [setItem], which turns it into a
    string. *)
Definition stringify_text (v : jsval) : M jsstring :=
  match JSON_stringify v with
  | Text t => ret t
  | Undefined => ret (str "undefined")
  | Beyond => beyond
  end.

(** ** The handlers *)

(** [updatePointsTotal]. *)
Definition updatePointsTotal (s : State) : State :=
  with_pointsTotal (totalPoints (armyList s)) s.

(** [addUnitToArmy(unitId, unitName, unitPoints)]. *)
Definition addUnitToArmy (unitId unitName unitPoints : jsstring) (s : State)
  : State :=
  let unit := mkUnit unitId unitName (parseInt unitPoints) in
  updatePointsTotal (with_armyList (armyList s ++ [unit]) s).

(** [removeUnitFromArmy(unitId)]. *)
Definition removeUnitFromArmy (unitId : jsstring) (s : State) : State :=
  let index := findIndex unitId (armyList s) in
  if -1 <? index
  then updatePointsTotal (with_armyList (splice1 index (armyList s)) s)
  else s.

(** The value of the call [removeUnitFromArmy(unitId)]: the function has no
    [return] statement, so the call gives [undefined] on either path. *)
Definition removeUnitFromArmy_call (unitId : jsstring) : M jsval :=
  modify (removeUnitFromArmy unitId) ;;;
  ret VUndef.

(** [localStorage.setItem(k, v)]: a store that refuses the write throws a
    QuotaExceededError and keeps its items. *)
Definition setItem (k v : jsstring) : M unit :=
  fun s =>
    if accepts (host s) (localStorage s) k v
    then Done tt (with_localStorage (stored k v (localStorage s)) s)
    else Raised QuotaExceededError s.

(** [document.getElementById(elementId)]: whether it finds an element. *)
Definition getElementById (elementId : jsstring) : M bool :=
  read (fun s => existsb (str_eqb elementId) (elementIds (host s))).

(** The texts the HTML parser reads back as they were written, in a quoted
    attribute and in the text of an element: those without a double quote,
    an ampersand, a less-than sign, a NUL or a carriage return. *)
Definition html_plain (t : jsstring) : bool :=
  forallb (fun c => negb ((c =? 34) || (c =? 38) || (c =? 60) || (c =? 0)
                          || (c =? 13))%N) t.

(** A [selectionEntry] of a catalogue, as [renderUnitCard] reads it: its
    [id] and [name] attributes, and the [value] attribute of its
    [cost[name="Pts"]] child when there is such a child. *)
Record entry : Type := mkEntry {
  entry_id : option jsstring;
  entry_name : option jsstring;
  entry_cost : option (option jsstring)
}.

(** A template literal prints a missing attribute ([null]) as [null]. *)
Definition template (a : option jsstring) : jsstring :=
  match a with
  | Some t => t
  | None => str "null"
  end.

(** The [data-unit-id], [data-unit-name] and [data-unit-points] attributes
    the handlers read at the card [renderUnitCard] writes. The function
    writes the three texts into the markup as they are: [None] when one of
    them is not [html_plain], a card this embedding does not follow. *)
Definition renderUnitCard (unit : entry)
  : option (jsstring * jsstring * jsstring) :=
  let unitName := template (entry_name unit) in
  let unitPoints :=
    match entry_cost unit with
    | Some value => template value
    | None => str "N/A"
    end in
  let unitId := template (entry_id unit) in
  if html_plain unitId && html_plain unitName && html_plain unitPoints
  then Some (unitId, unitName, unitPoints)
  else None.

(** The [dataset] of the [.unit-card] around a favorite button. The cards of
    [renderUnitCard] carry the three attributes, those of [renderFavorites]
    only [data-unit-id]: a missing one reads as [undefined]. *)
Record dataset : Type := mkDataset {
  unitId : jsstring;
  unitName : option jsstring;
  unitPoints : option jsstring
}.

Definition optional (a : option jsstring) : jsval :=
  match a with
  | Some t => VStr t
  | None => VUndef
  end.

(** ToString of a dataset value. *)
Definition to_string (a : option jsstring) : jsstring :=
  match a with
  | Some t => t
  | None => str "undefined"
  end.

(** [{ id: unitId, name: unitName, points: parseInt(unitPoints, 10) }]. *)
Definition favorite_of (card : dataset) : jsval :=
  VObj [(str "id", VStr (unitId card));
        (str "name", optional (unitName card));
        (str "points", VNum (parseInt (to_string (unitPoints card))))].

(** [saveFavorites]. *)
Definition saveFavorites : M unit :=
  v <- read favorites ;;
  t <- stringify_text v ;;
  setItem (str "favorites") t.

(** The favorite branch of the document click handler. The boolean is
    whether the button carries the class [favorited] afterwards. Reading a
    property of [null] throws. *)
Definition favoriteBtn_click (card : dataset) : M bool :=
  v <- read favorites ;;
  match v with
  | VObj o =>
      if property_truthy (get (unitId card) o) then
        modify (with_favorites (VObj (delete_own (unitId card) o))) ;;;
        saveFavorites ;;;
        ret false
      else
        modify (with_favorites (VObj (set_own (unitId card) (favorite_of card) o))) ;;;
        saveFavorites ;;;
        ret true
  | VUndef | VNull => throw TypeError
  | _ => beyond
  end.

(** [loadFavorites]. *)
Definition loadFavorites : M unit :=
  storedFavorites <- read (fun s => getItem (str "favorites") (localStorage s)) ;;
  match storedFavorites with
  | Some ((_ :: _) as text) =>
      try_catch
        (v <- JSON_parse text ;; modify (with_favorites v))
        (fun e => modify (with_favorites (VObj [])))
  | _ => ret tt
  end.

(** [Object.values(favorites)] of [renderFavorites], for a plain object. *)
Definition listFavorites : M (list jsval) :=
  v <- read favorites ;;
  match v with
  | VObj o => ret (values o)
  | VUndef | VNull => throw TypeError
  | _ => beyond
  end.

(** The click handler of the save button of the crusade tracker. *)
Definition saveCrusadeBtn_click : M unit :=
  crusadeData <- read (fun s =>
    VObj [(str "battleHonors", VStr (crusadeBattleHonorsInput s));
          (str "xp", VStr (crusadeXpInput s));
          (str "rp", VStr (crusadeRpInput s))]) ;;
  t <- stringify_text crusadeData ;;
  setItem (str "crusadeData") t.

(** [crusadeData.k] for one of the names [battleHonors], [xp] and [rp],
    which no host prototype has: it is an own property or [undefined]. *)
Definition read_field (k : jsstring) (crusadeData : jsval) : M jsval :=
  match crusadeData with
  | VUndef | VNull => throw TypeError
  | VObj o => ret (match get_own k o with Some v => v | None => VUndef end)
  | _ => ret VUndef
  end.

(** What ToString gives for a value: a text, a TypeError, or a text this
    embedding does not follow (that of a number that is no integer of
    magnitude at most 2^53). *)
Inductive tostring : Type :=
| Chars (t : jsstring)
| NotConvertible
| NotFollowed.

(** The texts of two elements of an array with the comma between them. A
    number converts without throwing: when an element throws the join
    throws, whether or not the text of another is followed. *)
Definition comma (a b : tostring) : tostring :=
  match a, b with
  | NotConvertible, _ | _, NotConvertible => NotConvertible
  | NotFollowed, _ | _, NotFollowed => NotFollowed
  | Chars x, Chars y => Chars (x ++ 44%N :: y)
  end.

(** ToString, on the values of this embedding. An object converts with the
    [toString] it has: the inherited one gives [[object Object]]; an own
    property of that name is no function, nor does [valueOf] then give a
    primitive, and the conversion throws. An array joins the texts of its
    elements, the empty text for [null] and [undefined]. *)
Fixpoint ToString (v : jsval) : tostring :=
  match v with
  | VUndef => Chars (str "undefined")
  | VNull => Chars (str "null")
  | VBool true => Chars (str "true")
  | VBool false => Chars (str "false")
  | VNum NaN => Chars (str "NaN")
  | VNum (Infinity negative) =>
      Chars (if negative then str "-Infinity" else str "Infinity")
  | VNum (Int z) => if exact z then Chars (integer_text z) else NotFollowed
  | VDecimal _ _ _ => NotFollowed
  | VStr t => Chars t
  | VArr l =>
      (fix elements (l : list jsval) : tostring :=
         match l with
         | [] => Chars []
         | e :: r =>
             let text :=
               match e with
               | VUndef | VNull => Chars []
               | _ => ToString e
               end in
             match r with
             | [] => text
             | _ :: _ => comma text (elements r)
             end
         end) l
  | VObj o =>
      match get_own (str "toString") o with
      | Some _ => NotConvertible
      | None => Chars (str "[object Object]")
      end
  end.

(** A value where a string is wanted: in a template literal, or assigned to
    the [value] of an input. *)
Definition converted (v : jsval) : M jsstring :=
  match ToString v with
  | Chars t => ret t
  | NotConvertible => throw TypeError
  | NotFollowed => beyond
  end.

(** The string an input keeps after [input.value = v || '']. *)
Definition input_value (v : jsval) : M jsstring :=
  if truthy v then converted v else ret [].

(** [loadCrusadeData]. *)
Definition loadCrusadeData : M unit :=
  storedData <- read (fun s => getItem (str "crusadeData") (localStorage s)) ;;
  match storedData with
  | Some ((_ :: _) as text) =>
      crusadeData <- JSON_parse text ;;
      v <- read_field (str "battleHonors") crusadeData ;;
      t <- input_value v ;;
      modify (fun s => with_crusadeInputs t (crusadeXpInput s) (crusadeRpInput s) s) ;;;
      v <- read_field (str "xp") crusadeData ;;
      t <- input_value v ;;
      modify (fun s => with_crusadeInputs (crusadeBattleHonorsInput s) t (crusadeRpInput s) s) ;;;
      v <- read_field (str "rp") crusadeData ;;
      t <- input_value v ;;
      modify (fun s => with_crusadeInputs (crusadeBattleHonorsInput s) (crusadeXpInput s) t s)
  | _ => ret tt
  end.

(** The element children of the two containers the script fills: a
    paragraph, the card of a unit of the army list (its [data-unit-id], its
    name and the number printed before [pts]) and a card of the favorites
    tab (its [data-unit-id] and the texts of the name and of the points). *)
Inductive node : Type :=
| Paragraph (text : jsstring)
| AddedUnitCard (data_unit_id unit_name : jsstring) (unit_points : jsnum)
| FavoriteCard (data_unit_id unit_name unit_points : jsstring).

(** The card [renderFavorites] writes for one of the values of the
    favorites, from its [id], [name] and [points], each read and converted
    in turn. No host prototype has one of the three names, so [read_field]
    reads them. The three texts go into the markup as they are: a card
    with a text that is not [html_plain] is not followed. *)
Definition favorite_card (unit : jsval) : M node :=
  unit_id <- read_field (str "id") unit ;;
  data_unit_id <- converted unit_id ;;
  unit_name <- read_field (str "name") unit ;;
  name_text <- converted unit_name ;;
  unit_points <- read_field (str "points") unit ;;
  points_text <- converted unit_points ;;
  if html_plain data_unit_id && html_plain name_text && html_plain points_text
  then ret (FavoriteCard data_unit_id name_text points_text)
  else beyond.

Fixpoint forEach {A B : Type} (f : A -> M B) (l : list A) : M (list B) :=
  match l with
  | [] => ret []
  | a :: r =>
      b <- f a ;;
      bs <- forEach f r ;;
      ret (b :: bs)
  end.

(** [renderFavorites], as the children it leaves in the favorites container
    when it returns. *)
Definition renderFavorites : M (list node) :=
  favoriteUnits <- listFavorites ;;
  match favoriteUnits with
  | [] => ret [Paragraph (str "You have no favorite units yet.")]
  | _ => forEach favorite_card favoriteUnits
  end.

(** [showTab(tabId)]. Every tab button loses its mark, then the element
    [tab-...] is looked up and marked; every tab content is hidden, then
    the element [content-...] is looked up and shown; the favorites tab is
    rendered anew. A lookup that finds nothing gives [null], and the access
    to its [classList] throws. *)
Definition showTab (tabId : jsstring) : M unit :=
  modify (with_activeTabBtn None) ;;;
  found <- getElementById (str "tab-" ++ tabId) ;;
  (if (found : bool) then ret tt else throw TypeError) ;;;
  modify (with_activeTabBtn (Some (str "tab-" ++ tabId))) ;;;
  modify (with_activeTab None) ;;;
  found <- getElementById (str "content-" ++ tabId) ;;
  (if (found : bool) then ret tt else throw TypeError) ;;;
  modify (with_activeTab (Some tabId)) ;;;
  if str_eqb tabId (str "favorites")
  then renderFavorites ;;; ret tt
  else ret tt.

(** The [DOMContentLoaded] handler. *)
Definition onDOMContentLoaded : M unit :=
  loadFavorites ;;;
  loadCrusadeData ;;;
  showTab (str "battle-forge").

(** ** Events *)

Inductive crusade_field : Type :=
| BattleHonors
| Xp
| Rp.

Inductive event : Type :=
| DOMContentLoaded
| ClickAddToArmy (unitId unitName unitPoints : jsstring)
| ClickRemoveFromArmy (unitId : jsstring)
| ClickFavorite (card : dataset)
| TypeCrusade (field : crusade_field) (text : jsstring)
| ClickSaveCrusade.

Definition dispatch (e : event) : M unit :=
  match e with
  | DOMContentLoaded => onDOMContentLoaded
  | ClickAddToArmy i n p => modify (addUnitToArmy i n p)
  | ClickRemoveFromArmy i => modify (removeUnitFromArmy i)
  | ClickFavorite card => favoriteBtn_click card ;;; ret tt
  | TypeCrusade BattleHonors t =>
      modify (fun s => with_crusadeInputs t (crusadeXpInput s) (crusadeRpInput s) s)
  | TypeCrusade Xp t =>
      modify (fun s => with_crusadeInputs (crusadeBattleHonorsInput s) t (crusadeRpInput s) s)
  | TypeCrusade Rp t =>
      modify (fun s => with_crusadeInputs (crusadeBattleHonorsInput s) (crusadeXpInput s) t s)
  | ClickSaveCrusade => saveCrusadeBtn_click
  end.

(** A run of events. An exception ends its handler, not the page: the next
    event finds the state the handler left. *)
Fixpoint run (es : list event) (s : State) : option State :=
  match es with
  | [] => Some s
  | e :: r =>
      match dispatch e s with
      | Done _ s' => run r s'
      | Raised _ s' => run r s'
      | Unfollowed => None
      end
  end.

(** ** Sequences of calls *)

(** One [addUnitToArmy] call per card, in order. *)
Definition add_all (cards : list (jsstring * jsstring * jsstring)) (s : State)
  : State :=
  fold_left (fun s c => addUnitToArmy (fst (fst c)) (snd (fst c)) (snd c) s)
    cards s.

Definition sum (zs : list Z) : Z := fold_right Z.add 0 zs.

(** Every running total [acc + z1 + ... + zk] is an integer a double holds
    exactly. *)
Fixpoint totals_exact (acc : Z) (zs : list Z) : bool :=
  match zs with
  | [] => true
  | z :: r => exact (acc + z) && totals_exact (acc + z) r
  end.

(** The members of an object as [JSON.stringify] prints them: the loop inside
    [JSON_stringify], by itself. *)
Fixpoint stringify_members (o : object) : option (list jsstring) :=
  match o with
  | [] => Some []
  | (k, x) :: r =>
      match JSON_stringify x, stringify_members r with
      | Text t, Some ts => Some ((quote k ++ 58%N :: t) :: ts)
      | Undefined, Some ts => Some ts
      | _, _ => None
      end
  end.

(** The stored favorites are the JSON text of the favorites variable. *)
Definition in_sync (s : State) : Prop :=
  exists t, JSON_stringify (favorites s) = Text t
            /\ getItem (str "favorites") (localStorage s) = Some t.

(** No key occurs twice. *)
Definition unique_keys (o : object) : Prop := NoDup (map fst o).

(** [JSON.stringify] gives a text this embedding follows, or [undefined]. *)
Definition followed (v : jsval) : Prop := JSON_stringify v <> Beyond.

(** The number [parseInt] reads from the points text of the card is one
    whose text is followed: NaN, an infinity or an integer of magnitude at
    most 2^53. *)
Definition points_followed (card : dataset) : bool :=
  match parseInt (to_string (unitPoints card)) with
  | Int z => exact z
  | _ => true
  end.

(** The object a click on the favorite button of [card] leaves. *)
Definition toggled (card : dataset) (o : object) : object :=
  if property_truthy (get (unitId card) o)
  then delete_own (unitId card) o
  else set_own (unitId card) (favorite_of card) o.

(** A text written with an apostrophe for each double quote (code unit 34),
    to spell JSON texts. *)
Definition json (s : string) : jsstring :=
  map (fun c => if N.eqb c 39 then 34%N else c) (str s).

(** The calls on the roster, and the events that make them. *)
Inductive roster_call : Type :=
| Add (unitId unitName unitPoints : jsstring)
| RemoveById (unitId : jsstring).

Definition roster_event (c : roster_call) : event :=
  match c with
  | Add i n p => ClickAddToArmy i n p
  | RemoveById i => ClickRemoveFromArmy i
  end.

(** [R] relates the state before a computation to the state it leaves,
    whether it returns or throws. *)
Definition keeps {A : Type} (R : State -> State -> Prop) (m : M A) : Prop :=
  forall s,
    match m s with
    | Done _ s' | Raised _ s' => R s s'
    | Unfollowed => True
    end.

(** The storage is the same but for the keys [favorites] and [crusadeData]. *)
Definition same_other_items (s s' : State) : Prop :=
  forall k,
    k <> str "favorites" -> k <> str "crusadeData" ->
    getItem k (localStorage s') = getItem k (localStorage s).

Definition same_storage (s s' : State) : Prop :=
  localStorage s' = localStorage s.

Definition same_armyList (s s' : State) : Prop :=
  armyList s' = armyList s.

(** What may follow a number literal: the end of the text, or a code unit
    that is no digit, point or exponent mark. *)
Definition ends_number (rest : jsstring) : bool :=
  match rest with
  | [] => true
  | c :: _ =>
      match digit_of_unit c with
      | Some _ => false
      | None => negb ((c =? 46) || (c =? 101) || (c =? 69))%N
      end
  end.

(** ** What a session loads of what another saved *)

(** Every number of the value is NaN, an infinity or an integer of
    magnitude at most 2^53. *)
Fixpoint tracked (v : jsval) : bool :=
  match v with
  | VNum (Int z) => exact z
  | VDecimal _ _ _ => false
  | VArr l => forallb tracked l
  | VObj o => forallb (fun m => tracked (snd m)) o
  | _ => true
  end.

(** The value [JSON.parse] reads from the text [JSON.stringify] wrote for
    [v]: NaN, the infinities and the [undefined] elements of an array have
    become [null], the [undefined] members of an object are gone, and the
    members left have been defined one after the other. *)
Fixpoint reloaded (v : jsval) : jsval :=
  match v with
  | VUndef => VNull
  | VNum NaN => VNull
  | VNum (Infinity _) => VNull
  | VArr l => VArr (map reloaded l)
  | VObj o =>
      VObj (build_object
              ((fix members (o : list (jsstring * jsval)) :=
                  match o with
                  | [] => []
                  | (k, VUndef) :: r => members r
                  | (k, x) :: r => (k, reloaded x) :: members r
                  end) o))
  | _ => v
  end.

(** The loop inside [reloaded], by itself. *)
Fixpoint reloaded_members (o : object) : list (jsstring * jsval) :=
  match o with
  | [] => []
  | (k, VUndef) :: r => reloaded_members r
  | (k, x) :: r => (k, reloaded x) :: reloaded_members r
  end.

(** The text of an array element: [null] for [undefined]. *)
Definition element_text (v : jsval) : option jsstring :=
  match JSON_stringify v with
  | Text t => Some t
  | Undefined => Some (str "null")
  | Beyond => None
  end.

(** The loop over the elements inside [JSON_stringify], by itself. *)
Fixpoint stringify_elements (l : list jsval) : option (list jsstring) :=
  match l with
  | [] => Some []
  | e :: r =>
      match JSON_stringify e, stringify_elements r with
      | Text t, Some ts => Some (t :: ts)
      | Undefined, Some ts => Some (str "null" :: ts)
      | _, _ => None
      end
  end.

(** The text starts as the texts of values do: it is not empty and its first
    code unit is no white space, bracket, brace, comma or colon. *)
Definition starts_value (t : jsstring) : bool :=
  match t with
  | c :: _ =>
      existsb (N.eqb c)
        [110; 116; 102; 34; 91; 123; 45; 48; 49; 50; 51; 52; 53; 54; 55; 56; 57]%N
  | [] => false
  end.

(** The text of [v] is read back as [reloaded v], whatever follows it that
    ends a number. *)
Definition reads_back (v : jsval) : Prop :=
  tracked v = true ->
  forall t, element_text v = Some t ->
  exists n, forall rest,
    ends_number rest = true ->
    parse_value n (t ++ rest) = Some (reloaded v, rest).

(** The card carries a name, and a points text that [parseInt] reads as an
    integer of magnitude at most 2^53. *)
Definition named_with_points (card : dataset) : bool :=
  match unitName card, parseInt (to_string (unitPoints card)) with
  | Some _, Int z => exact z
  | _, _ => false
  end.

(** The favorites the click handler makes from such cards: no key twice,
    and every value the triple of a card. *)
Definition made_from_cards (o : object) : Prop :=
  unique_keys o
  /\ Forall (fun m => exists card,
                 named_with_points card = true /\ snd m = favorite_of card) o.

(** The same keys with the same values, in whatever order. *)
Definition same_entries (o o' : object) : Prop :=
  forall k, get_own k o' = get_own k o.

(** ** The points total on the page *)

(** The points total on the page is that of the roster: it has been written
    since the roster last changed, or nothing was written yet and the roster
    is empty. *)
Definition total_shown (s : State) : Prop :=
  pointsTotalElement s = Some (totalPoints (armyList s))
  \/ (pointsTotalElement s = None /\ armyList s = []).

(** The state a handler leaves, when it returns and when it throws. *)
Definition left_by {A : Type} (r : outcome A) : option State :=
  match r with
  | Done _ s | Raised _ s => Some s
  | Unfollowed => None
  end.

(** A handler that finds the points total shown leaves it shown. *)
Definition total_kept (s s' : State) : Prop := total_shown s -> total_shown s'.

(** ** The two stored records *)

(** The record the crusade save handler writes. *)
Definition crusade_record (honors xp rp : jsstring) : jsval :=
  VObj [(str "battleHonors", VStr honors);
        (str "xp", VStr xp);
        (str "rp", VStr rp)].

(** The stored crusade record and the three inputs are the same. *)
Definition same_crusade (s s' : State) : Prop :=
  getItem (str "crusadeData") (localStorage s')
  = getItem (str "crusadeData") (localStorage s)
  /\ crusadeBattleHonorsInput s' = crusadeBattleHonorsInput s
  /\ crusadeXpInput s' = crusadeXpInput s
  /\ crusadeRpInput s' = crusadeRpInput s.

(** The stored favorites and the favorites variable are the same. *)
Definition same_favorites (s s' : State) : Prop :=
  getItem (str "favorites") (localStorage s')
  = getItem (str "favorites") (localStorage s)
  /\ favorites s' = favorites s.

(** The text the crusade save handler stores for the three inputs. *)
Definition crusade_text (honors xp rp : jsstring) : jsstring :=
  match JSON_stringify (crusade_record honors xp rp) with
  | Text t => t
  | _ => []
  end.

(** The rest of [loadCrusadeData], once the stored text is parsed. *)
Definition crusade_fields (crusadeData : jsval) : M unit :=
  v <- read_field (str "battleHonors") crusadeData ;;
  t <- input_value v ;;
  modify (fun s => with_crusadeInputs t (crusadeXpInput s) (crusadeRpInput s) s) ;;;
  v <- read_field (str "xp") crusadeData ;;
  t <- input_value v ;;
  modify (fun s => with_crusadeInputs (crusadeBattleHonorsInput s) t (crusadeRpInput s) s) ;;;
  v <- read_field (str "rp") crusadeData ;;
  t <- input_value v ;;
  modify (fun s => with_crusadeInputs (crusadeBattleHonorsInput s) (crusadeXpInput s) t s).

(** What the conversion of [crusadeData.k || ''] to a string gives, for a
    record that is not [null]: the value of the field when it is truthy,
    the empty string otherwise. *)
Definition field_text (k : jsstring) (crusadeData : jsval) : tostring :=
  let v := match crusadeData with
           | VObj o => match get_own k o with Some v => v | None => VUndef end
           | _ => VUndef
           end in
  if truthy v then ToString v else Chars [].

(** ** The order of the keys *)

(** The order in which the host keeps the keys of an object: the array
    indices first, each above [lo] and above the one before it, then the
    other keys. *)
Fixpoint index_keys_ascending (lo : Z) (o : object) : bool :=
  match o with
  | [] => true
  | (k, _) :: r =>
      match array_index k with
      | Some i => (lo <? i) && index_keys_ascending i r
      | None =>
          forallb (fun m => match array_index (fst m) with
                            | Some _ => false
                            | None => true
                            end) r
      end
  end.

Definition host_order (o : object) : Prop := index_keys_ascending (-1) o = true.

(** ** The army list on the page

    The element children of the army list container, for ids and names that
    the HTML parser reads back as the text they are. What the container
    holds when the script starts is the page's, not the script's. *)

(** The card both [addUnitToArmy] and [renderArmyList] write for a unit:
    its id in [data-unit-id], its name and the number printed before
    [pts]. *)
Definition added_unit_card (unit : Unit) : node :=
  AddedUnitCard (id unit) (name unit) (points unit).

(** [renderArmyList], as the children it leaves in the container. *)
Definition renderArmyList (armyList : list Unit) : list node :=
  match armyList with
  | [] => [Paragraph (str "Add units to your army.")]
  | _ => map added_unit_card armyList
  end.

(** The state of the script with the children of the army list container. *)
Record Page : Type := mkPage {
  script : State;
  armyListContainer : list node
}.

(** [addUnitToArmy] with the card it appends to the container. *)
Definition addUnitToArmy_on_page (unitId unitName unitPoints : jsstring)
    (pg : Page) : Page :=
  mkPage (addUnitToArmy unitId unitName unitPoints (script pg))
    (armyListContainer pg
     ++ [added_unit_card (mkUnit unitId unitName (parseInt unitPoints))]).

(** [removeUnitFromArmy] with its call of [renderArmyList]. *)
Definition removeUnitFromArmy_on_page (unitId : jsstring) (pg : Page) : Page :=
  if -1 <? findIndex unitId (armyList (script pg))
  then let s := removeUnitFromArmy unitId (script pg) in
       mkPage s (renderArmyList (armyList s))
  else pg.

(** The remove branch of the document click handler, for a click in the
    child [n] of the container: only an added unit card has a remove
    button, and the handler reads the id to remove from its
    [data-unit-id]. *)
Definition removeFromArmyBtn_click (n : nat) (pg : Page) : Page :=
  match nth_error (armyListContainer pg) n with
  | Some (AddedUnitCard unitId _ _) => removeUnitFromArmy_on_page unitId pg
  | _ => pg
  end.

Inductive page_event : Type :=
| AddToArmy (unitId unitName unitPoints : jsstring)
| RemoveFromArmy (n : nat).

Definition page_dispatch (e : page_event) (pg : Page) : Page :=
  match e with
  | AddToArmy i n p => addUnitToArmy_on_page i n p pg
  | RemoveFromArmy n => removeFromArmyBtn_click n pg
  end.

Definition page_run (es : list page_event) (pg : Page) : Page :=
  fold_left (fun pg e => page_dispatch e pg) es pg.



(** ** The favorites tab *)

(** The [dataset] the click handler reads at a favorite button of the
    favorites container: its card has a [data-unit-id] and neither name nor
    points. *)
Definition card_dataset (c : node) : option dataset :=
  match c with
  | FavoriteCard data_unit_id _ _ => Some (mkDataset data_unit_id None None)
  | _ => None
  end.

(** A card of a catalogue whose favorite is followed to the favorites tab:
    it carries a name and points, its id and its name are [html_plain], and
    the number [parseInt] reads from the points text is NaN, an infinity or
    an integer of magnitude at most 2^53. *)
Definition catalogue_card (card : dataset) : bool :=
  match unitName card, unitPoints card with
  | Some unitName, Some unitPoints =>
      html_plain (unitId card) && html_plain unitName
      && points_followed card
  | _, _ => false
  end.

(** The favorites that clicks on such cards make: under the id of a card,
    the triple of that card. *)
Definition catalogue_favorites (o : object) : Prop :=
  unique_keys o
  /\ Forall (fun m => exists card,
                 catalogue_card card = true
                 /\ fst m = unitId card
                 /\ snd m = favorite_of card) o.

(** ** The favorite button of a catalogue card *)

(** The class [favorited] and the title of a favorite button. *)
Record button : Type := mkButton {
  favorited : bool;
  title : jsstring
}.

(** The favorite button [renderUnitCard] writes: the class and the title
    follow [favorites[unitId]]. *)
Definition renderUnitCard_button (unit : entry) : M button :=
  let unitId := template (entry_id unit) in
  v <- read favorites ;;
  match v with
  | VObj o =>
      if property_truthy (get unitId o)
      then ret (mkButton true (str "Unfavorite Unit"))
      else ret (mkButton false (str "Favorite Unit"))
  | VUndef | VNull => throw TypeError
  | _ => beyond
  end.

(** The [dataset] of the card [renderUnitCard] writes, when the embedding
    follows the card. *)
Definition card_of_entry (unit : entry) : option dataset :=
  match renderUnitCard unit with
  | Some (unitId, unitName, unitPoints) =>
      Some (mkDataset unitId (Some unitName) (Some unitPoints))
  | None => None
  end.

(** The favorite button as the favorite branch of the click handler leaves
    it: either branch sets its class and its title. *)
Definition favoriteBtn_after_click (card : dataset) : M button :=
  added <- favoriteBtn_click card ;;
  if (added : bool)
  then ret (mkButton true (str "Unfavorite Unit"))
  else ret (mkButton false (str "Unfavorite Unit")).

(** ** The tab buttons *)

(** [s] without the prefix [p], when it starts with [p]. *)
Fixpoint strip_prefix (p s : jsstring) : option jsstring :=
  match p, s with
  | [], _ => Some s
  | a :: p', b :: s' => if (a =? b)%N then strip_prefix p' s' else None
  | _ :: _, [] => None
  end.

(** [s.replace(pattern, '')] for a string pattern: the first occurrence of
    the pattern, if any, is taken out. *)
Fixpoint replace_by_empty (pattern s : jsstring) : jsstring :=
  match strip_prefix pattern s with
  | Some rest => rest
  | None =>
      match s with
      | [] => []
      | c :: r => c :: replace_by_empty pattern r
      end
  end.

(** The click listener of a tab button whose id is [target_id]. *)
Definition tabBtn_click (target_id : jsstring) : M unit :=
  let tabId := replace_by_empty (str "tab-") target_id in
  showTab tabId.

(** The id of the button [showTab(tabId)] marks as active. *)
Definition tab_button_id (tabId : jsstring) : jsstring := str "tab-" ++ tabId.

(** * Properties *)

(** ** Strings *)

Lemma str_eqb_spec (a b : jsstring) : reflect (a = b) (str_eqb a b).
Proof.
  revert b; induction a as [|x a IH]; intros [|y b]; simpl;
    try (constructor; congruence).
  destruct (N.eqb_spec x y) as [->|Hxy]; simpl.
  - destruct (IH b) as [->|Hab]; constructor; congruence.
  - constructor; congruence.
Qed.

Lemma str_eqb_refl (a : jsstring) : str_eqb a a = true.
Proof. destruct (str_eqb_spec a a); congruence. Qed.

Lemma str_eqb_eq (a b : jsstring) : str_eqb a b = true <-> a = b.
Proof. destruct (str_eqb_spec a b); split; congruence. Qed.

Lemma str_eqb_neq (a b : jsstring) : str_eqb a b = false <-> a <> b.
Proof. destruct (str_eqb_spec a b); split; congruence. Qed.

(** ** Numbers *)

Lemma round_integer_exact z : exact z = true -> round_integer z = z.
Proof.
  unfold exact, MAX_EXACT. intros H. apply Z.leb_le in H.
  destruct (Z.eq_dec (Z.abs z) (2 ^ 53)) as [Heq|Hne].
  - destruct (Z.abs_eq_or_opp z) as [Hz|Hz]; rewrite Hz in Heq.
    + subst z. reflexivity.
    + assert (z = - 2 ^ 53) by lia. subst z. reflexivity.
  - unfold round_integer.
    assert (Hlog : Z.log2 (Z.abs z) - 52 <= 0).
    { destruct (Z.eq_dec (Z.abs z) 0) as [H0|H0]; [rewrite H0; simpl; lia|].
      assert (Z.log2 (Z.abs z) < 53); [|lia].
      apply Z.log2_lt_pow2; lia. }
    apply Z.leb_le in Hlog. now rewrite Hlog.
Qed.

Lemma of_integer_exact z : exact z = true -> of_integer z = Int z.
Proof.
  intros H. unfold of_integer. rewrite (round_integer_exact z H).
  unfold exact, MAX_EXACT in H. apply Z.leb_le in H.
  assert (Hbig : 2 ^ 53 < 2 ^ 1024) by (apply Z.pow_lt_mono_r; lia).
  destruct (Z.ltb_spec (Z.abs z) (2 ^ 1024)); [reflexivity|lia].
Qed.

(** ** The army list *)

Lemma fold_points_exact (l : list Unit) (zs : list Z) (acc : Z) :
  map points l = map Int zs ->
  totals_exact acc zs = true ->
  fold_left (fun sum unit => num_add sum (points unit)) l (Int acc)
  = Int (acc + sum zs).
Proof.
  revert zs acc; induction l as [|u l IH]; intros [|z zs] acc Hmap Hex;
    simpl in *; try discriminate.
  - f_equal; lia.
  - injection Hmap as Hu Hl. apply andb_prop in Hex as [Hz Hr].
    rewrite Hu; simpl. rewrite (of_integer_exact _ Hz).
    rewrite (IH zs (acc + z) Hl Hr). f_equal; lia.
Qed.

Lemma armyList_add_all cards s :
  armyList (add_all cards s)
  = armyList s
    ++ map (fun c => mkUnit (fst (fst c)) (snd (fst c)) (parseInt (snd c))) cards.
Proof.
  revert s; induction cards as [|c cards IH]; intros s; simpl.
  - now rewrite app_nil_r.
  - rewrite IH; simpl. now rewrite <- app_assoc.
Qed.

Lemma findIndex_none unitId l :
  Forall (fun x => id x <> unitId) l -> findIndex unitId l = -1.
Proof.
  induction 1 as [|x l Hx _ IH]; simpl; [reflexivity|].
  apply str_eqb_neq in Hx; rewrite Hx, IH. reflexivity.
Qed.

Lemma findIndex_first unitId l1 e l2 :
  Forall (fun x => id x <> unitId) l1 -> id e = unitId ->
  findIndex unitId (l1 ++ e :: l2) = Z.of_nat (List.length l1).
Proof.
  intros Hl1 He; induction Hl1 as [|x l Hx _ IH]; simpl.
  - apply str_eqb_eq in He; now rewrite He.
  - apply str_eqb_neq in Hx; rewrite Hx, IH.
    destruct (Z.ltb_spec (Z.of_nat (List.length l)) 0); lia.
Qed.

Lemma splice1_middle l1 e l2 :
  splice1 (Z.of_nat (List.length l1)) (l1 ++ e :: l2) = l1 ++ l2.
Proof.
  unfold splice1. rewrite Nat2Z.id.
  induction l1 as [|x l1 IH]; [reflexivity|].
  change (x :: firstn (List.length l1) (l1 ++ e :: l2)
            ++ skipn (S (List.length l1)) (l1 ++ e :: l2) = x :: l1 ++ l2).
  now rewrite IH.
Qed.

Lemma totalPoints_NaN_last l u :
  points u = NaN -> totalPoints (l ++ [u]) = NaN.
Proof.
  intros Hu. unfold totalPoints. rewrite fold_left_app; simpl. rewrite Hu.
  now destruct (fold_left _ l (Int 0)).
Qed.

Lemma pointsTotalElement_add_all cards s :
  cards <> [] ->
  pointsTotalElement (add_all cards s)
  = Some (totalPoints (armyList (add_all cards s))).
Proof.
  revert s; induction cards as [|c [|c' cards] IH]; intros s Hne.
  - congruence.
  - reflexivity.
  - change (add_all (c :: c' :: cards) s)
      with (add_all (c' :: cards)
              (addUnitToArmy (fst (fst c)) (snd (fst c)) (snd c) s)).
    apply IH. discriminate.
Qed.

(** ** Plain objects *)

Lemma get_own_None k o : get_own k o = None <-> ~ In k (map fst o).
Proof.
  induction o as [|[k' v] o IH]; simpl; [tauto|].
  destruct (str_eqb_spec k' k) as [->|Hne].
  - split; [discriminate|tauto].
  - rewrite IH. tauto.
Qed.

Lemma get_own_app k o o' :
  get_own k (o ++ o') = match get_own k o with Some v => Some v | None => get_own k o' end.
Proof.
  induction o as [|[k' v] o IH]; simpl; [reflexivity|].
  now destruct (str_eqb k' k).
Qed.

Lemma get_own_replace k k' v o :
  get_own k' (replace_own k v o)
  = if str_eqb k k' then match get_own k o with Some _ => Some v | None => None end
    else get_own k' o.
Proof.
  induction o as [|[k0 v0] o IH]; simpl.
  - now destruct (str_eqb k k').
  - destruct (str_eqb_spec k0 k) as [->|Hne]; simpl.
    + destruct (str_eqb_spec k k'); [reflexivity|].
      reflexivity.
    + destruct (str_eqb_spec k0 k') as [->|Hne'].
      * destruct (str_eqb_spec k k'); [congruence|reflexivity].
      * exact IH.
Qed.

Lemma get_own_insert_index i k k' v o :
  get_own k o = None ->
  get_own k' (insert_index i k v o)
  = if str_eqb k k' then Some v else get_own k' o.
Proof.
  induction o as [|[k0 v0] o IH]; simpl; [reflexivity|].
  destruct (str_eqb_spec k0 k) as [->|Hne]; [discriminate|]. intros Hk.
  destruct (array_index k0) as [j|]; [destruct (j <? i)|]; simpl;
    try reflexivity.
  rewrite (IH Hk). destruct (str_eqb_spec k0 k') as [->|]; [|reflexivity].
  destruct (str_eqb_spec k k'); [congruence|reflexivity].
Qed.

Lemma get_own_set_own k k' v o :
  get_own k' (set_own k v o) = if str_eqb k k' then Some v else get_own k' o.
Proof.
  unfold set_own. destruct (get_own k o) as [x|] eqn:Hk.
  - rewrite get_own_replace, Hk. reflexivity.
  - destruct (array_index k) as [i|].
    + now apply get_own_insert_index.
    + rewrite get_own_app; simpl.
      destruct (str_eqb_spec k k') as [<-|Hne].
      * now rewrite Hk.
      * now destruct (get_own k' o).
Qed.

Lemma get_own_delete_own k k' o :
  unique_keys o ->
  get_own k' (delete_own k o) = if str_eqb k k' then None else get_own k' o.
Proof.
  unfold unique_keys.
  induction o as [|[k0 v0] o IH]; simpl; intros Hu.
  - now destruct (str_eqb k k').
  - inversion Hu as [|? ? Hk0 Hu']; subst.
    destruct (str_eqb_spec k0 k) as [->|Hne].
    + destruct (str_eqb_spec k k') as [<-|Hne'].
      * now apply get_own_None.
      * reflexivity.
    + simpl. rewrite (IH Hu').
      destruct (str_eqb_spec k0 k') as [->|Hne'].
      * destruct (str_eqb_spec k k'); [congruence|reflexivity].
      * reflexivity.
Qed.




Lemma In_keys_delete_own k k' o :
  In k' (map fst (delete_own k o)) -> In k' (map fst o).
Proof.
  induction o as [|[k0 v0] o IH]; simpl; [tauto|].
  destruct (str_eqb k0 k); simpl; tauto.
Qed.

Lemma unique_keys_delete_own k o : unique_keys o -> unique_keys (delete_own k o).
Proof.
  unfold unique_keys. induction o as [|[k0 v0] o IH]; simpl; intros Hu; [exact Hu|].
  inversion Hu as [|? ? Hk0 Hu']; subst.
  destruct (str_eqb k0 k); [exact Hu'|]. simpl; constructor.
  - intros Hin. apply Hk0. eapply In_keys_delete_own; eauto.
  - auto.
Qed.

Lemma keys_replace_own k v o : map fst (replace_own k v o) = map fst o.
Proof.
  induction o as [|[k0 v0] o IH]; simpl; [reflexivity|].
  destruct (str_eqb k0 k); simpl; congruence.
Qed.

Lemma In_keys_insert_index i k v o k' :
  In k' (map fst (insert_index i k v o)) <-> k' = k \/ In k' (map fst o).
Proof.
  induction o as [|[k0 v0] o IH]; simpl; [intuition congruence|].
  destruct (array_index k0) as [j|]; [destruct (j <? i)|]; simpl;
    rewrite ?IH; intuition congruence.
Qed.

Lemma unique_keys_insert_index i k v o :
  get_own k o = None -> unique_keys o -> unique_keys (insert_index i k v o).
Proof.
  unfold unique_keys. intros Hk. apply get_own_None in Hk. revert Hk.
  induction o as [|[k0 v0] o IH]; simpl; intros Hk Hu.
  - repeat constructor. tauto.
  - inversion Hu as [|? ? Hk0 Hu']; subst.
    destruct (array_index k0) as [j|]; [destruct (j <? i)|]; simpl.
    + constructor.
      * rewrite In_keys_insert_index. intuition congruence.
      * apply IH; tauto.
    + constructor; [simpl; tauto|exact Hu].
    + constructor; [simpl; tauto|exact Hu].
Qed.

Lemma unique_keys_set_own k v o : unique_keys o -> unique_keys (set_own k v o).
Proof.
  intros Hu. unfold set_own. destruct (get_own k o) eqn:Hk.
  - unfold unique_keys. now rewrite keys_replace_own.
  - destruct (array_index k) as [i|].
    + now apply unique_keys_insert_index.
    + unfold unique_keys. rewrite map_app; simpl.
      apply NoDup_app; repeat split.
      * exact Hu.
      * repeat constructor; tauto.
      * intros x Hx [<-|[]]. apply get_own_None in Hk. tauto.
Qed.

(** ** JSON.stringify on objects *)

Lemma JSON_stringify_VObj o :
  JSON_stringify (VObj o)
  = match stringify_members o with
    | Some ts => Text (123%N :: join ts ++ [125%N])
    | None => Beyond
    end.
Proof.
  simpl.
  match goal with
  | |- match ?f o with _ => _ end = _ =>
      assert (H : forall o', f o' = stringify_members o')
  end.
  { induction o' as [|[k x] o' IH]; simpl; [reflexivity|]. now rewrite IH. }
  now rewrite H.
Qed.

Lemma followed_VObj o : followed (VObj o) <-> stringify_members o <> None.
Proof.
  unfold followed. rewrite JSON_stringify_VObj.
  destruct (stringify_members o); split; congruence.
Qed.

Lemma followed_text o :
  followed (VObj o) -> exists t, JSON_stringify (VObj o) = Text t.
Proof.
  intros H. apply followed_VObj in H. rewrite JSON_stringify_VObj.
  destruct (stringify_members o); [eauto|congruence].
Qed.

Lemma members_cons k x r :
  stringify_members ((k, x) :: r) <> None
  <-> followed x /\ stringify_members r <> None.
Proof.
  unfold followed; simpl.
  destruct (JSON_stringify x), (stringify_members r);
    (split; [intros H; split; congruence|intros [H1 H2]; congruence]).
Qed.

Lemma members_app o o' :
  stringify_members (o ++ o') <> None
  <-> stringify_members o <> None /\ stringify_members o' <> None.
Proof.
  induction o as [|[k x] o IH].
  - simpl; split; [intros H; split; [discriminate|exact H]|tauto].
  - change (((k, x) :: o) ++ o') with ((k, x) :: (o ++ o')).
    rewrite !members_cons, IH. tauto.
Qed.

Lemma members_delete_own k o :
  stringify_members o <> None -> stringify_members (delete_own k o) <> None.
Proof.
  induction o as [|[k0 x] o IH]; [trivial|]. intros H.
  apply members_cons in H as [Hx Ho]. simpl.
  destruct (str_eqb k0 k); [exact Ho|]. apply members_cons; auto.
Qed.

Lemma members_replace_own k v o :
  followed v -> stringify_members o <> None ->
  stringify_members (replace_own k v o) <> None.
Proof.
  intros Hv. induction o as [|[k0 x] o IH]; [trivial|]. intros H.
  apply members_cons in H as [Hx Ho]. simpl.
  destruct (str_eqb k0 k); apply members_cons; auto.
Qed.

Lemma members_insert_index i k v o :
  followed v -> stringify_members o <> None ->
  stringify_members (insert_index i k v o) <> None.
Proof.
  intros Hv. induction o as [|[k0 x] o IH]; intros H.
  - apply members_cons; auto.
  - pose proof H as H'. apply members_cons in H' as [Hx Ho]. simpl.
    destruct (array_index k0) as [j|]; [destruct (j <? i)|];
      apply members_cons; auto.
Qed.

Lemma followed_set_own k v o :
  followed v -> followed (VObj o) -> followed (VObj (set_own k v o)).
Proof.
  rewrite !followed_VObj. intros Hv Ho. unfold set_own.
  destruct (get_own k o).
  - now apply members_replace_own.
  - destruct (array_index k).
    + now apply members_insert_index.
    + apply members_app; split; [exact Ho|]. apply members_cons; split;
        [exact Hv|discriminate].
Qed.

Lemma followed_delete_own k o :
  followed (VObj o) -> followed (VObj (delete_own k o)).
Proof. rewrite !followed_VObj. apply members_delete_own. Qed.

Lemma followed_favorite_of card :
  points_followed card = true ->
  followed (favorite_of card).
Proof.
  intros Hp. unfold favorite_of. apply followed_VObj.
  apply members_cons; split; [discriminate|].
  apply members_cons; split; [destruct (unitName card); discriminate|].
  apply members_cons; split; [|discriminate].
  unfold followed, points_followed in *; simpl.
  destruct (parseInt (to_string (unitPoints card))) as [|z|b];
    try discriminate.
  now rewrite Hp.
Qed.

Lemma followed_toggled card o :
  points_followed card = true ->
  followed (VObj o) -> followed (VObj (toggled card o)).
Proof.
  intros Hp Ho. unfold toggled.
  destruct (property_truthy (get (unitId card) o)).
  - now apply followed_delete_own.
  - apply followed_set_own; [now apply followed_favorite_of|exact Ho].
Qed.

(** ** localStorage *)

Lemma getItem_stored k k' v st :
  getItem k' (stored k v st) = if str_eqb k k' then Some v else getItem k' st.
Proof.
  induction st as [|[k0 v0] st IH]; simpl.
  - reflexivity.
  - destruct (str_eqb_spec k0 k) as [->|Hne]; simpl.
    + now destruct (str_eqb k k').
    + rewrite IH. destruct (str_eqb_spec k0 k') as [->|]; [|reflexivity].
      destruct (str_eqb_spec k k'); [congruence|reflexivity].
Qed.

(** ** The favorite button *)

(** What a click does to a favorites variable that holds a plain object:
    the variable is changed, and the write that follows returns or
    throws. *)
Lemma favoriteBtn_click_object card s o t :
  favorites s = VObj o ->
  JSON_stringify (VObj (toggled card o)) = Text t ->
  favoriteBtn_click card s
  = if accepts (host s) (localStorage s) (str "favorites") t
    then Done (negb (property_truthy (get (unitId card) o)))
           (with_localStorage (stored (str "favorites") t (localStorage s))
              (with_favorites (VObj (toggled card o)) s))
    else Raised QuotaExceededError (with_favorites (VObj (toggled card o)) s).
Proof.
  intros Hs Ht. unfold toggled in *.
  unfold favoriteBtn_click, bind, read. rewrite Hs.
  destruct (property_truthy (get (unitId card) o));
    unfold bind, modify, saveFavorites, bind, read, stringify_text, setItem;
    cbn [favorites with_favorites localStorage host]; rewrite Ht; unfold ret;
    cbn [favorites with_favorites localStorage host];
    now destruct (accepts (host s) (localStorage s) (str "favorites") t).
Qed.

Lemma favoriteBtn_click_returns card s o :
  favorites s = VObj o ->
  followed (VObj o) ->
  points_followed card = true ->
  exists t,
    JSON_stringify (VObj (toggled card o)) = Text t
    /\ favoriteBtn_click card s
       = if accepts (host s) (localStorage s) (str "favorites") t
         then Done (negb (property_truthy (get (unitId card) o)))
                (with_localStorage (stored (str "favorites") t (localStorage s))
                   (with_favorites (VObj (toggled card o)) s))
         else Raised QuotaExceededError
                (with_favorites (VObj (toggled card o)) s).
Proof.
  intros Hs Ho Hp.
  destruct (followed_text _ (followed_toggled card o Hp Ho)) as [t Ht].
  exists t; split; [exact Ht|]. now apply favoriteBtn_click_object.
Qed.

Lemma truthy_favorite_of card : truthy (favorite_of card) = true.
Proof. reflexivity. Qed.

Lemma get_set_own_same k v o : get k (set_own k v o) = Own v.
Proof. unfold get. now rewrite get_own_set_own, str_eqb_refl. Qed.



(** ** What a handler keeps *)

Section Frame.

Variable R : State -> State -> Prop.
Hypothesis R_refl : forall s, R s s.
Hypothesis R_trans : forall s1 s2 s3, R s1 s2 -> R s2 s3 -> R s1 s3.

Lemma keeps_ret {A} (a : A) : keeps R (ret a).
Proof. intros s; apply R_refl. Qed.

Lemma keeps_throw {A} (e : error) : keeps R (@throw A e).
Proof. intros s; apply R_refl. Qed.

Lemma keeps_beyond {A} : keeps R (@beyond A).
Proof. intros s; exact I. Qed.

Lemma keeps_read {A} (f : State -> A) : keeps R (read f).
Proof. intros s; apply R_refl. Qed.

Lemma keeps_modify (f : State -> State) :
  (forall s, R s (f s)) -> keeps R (modify f).
Proof. intros H s; apply H. Qed.

Lemma keeps_bind {A B} (m : M A) (f : A -> M B) :
  keeps R m -> (forall a, keeps R (f a)) -> keeps R (bind m f).
Proof.
  intros Hm Hf s. unfold bind. specialize (Hm s).
  destruct (m s) as [a s'| |]; trivial.
  specialize (Hf a s'). destruct (f a s'); trivial; eauto.
Qed.

Lemma keeps_try_catch {A} (body : M A) (handler : error -> M A) :
  keeps R body -> (forall e, keeps R (handler e)) ->
  keeps R (try_catch body handler).
Proof.
  intros Hb Hh s. unfold try_catch. specialize (Hb s).
  destruct (body s) as [a s'|e s'|]; trivial.
  specialize (Hh e s'). destruct (handler e s'); trivial; eauto.
Qed.

Lemma keeps_JSON_parse text : keeps R (JSON_parse text).
Proof.
  unfold JSON_parse. destruct (parse_text text);
    [apply keeps_ret|apply keeps_throw].
Qed.

Lemma keeps_stringify_text v : keeps R (stringify_text v).
Proof.
  unfold stringify_text. destruct (JSON_stringify v);
    [apply keeps_ret|apply keeps_ret|apply keeps_beyond].
Qed.

Lemma keeps_read_field k v : keeps R (read_field k v).
Proof. destruct v; simpl; try apply keeps_ret; apply keeps_throw. Qed.

Lemma keeps_converted v : keeps R (converted v).
Proof.
  unfold converted. destruct (ToString v);
    [apply keeps_ret|apply keeps_throw|apply keeps_beyond].
Qed.

Lemma keeps_input_value v : keeps R (input_value v).
Proof.
  unfold input_value. destruct (truthy v); [apply keeps_converted|apply keeps_ret].
Qed.

Lemma keeps_getElementById i : keeps R (getElementById i).
Proof. apply keeps_read. Qed.

Lemma keeps_listFavorites : keeps R listFavorites.
Proof.
  unfold listFavorites. apply keeps_bind; [apply keeps_read|intros v].
  destruct v; try apply keeps_throw; try apply keeps_beyond; apply keeps_ret.
Qed.

Lemma keeps_favorite_card unit : keeps R (favorite_card unit).
Proof.
  unfold favorite_card.
  repeat (first
    [ apply keeps_bind; [|intro]
    | apply keeps_read_field | apply keeps_converted ]).
  destruct (_ && _); [apply keeps_ret|apply keeps_beyond].
Qed.

Lemma keeps_forEach {A B} (f : A -> M B) l :
  (forall a, keeps R (f a)) -> keeps R (forEach f l).
Proof.
  intros Hf. induction l as [|a l IH]; simpl; [apply keeps_ret|].
  apply keeps_bind; [apply Hf|intros b].
  apply keeps_bind; [exact IH|intros bs]. apply keeps_ret.
Qed.

Lemma keeps_renderFavorites : keeps R renderFavorites.
Proof.
  unfold renderFavorites. apply keeps_bind; [apply keeps_listFavorites|].
  intros [|v l]; [apply keeps_ret|].
  apply keeps_forEach. apply keeps_favorite_card.
Qed.

(** The handlers, given that the writes they make to the variables, the
    page and the storage are in [R]. *)
Hypothesis R_favorites : forall v s, R s (with_favorites v s).
Hypothesis R_inputs : forall a b c s, R s (with_crusadeInputs a b c s).
Hypothesis R_tabBtn : forall t s, R s (with_activeTabBtn t s).
Hypothesis R_tab : forall t s, R s (with_activeTab t s).

Lemma keeps_loadFavorites : keeps R loadFavorites.
Proof.
  unfold loadFavorites. apply keeps_bind; [apply keeps_read|].
  intros [[|c text]|]; try apply keeps_ret.
  apply keeps_try_catch.
  - apply keeps_bind; [apply keeps_JSON_parse|].
    intros v. now apply keeps_modify.
  - intros e. now apply keeps_modify.
Qed.

Lemma keeps_loadCrusadeData : keeps R loadCrusadeData.
Proof.
  unfold loadCrusadeData. apply keeps_bind; [apply keeps_read|].
  intros [[|c text]|]; try apply keeps_ret.
  repeat (first
    [ apply keeps_bind; [|intro]
    | apply keeps_JSON_parse | apply keeps_read_field
    | apply keeps_input_value
    | apply keeps_modify; intro; apply R_inputs ]).
Qed.

Lemma keeps_showTab tabId : keeps R (showTab tabId).
Proof.
  unfold showTab.
  apply keeps_bind; [apply keeps_modify; intros s; apply R_tabBtn|intros _].
  apply keeps_bind; [apply keeps_getElementById|intros found].
  apply keeps_bind; [destruct found; [apply keeps_ret|apply keeps_throw]|intros _].
  apply keeps_bind; [apply keeps_modify; intros s; apply R_tabBtn|intros _].
  apply keeps_bind; [apply keeps_modify; intros s; apply R_tab|intros _].
  apply keeps_bind; [apply keeps_getElementById|intros found'].
  apply keeps_bind; [destruct found'; [apply keeps_ret|apply keeps_throw]|intros _].
  apply keeps_bind; [apply keeps_modify; intros s; apply R_tab|intros _].
  destruct (str_eqb tabId (str "favorites")); [|apply keeps_ret].
  apply keeps_bind; [apply keeps_renderFavorites|intros _; apply keeps_ret].
Qed.

Lemma keeps_onDOMContentLoaded : keeps R onDOMContentLoaded.
Proof.
  unfold onDOMContentLoaded.
  apply keeps_bind; [apply keeps_loadFavorites|intros _].
  apply keeps_bind; [apply keeps_loadCrusadeData|intros _].
  apply keeps_showTab.
Qed.

Hypothesis R_armyList : forall l s, R s (with_armyList l s).
Hypothesis R_pointsTotal : forall n s, R s (with_pointsTotal n s).

Lemma R_addUnitToArmy i n p s : R s (addUnitToArmy i n p s).
Proof.
  unfold addUnitToArmy, updatePointsTotal.
  eapply R_trans; [apply R_armyList|apply R_pointsTotal].
Qed.

Lemma R_removeUnitFromArmy i s : R s (removeUnitFromArmy i s).
Proof.
  unfold removeUnitFromArmy, updatePointsTotal.
  destruct (-1 <? findIndex i (armyList s)); [|apply R_refl].
  eapply R_trans; [apply R_armyList|apply R_pointsTotal].
Qed.

(** The two writers of the storage. *)
Hypothesis R_favorites_item :
  forall t s, R s (with_localStorage (stored (str "favorites") t (localStorage s)) s).
Hypothesis R_crusade_item :
  forall t s, R s (with_localStorage (stored (str "crusadeData") t (localStorage s)) s).

Lemma keeps_setItem k v :
  (forall s, R s (with_localStorage (stored k v (localStorage s)) s)) ->
  keeps R (setItem k v).
Proof.
  intros H s. unfold setItem.
  destruct (accepts (host s) (localStorage s) k v); [apply H|apply R_refl].
Qed.

Lemma keeps_saveFavorites : keeps R saveFavorites.
Proof.
  unfold saveFavorites. apply keeps_bind; [apply keeps_read|intros v].
  apply keeps_bind; [apply keeps_stringify_text|intros t].
  apply keeps_setItem. intros s; apply R_favorites_item.
Qed.

Lemma keeps_favoriteBtn_click card : keeps R (favoriteBtn_click card).
Proof.
  unfold favoriteBtn_click. apply keeps_bind; [apply keeps_read|intros v].
  destruct v; try apply keeps_throw; try apply keeps_beyond.
  destruct (property_truthy _);
    (apply keeps_bind; [now apply keeps_modify|intros _]);
    (apply keeps_bind; [apply keeps_saveFavorites|intros _]);
    apply keeps_ret.
Qed.

Lemma keeps_saveCrusadeBtn_click : keeps R saveCrusadeBtn_click.
Proof.
  unfold saveCrusadeBtn_click. apply keeps_bind; [apply keeps_read|intros v].
  apply keeps_bind; [apply keeps_stringify_text|intros t].
  apply keeps_setItem. intros s; apply R_crusade_item.
Qed.

Lemma keeps_dispatch e : keeps R (dispatch e).
Proof.
  destruct e as [|i n p|i|card|[] t|]; simpl.
  - apply keeps_onDOMContentLoaded.
  - apply keeps_modify. intros s; apply R_addUnitToArmy.
  - apply keeps_modify. intros s; apply R_removeUnitFromArmy.
  - apply keeps_bind; [apply keeps_favoriteBtn_click|intros _; apply keeps_ret].
  - apply keeps_modify. intros s; apply R_inputs.
  - apply keeps_modify. intros s; apply R_inputs.
  - apply keeps_modify. intros s; apply R_inputs.
  - apply keeps_saveCrusadeBtn_click.
Qed.

End Frame.

(** ** Loading *)

Lemma with_favorites_same s : with_favorites (favorites s) s = s.
Proof. now destruct s. Qed.

(** [loadFavorites] returns, and changes the favorites variable only. *)
Lemma loadFavorites_returns s :
  loadFavorites s
  = Done tt
      (with_favorites
         match getItem (str "favorites") (localStorage s) with
         | Some ((_ :: _) as text) =>
             match parse_text text with
             | Some v => v
             | None => VObj []
             end
         | _ => favorites s
         end s).
Proof.
  unfold loadFavorites, bind, read.
  destruct (getItem (str "favorites") (localStorage s)) as [[|c text]|];
    unfold ret; rewrite ?with_favorites_same; try reflexivity.
  unfold try_catch, bind, JSON_parse.
  now destruct (parse_text (c :: text)).
Qed.

Lemma loadCrusadeData_SyntaxError s text :
  getItem (str "crusadeData") (localStorage s) = Some text ->
  text <> [] ->
  parse_text text = None ->
  loadCrusadeData s = Raised SyntaxError s.
Proof.
  intros Hget Hne Hparse. unfold loadCrusadeData, bind, read. rewrite Hget.
  destruct text as [|c text]; [congruence|].
  unfold JSON_parse. now rewrite Hparse.
Qed.

(** ** JSON.parse on the texts of JSON.stringify *)

Lemma hex_value_hex_unit d : (d < 16)%N -> hex_value (hex_unit d) = Some d.
Proof.
  intros H. 
  assert (Hd : In d [0;1;2;3;4;5;6;7;8;9;10;11;12;13;14;15]%N).
  { simpl. lia. }
  simpl in Hd. repeat (destruct Hd as [<-|Hd]; [reflexivity|]). destruct Hd.
Qed.

Lemma hex4_unicode_escape c r :
  (c < 65536)%N ->
  parse_chars (unicode_escape c ++ r)
  = match parse_chars r with
    | Some (t, rest) => Some (c :: t, rest)
    | None => None
    end.
Proof.
  intros Hc. unfold unicode_escape.
  cbn [app parse_chars N.eqb Pos.eqb].
  unfold hex4.
  rewrite !hex_value_hex_unit by (apply N.mod_lt; discriminate).
  replace (4096 * ((c / 4096) mod 16) + 256 * ((c / 256) mod 16)
           + 16 * ((c / 16) mod 16) + c mod 16)%N with c; [reflexivity|].
  zify. Z.to_euclidean_division_equations. lia.
Qed.

Lemma parse_chars_literal c r :
  (32 <= c)%N -> c <> 34%N -> c <> 92%N ->
  parse_chars (c :: r)
  = match parse_chars r with
    | Some (t, rest) => Some (c :: t, rest)
    | None => None
    end.
Proof.
  intros H32 H34 H92. cbn [parse_chars].
  apply N.eqb_neq in H34, H92. rewrite H34, H92.
  destruct (N.ltb_spec c 32); [lia|reflexivity].
Qed.

Lemma parse_chars_quote_unit c r :
  parse_chars (quote_unit c ++ r)
  = match parse_chars r with
    | Some (t, rest) => Some (c :: t, rest)
    | None => None
    end.
Proof.
  unfold quote_unit.
  repeat match goal with
  | |- context [N.eqb c ?n] => destruct (N.eqb_spec c n) as [->|]; [reflexivity|]
  end.
  destruct ((c <? 32)%N || is_high_surrogate c || is_low_surrogate c) eqn:Hesc.
  - apply hex4_unicode_escape.
    unfold is_high_surrogate, is_low_surrogate in Hesc.
    destruct (N.ltb_spec c 32); [lia|].
    destruct (N.leb_spec c 56319), (N.leb_spec c 57343); try lia;
      rewrite ?andb_false_r in Hesc; simpl in Hesc; discriminate.
  - apply parse_chars_literal; try assumption.
    destruct (N.ltb_spec c 32); [discriminate|assumption].
Qed.


Lemma quote_units_cons c r :
  quote_units (c :: r)
  = if is_high_surrogate c then
      match r with
      | d :: r' => if is_low_surrogate d then c :: d :: quote_units r'
                   else quote_unit c ++ quote_units r
      | [] => quote_unit c
      end
    else quote_unit c ++ quote_units r.
Proof. reflexivity. Qed.

Lemma parse_chars_quote_units s rest :
  parse_chars (quote_units s ++ 34%N :: rest) = Some (s, rest).
Proof.
  enough (H : forall s, parse_chars (quote_units s ++ 34%N :: rest) = Some (s, rest)
                        /\ forall c, parse_chars (quote_units (c :: s) ++ 34%N :: rest)
                                     = Some (c :: s, rest))
    by apply H.
  clear s. induction s as [|d s [IH IHc]].
  - split; [reflexivity|]. intros c. rewrite quote_units_cons.
    destruct (is_high_surrogate c); rewrite ?app_nil_r, parse_chars_quote_unit;
      reflexivity.
  - split; [apply IHc|]. intros c. rewrite quote_units_cons.
    destruct (is_high_surrogate c) eqn:Hc;
      [destruct (is_low_surrogate d) eqn:Hd|].
    + unfold is_high_surrogate in Hc. unfold is_low_surrogate in Hd.
      apply andb_prop in Hc as [Hc1 Hc2]. apply andb_prop in Hd as [Hd1 Hd2].
      apply N.leb_le in Hc1, Hc2, Hd1, Hd2.
      change ((c :: d :: quote_units s) ++ 34%N :: rest)
        with (c :: d :: (quote_units s ++ 34%N :: rest)).
      rewrite parse_chars_literal by lia.
      rewrite parse_chars_literal by lia.
      now rewrite IH.
    + rewrite <- app_assoc, parse_chars_quote_unit. now rewrite IHc.
    + rewrite <- app_assoc, parse_chars_quote_unit. now rewrite IHc.
Qed.

Lemma ends_number_no_digit rest :
  ends_number rest = true ->
  match rest with [] => True | c :: _ => digit_of_unit c = None end.
Proof.
  destruct rest as [|c r]; simpl; [trivial|].
  now destruct (digit_of_unit c).
Qed.

Lemma take_digits_uint_units d rest :
  ends_number rest = true ->
  take_digits (uint_units d ++ rest) = (d, rest).
Proof.
  intros H. apply ends_number_no_digit in H.
  induction d; simpl; rewrite ?IHd; try reflexivity.
  destruct rest as [|c r]; simpl; [reflexivity|now rewrite H].
Qed.

Lemma to_uint_unorm n : Decimal.unorm (N.to_uint n) = N.to_uint n.
Proof. now rewrite <- DecimalN.Unsigned.to_of, DecimalN.Unsigned.of_to. Qed.

Lemma to_uint_leading_zero n d : N.to_uint n = Decimal.D0 d -> d = Decimal.Nil.
Proof.
  intros H. pose proof (to_uint_unorm n) as Hn. rewrite H in Hn.
  rewrite DecimalFacts.unorm_D0 in Hn.
  destruct d; try reflexivity; exfalso.
  all: unfold Decimal.unorm in Hn;
    match type of Hn with
    | match Decimal.nzhead ?u with _ => _ end = _ =>
        pose proof (DecimalFacts.nb_digits_nzhead u) as Hlen;
        destruct (Decimal.nzhead u) eqn:Hz
    end;
    try discriminate; injection Hn as Hn; subst; simpl in Hlen; lia.
Qed.

Lemma to_uint_nonnil n : N.to_uint n <> Decimal.Nil.
Proof.
  destruct n; simpl; [discriminate|]. apply DecimalPos.Unsigned.to_uint_nonnil.
Qed.

Lemma decimal_value_integer (negative : bool) m :
  exact m = true -> 0 <= m ->
  decimal_value negative m 0 = VNum (Int (if negative then - m else m)).
Proof.
  intros Hex Hm. unfold decimal_value.
  destruct (Z.eqb_spec m 0) as [->|Hne]; [now destruct negative|].
  simpl (0 <=? 0). cbv iota.
  replace ((if negative then -1 else 1) * (m * 10 ^ 0))
    with (if negative then - m else m) by (destruct negative; lia).
  assert (Hex' : exact (if negative then - m else m) = true).
  { destruct negative; [|exact Hex]. unfold exact in *. now rewrite Z.abs_opp. }
  now rewrite (of_integer_exact _ Hex').
Qed.

Lemma ends_number_tests c r :
  ends_number (c :: r) = true ->
  (c =? 46)%N = false /\ ((c =? 101)%N || (c =? 69)%N) = false.
Proof.
  simpl. destruct (digit_of_unit c); [discriminate|].
  destruct (c =? 46)%N, (c =? 101)%N, (c =? 69)%N; simpl; auto; discriminate.
Qed.

Lemma parse_frac_ends rest :
  ends_number rest = true -> parse_frac rest = Some (Decimal.Nil, rest).
Proof.
  destruct rest as [|c r]; [reflexivity|]. intros H.
  apply ends_number_tests in H as [H _]. simpl. now rewrite H.
Qed.

Lemma parse_exp_ends rest :
  ends_number rest = true -> parse_exp rest = Some (0, rest).
Proof.
  destruct rest as [|c r]; [reflexivity|]. intros H.
  apply ends_number_tests in H as [_ H]. simpl. now rewrite H.
Qed.

Lemma parse_int_digits n rest :
  ends_number rest = true ->
  parse_int (uint_units (N.to_uint n) ++ rest) = (N.to_uint n, rest).
Proof.
  intros Hrest.
  pose proof (take_digits_uint_units (N.to_uint n) rest Hrest) as Htake.
  pose proof (to_uint_nonnil n) as Hnil.
  pose proof (to_uint_leading_zero n) as Hzero.
  destruct (N.to_uint n) as [|d|d|d|d|d|d|d|d|d|d]; [congruence|..];
    try exact Htake.
  now rewrite (Hzero d eq_refl).
Qed.

Lemma parse_number_digits (negative : bool) n rest :
  ends_number rest = true ->
  exact (Z.of_N n) = true ->
  parse_number ((if negative then [45%N] else []) ++ uint_units (N.to_uint n) ++ rest)
  = Some (VNum (Int (if negative then - Z.of_N n else Z.of_N n)), rest).
Proof.
  intros Hrest Hex.
  assert (Hval : uint_value (N.to_uint n) = Z.of_N n)
    by (unfold uint_value; now rewrite DecimalN.Unsigned.of_to).
  assert (Hsign : parse_sign ((if negative then [45%N] else [])
                              ++ uint_units (N.to_uint n) ++ rest)
                  = (negative, uint_units (N.to_uint n) ++ rest)).
  { destruct negative; [reflexivity|]. simpl.
    pose proof (to_uint_nonnil n) as Hnil.
    destruct (N.to_uint n); [congruence|..]; reflexivity. }
  unfold parse_number. rewrite Hsign, (parse_int_digits n rest Hrest).
  rewrite (parse_frac_ends rest Hrest), (parse_exp_ends rest Hrest).
  rewrite <- (decimal_value_integer negative (Z.of_N n) Hex) by lia.
  rewrite <- Hval.
  pose proof (to_uint_nonnil n) as Hnil.
  destruct (N.to_uint n); [congruence|..];
    rewrite DecimalFacts.app_nil_r; reflexivity.
Qed.

Lemma parse_number_integer_text z rest :
  ends_number rest = true ->
  exact z = true ->
  parse_number (integer_text z ++ rest) = Some (VNum (Int z), rest).
Proof.
  intros Hrest Hex. unfold integer_text.
  assert (Hn : Z.of_N (Z.to_N (Z.abs z)) = Z.abs z) by lia.
  assert (Hex' : exact (Z.of_N (Z.to_N (Z.abs z))) = true).
  { rewrite Hn. unfold exact in *. now rewrite Z.abs_idemp. }
  pose proof (parse_number_digits (z <? 0) (Z.to_N (Z.abs z)) rest Hrest Hex') as H.
  rewrite Hn in H.
  destruct (Z.ltb_spec z 0).
  - simpl in H |- *. rewrite H. do 4 f_equal. lia.
  - simpl in H |- *. rewrite H. do 4 f_equal. lia.
Qed.

(** ** The fuel of the parser *)

Lemma parse_value_S fuel s :
  parse_value (S fuel) s
  = match classify s with
    | StartNull r => Some (VNull, r)
    | StartTrue r => Some (VBool true, r)
    | StartFalse r => Some (VBool false, r)
    | StartString r =>
        match parse_chars r with
        | Some (t, rest) => Some (VStr t, rest)
        | None => None
        end
    | StartArray r =>
        match expect 93 r with
        | Some rest => Some (VArr [], rest)
        | None =>
            match parse_elements fuel r with
            | Some (l, rest) => Some (VArr l, rest)
            | None => None
            end
        end
    | StartObject r =>
        match expect 125 r with
        | Some rest => Some (VObj [], rest)
        | None =>
            match parse_members fuel r with
            | Some (l, rest) => Some (VObj (build_object l), rest)
            | None => None
            end
        end
    | StartNumber s' => parse_number s'
    end.
Proof. reflexivity. Qed.

Lemma parse_elements_S fuel s :
  parse_elements (S fuel) s
  = match parse_value fuel s with
    | Some (v, r) =>
        match expect 93 r with
        | Some rest => Some ([v], rest)
        | None =>
            match expect 44 r with
            | Some r' =>
                match parse_elements fuel r' with
                | Some (l, rest) => Some (v :: l, rest)
                | None => None
                end
            | None => None
            end
        end
    | None => None
    end.
Proof. reflexivity. Qed.

Lemma parse_members_S fuel s :
  parse_members (S fuel) s
  = match expect 34 s with
    | Some r =>
        match parse_chars r with
        | Some (k, r1) =>
            match expect 58 r1 with
            | Some r2 =>
                match parse_value fuel r2 with
                | Some (v, r3) =>
                    match expect 125 r3 with
                    | Some rest => Some ([(k, v)], rest)
                    | None =>
                        match expect 44 r3 with
                        | Some r4 =>
                            match parse_members fuel r4 with
                            | Some (l, rest) => Some ((k, v) :: l, rest)
                            | None => None
                            end
                        | None => None
                        end
                    end
                | None => None
                end
            | None => None
            end
        | None => None
        end
    | None => None
    end.
Proof. reflexivity. Qed.

Lemma parse_fuel_S fuel :
  (forall s r, parse_value fuel s = Some r -> parse_value (S fuel) s = Some r)
  /\ (forall s r, parse_elements fuel s = Some r -> parse_elements (S fuel) s = Some r)
  /\ (forall s r, parse_members fuel s = Some r -> parse_members (S fuel) s = Some r).
Proof.
  induction fuel as [|fuel (IHv & IHe & IHm)].
  - repeat split; intros; discriminate.
  - split; [|split]; intros s r H.
    + rewrite parse_value_S in H. rewrite parse_value_S.
      destruct (classify s) as [r0|r0|r0|r0|r0|r0|s0]; try exact H.
      * destruct (expect 93 r0); [exact H|].
        destruct (parse_elements fuel r0) as [[l rest]|] eqn:E; [|discriminate].
        now rewrite (IHe _ _ E).
      * destruct (expect 125 r0); [exact H|].
        destruct (parse_members fuel r0) as [[l rest]|] eqn:E; [|discriminate].
        now rewrite (IHm _ _ E).
    + rewrite parse_elements_S in H. rewrite parse_elements_S.
      destruct (parse_value fuel s) as [[v r1]|] eqn:Hv; [|discriminate].
      rewrite (IHv _ _ Hv).
      destruct (expect 93 r1); [exact H|].
      destruct (expect 44 r1) as [r2|]; [|discriminate].
      destruct (parse_elements fuel r2) as [[l rest]|] eqn:E; [|discriminate].
      now rewrite (IHe _ _ E).
    + rewrite parse_members_S in H. rewrite parse_members_S.
      destruct (expect 34 s) as [r0|]; [|discriminate].
      destruct (parse_chars r0) as [[k r1]|]; [|discriminate].
      destruct (expect 58 r1) as [r2|]; [|discriminate].
      destruct (parse_value fuel r2) as [[v r3]|] eqn:Hv; [|discriminate].
      rewrite (IHv _ _ Hv).
      destruct (expect 125 r3); [exact H|].
      destruct (expect 44 r3) as [r4|]; [|discriminate].
      destruct (parse_members fuel r4) as [[l rest]|] eqn:E; [|discriminate].
      now rewrite (IHm _ _ E).
Qed.

Lemma parse_value_fuel_le fuel fuel' s r :
  (fuel <= fuel')%nat -> parse_value fuel s = Some r -> parse_value fuel' s = Some r.
Proof.
  induction 1 as [|m _ IH]; [trivial|]. intros H. now apply parse_fuel_S, IH.
Qed.

Lemma parse_elements_fuel_le fuel fuel' s r :
  (fuel <= fuel')%nat -> parse_elements fuel s = Some r -> parse_elements fuel' s = Some r.
Proof.
  induction 1 as [|m _ IH]; [trivial|]. intros H. now apply parse_fuel_S, IH.
Qed.

Lemma parse_members_fuel_le fuel fuel' s r :
  (fuel <= fuel')%nat -> parse_members fuel s = Some r -> parse_members fuel' s = Some r.
Proof.
  induction 1 as [|m _ IH]; [trivial|]. intros H. now apply parse_fuel_S, IH.
Qed.


Lemma skip_ws_length s : ((@List.length N) (skip_ws s) <= (@List.length N) s)%nat.
Proof.
  induction s as [|c s IH]; simpl; [lia|].
  destruct (is_json_whitespace c); simpl; lia.
Qed.

Lemma expect_length c s r : expect c s = Some r -> ((@List.length N) r < (@List.length N) s)%nat.
Proof.
  unfold expect. pose proof (skip_ws_length s) as H.
  destruct (skip_ws s) as [|c' r']; [discriminate|].
  destruct (c' =? c)%N; [|discriminate]. intros [= <-]. simpl in H; lia.
Qed.

Lemma classify_length s :
  match classify s with
  | StartNull r | StartTrue r | StartFalse r | StartString r
  | StartArray r | StartObject r => ((@List.length N) r < (@List.length N) s)%nat
  | StartNumber s' => ((@List.length N) s' <= (@List.length N) s)%nat
  end.
Proof.
  unfold classify. pose proof (skip_ws_length s) as H.
  destruct (skip_ws s) as [|c r]; [exact H|].
  repeat match goal with
  | |- context [match ?x with _ => _ end] =>
      is_var x; destruct x; simpl in H |- *; try lia
  end.
Qed.

Lemma parse_chars_length s t rest :
  parse_chars s = Some (t, rest) -> ((@List.length N) rest < (@List.length N) s)%nat.
Proof.
  remember ((@List.length N) s) as n eqn:Hn. revert s t rest Hn.
  induction n as [n IH] using lt_wf_ind. intros s t rest -> H.
  assert (IH' : forall r c t' rest',
             ((@List.length N) r < (@List.length N) s)%nat ->
             match parse_chars r with
             | Some (t, rest) => Some (c :: t, rest)
             | None => None
             end = Some (t', rest') -> ((@List.length N) rest' < (@List.length N) r)%nat).
  { intros r c t' rest' Hr H'.
    destruct (parse_chars r) as [[t0 rest0]|] eqn:E; [|discriminate].
    injection H' as _ <-. eapply IH; [exact Hr|reflexivity|exact E]. }
  destruct s as [|c r]; [discriminate|]. cbn [parse_chars] in H.
  destruct (c =? 34)%N; [injection H as _ <-; simpl; lia|].
  destruct (c =? 92)%N.
  - destruct r as [|e r']; [discriminate|].
    assert (He : forall c', match parse_chars r' with
                            | Some (t, rest) => Some (c' :: t, rest)
                            | None => None
                            end = Some (t, rest) -> ((@List.length N) rest < (@List.length N) (c :: e :: r'))%nat).
    { intros c' H'. apply IH' in H'; simpl in *; lia. }
    destruct (N.eq_dec e 117) as [->|Hu].
    + destruct r' as [|a [|b [|c0 [|d r'']]]]; try discriminate.
      destruct (hex4 a b c0 d); [|discriminate].
      apply IH' in H; simpl in *; lia.
    + repeat match type of H with
      | match ?x with _ => _ end = _ =>
          is_var x; destruct x; try discriminate; try congruence;
          try (apply He in H; exact H)
      end.
  - destruct (c <? 32)%N; [discriminate|].
    apply IH' in H; simpl in *; lia.
Qed.

Lemma take_digits_length s :
  ((@List.length N) (snd (take_digits s)) <= (@List.length N) s)%nat
  /\ (fst (take_digits s) <> Decimal.Nil -> ((@List.length N) (snd (take_digits s)) < (@List.length N) s)%nat).
Proof.
  induction s as [|c s [IH1 IH2]]; simpl; [split; [lia|congruence]|].
  destruct (digit_of_unit c); [|simpl; split; [lia|congruence]].
  destruct (take_digits s) as [d rest]; simpl in *. split; intros; lia.
Qed.

Lemma parse_sign_length s : ((@List.length N) (snd (parse_sign s)) <= (@List.length N) s)%nat.
Proof.
  destruct s as [|c r]; simpl; [lia|]. destruct (c =? 45)%N; simpl; lia.
Qed.

Lemma parse_int_length s :
  fst (parse_int s) <> Decimal.Nil -> ((@List.length N) (snd (parse_int s)) < (@List.length N) s)%nat.
Proof.
  destruct s as [|c r]; [simpl; congruence|]. unfold parse_int.
  destruct (c =? 48)%N; [simpl; lia|]. apply take_digits_length.
Qed.

Lemma parse_frac_length s fd rest :
  parse_frac s = Some (fd, rest) -> ((@List.length N) rest <= (@List.length N) s)%nat.
Proof.
  destruct s as [|c r]; simpl; [intros [= _ <-]; simpl; lia|].
  destruct (c =? 46)%N; [|intros [= _ <-]; simpl; lia].
  pose proof (take_digits_length r) as [Ht _].
  destruct (take_digits r) as [[] rest']; try discriminate;
    intros [= _ <-]; simpl in *; lia.
Qed.

Lemma parse_exp_length s e rest :
  parse_exp s = Some (e, rest) -> ((@List.length N) rest <= (@List.length N) s)%nat.
Proof.
  destruct s as [|c q]; simpl; [intros [= _ <-]; simpl; lia|].
  destruct ((c =? 101)%N || (c =? 69)%N); [|intros [= _ <-]; simpl; lia].
  assert (Ht : forall esign r0,
             ((@List.length N) r0 <= (@List.length N) q)%nat ->
             match take_digits r0 with
             | (Decimal.Nil, _) => None
             | (ed, rest) => Some (esign * uint_value ed, rest)
             end = Some (e, rest) -> ((@List.length N) rest <= S ((@List.length N) q))%nat).
  { intros esign r0 Hr0. pose proof (take_digits_length r0) as [Ht _].
    destruct (take_digits r0) as [[] rest']; try discriminate;
      intros [= _ <-]; simpl in *; lia. }
  destruct q as [|c' r']; [apply Ht; simpl; lia|].
  destruct (c' =? 45)%N; [apply Ht; simpl; lia|].
  destruct (c' =? 43)%N; apply Ht; simpl; lia.
Qed.

Lemma parse_number_length s n rest :
  parse_number s = Some (n, rest) -> ((@List.length N) rest < (@List.length N) s)%nat.
Proof.
  unfold parse_number. pose proof (parse_sign_length s) as H1.
  destruct (parse_sign s) as [negative s1]. simpl in H1.
  pose proof (parse_int_length s1) as H2.
  destruct (parse_int s1) as [ip s2]. simpl in H2.
  destruct ip; [discriminate|..].
  all: specialize (H2 ltac:(discriminate)).
  all: destruct (parse_frac s2) as [[fd s3]|] eqn:H3; [|discriminate];
    apply parse_frac_length in H3;
    destruct (parse_exp s3) as [[e s4]|] eqn:H4; [|discriminate];
    apply parse_exp_length in H4; intros [= _ <-]; lia.
Qed.

Lemma parse_enough fuel :
  (forall s v rest,
      parse_value fuel s = Some (v, rest) ->
      ((@List.length N) rest < (@List.length N) s)%nat
      /\ parse_value (2 * ((@List.length N) s - (@List.length N) rest) - 1) s = Some (v, rest))
  /\ (forall s l rest,
         parse_elements fuel s = Some (l, rest) ->
         ((@List.length N) rest < (@List.length N) s)%nat
         /\ parse_elements (2 * ((@List.length N) s - (@List.length N) rest) - 2) s = Some (l, rest))
  /\ (forall s l rest,
         parse_members fuel s = Some (l, rest) ->
         ((@List.length N) rest < (@List.length N) s)%nat
         /\ parse_members (2 * ((@List.length N) s - (@List.length N) rest) - 2) s = Some (l, rest)).
Proof.
  induction fuel as [|fuel (IHv & IHe & IHm)].
  - repeat split; intros; discriminate.
  - split; [|split]; intros s x rest H.
    + rewrite parse_value_S in H. pose proof (classify_length s) as Hc.
      assert (Hfuel : ((@List.length N) rest < (@List.length N) s)%nat ->
                      (2 * ((@List.length N) s - (@List.length N) rest) - 1 = S (2 * ((@List.length N) s - (@List.length N) rest) - 2))%nat)
        by lia.
      destruct (classify s) as [r|r|r|r|r|r|s'] eqn:Hs.
      * injection H as <- <-. split; [exact Hc|].
        rewrite (Hfuel Hc), parse_value_S, Hs. reflexivity.
      * injection H as <- <-. split; [exact Hc|].
        rewrite (Hfuel Hc), parse_value_S, Hs. reflexivity.
      * injection H as <- <-. split; [exact Hc|].
        rewrite (Hfuel Hc), parse_value_S, Hs. reflexivity.
      * destruct (parse_chars r) as [[t rest']|] eqn:Ht; [|discriminate].
        injection H as <- <-. apply parse_chars_length in Ht as Hlen.
        assert (Hlt : ((@List.length N) rest' < (@List.length N) s)%nat) by lia. split; [exact Hlt|].
        rewrite (Hfuel Hlt), parse_value_S, Hs, Ht. reflexivity.
      * destruct (expect 93 r) as [rest'|] eqn:He.
        -- injection H as <- <-. apply expect_length in He as Hlen.
           assert (Hlt : ((@List.length N) rest' < (@List.length N) s)%nat) by lia. split; [exact Hlt|].
           rewrite (Hfuel Hlt), parse_value_S, Hs, He. reflexivity.
        -- destruct (parse_elements fuel r) as [[l rest']|] eqn:Hl; [|discriminate].
           injection H as <- <-. destruct (IHe _ _ _ Hl) as [Hlen Hl'].
           assert (Hlt : ((@List.length N) rest' < (@List.length N) s)%nat) by lia. split; [exact Hlt|].
           rewrite (Hfuel Hlt), parse_value_S, Hs, He.
           apply (parse_elements_fuel_le _ (2 * ((@List.length N) s - (@List.length N) rest') - 2)) in Hl';
             [|lia].
           rewrite Hl'. reflexivity.
      * destruct (expect 125 r) as [rest'|] eqn:He.
        -- injection H as <- <-. apply expect_length in He as Hlen.
           assert (Hlt : ((@List.length N) rest' < (@List.length N) s)%nat) by lia. split; [exact Hlt|].
           rewrite (Hfuel Hlt), parse_value_S, Hs, He. reflexivity.
        -- destruct (parse_members fuel r) as [[l rest']|] eqn:Hl; [|discriminate].
           injection H as <- <-. destruct (IHm _ _ _ Hl) as [Hlen Hl'].
           assert (Hlt : ((@List.length N) rest' < (@List.length N) s)%nat) by lia. split; [exact Hlt|].
           rewrite (Hfuel Hlt), parse_value_S, Hs, He.
           apply (parse_members_fuel_le _ (2 * ((@List.length N) s - (@List.length N) rest') - 2)) in Hl';
             [|lia].
           rewrite Hl'. reflexivity.
      * apply parse_number_length in H as Hlen.
        assert (Hlt : ((@List.length N) rest < (@List.length N) s)%nat) by lia. split; [exact Hlt|].
        rewrite (Hfuel Hlt), parse_value_S, Hs. exact H.
    + rewrite parse_elements_S in H.
      destruct (parse_value fuel s) as [[v r1]|] eqn:Hv; [|discriminate].
      destruct (IHv _ _ _ Hv) as [Hlen1 Hv'].
      assert (Hfuel : ((@List.length N) rest + 2 <= (@List.length N) s)%nat ->
                      (2 * ((@List.length N) s - (@List.length N) rest) - 2 = S (2 * ((@List.length N) s - (@List.length N) rest) - 3))%nat)
        by lia.
      destruct (expect 93 r1) as [rest'|] eqn:He.
      * injection H as <- <-. apply expect_length in He as Hlen.
        split; [lia|]. rewrite Hfuel by lia. rewrite parse_elements_S.
        apply (parse_value_fuel_le _ (2 * ((@List.length N) s - (@List.length N) rest') - 3)) in Hv'; [|lia].
        rewrite Hv', He. reflexivity.
      * destruct (expect 44 r1) as [r2|] eqn:Hc; [|discriminate].
        destruct (parse_elements fuel r2) as [[l rest']|] eqn:Hl; [|discriminate].
        injection H as <- <-. apply expect_length in Hc as Hlen2.
        destruct (IHe _ _ _ Hl) as [Hlen3 Hl'].
        split; [lia|]. rewrite Hfuel by lia. rewrite parse_elements_S.
        apply (parse_value_fuel_le _ (2 * ((@List.length N) s - (@List.length N) rest') - 3)) in Hv'; [|lia].
        apply (parse_elements_fuel_le _ (2 * ((@List.length N) s - (@List.length N) rest') - 3)) in Hl'; [|lia].
        rewrite Hv', He, Hc, Hl'. reflexivity.
    + rewrite parse_members_S in H.
      destruct (expect 34 s) as [r0|] eqn:Hq; [|discriminate].
      destruct (parse_chars r0) as [[k r1]|] eqn:Hk; [|discriminate].
      destruct (expect 58 r1) as [r2|] eqn:Hcolon; [|discriminate].
      destruct (parse_value fuel r2) as [[v r3]|] eqn:Hv; [|discriminate].
      apply expect_length in Hq as Hlen0. apply parse_chars_length in Hk as Hlen1.
      apply expect_length in Hcolon as Hlen2.
      destruct (IHv _ _ _ Hv) as [Hlen3 Hv'].
      assert (Hfuel : ((@List.length N) rest + 2 <= (@List.length N) s)%nat ->
                      (2 * ((@List.length N) s - (@List.length N) rest) - 2 = S (2 * ((@List.length N) s - (@List.length N) rest) - 3))%nat)
        by lia.
      destruct (expect 125 r3) as [rest'|] eqn:He.
      * injection H as <- <-. apply expect_length in He as Hlen.
        split; [lia|]. rewrite Hfuel by lia. rewrite parse_members_S, Hq, Hk, Hcolon.
        apply (parse_value_fuel_le _ (2 * ((@List.length N) s - (@List.length N) rest') - 3)) in Hv'; [|lia].
        rewrite Hv', He. reflexivity.
      * destruct (expect 44 r3) as [r4|] eqn:Hc; [|discriminate].
        destruct (parse_members fuel r4) as [[l rest']|] eqn:Hl; [|discriminate].
        injection H as <- <-. apply expect_length in Hc as Hlen4.
        destruct (IHm _ _ _ Hl) as [Hlen5 Hl'].
        split; [lia|]. rewrite Hfuel by lia. rewrite parse_members_S, Hq, Hk, Hcolon.
        apply (parse_value_fuel_le _ (2 * ((@List.length N) s - (@List.length N) rest') - 3)) in Hv'; [|lia].
        apply (parse_members_fuel_le _ (2 * ((@List.length N) s - (@List.length N) rest') - 3)) in Hl'; [|lia].
        rewrite Hv', He, Hc, Hl'. reflexivity.
Qed.

(** The fuel of [parse_text] is enough for every text: a parse that succeeds
    with some fuel succeeds with the fuel [parse_text] gives. *)
Lemma parse_text_fuel fuel s v rest :
  parse_value fuel s = Some (v, rest) ->
  parse_value (2 * (@List.length N) s + 2) s = Some (v, rest).
Proof.
  intros H. destruct (proj1 (parse_enough fuel) _ _ _ H) as [_ H'].
  eapply parse_value_fuel_le; [|exact H']. lia.
Qed.

(** ** Reading back *)

Lemma jsval_nested_ind (P : jsval -> Prop) :
  P VUndef -> P VNull -> (forall b, P (VBool b)) -> (forall n, P (VNum n)) ->
  (forall s, P (VStr s)) ->
  (forall l, Forall P l -> P (VArr l)) ->
  (forall o, Forall (fun m => P (snd m)) o -> P (VObj o)) ->
  (forall negative m e, P (VDecimal negative m e)) ->
  forall v, P v.
Proof.
  intros HU HN HB Hnum HS HA HO HD.
  refine (fix IH (v : jsval) : P v :=
            match v with
            | VUndef => HU
            | VNull => HN
            | VBool b => HB b
            | VNum n => Hnum n
            | VStr s => HS s
            | VArr l =>
                HA l ((fix elems (l : list jsval) : Forall P l :=
                         match l with
                         | [] => Forall_nil P
                         | e :: r => Forall_cons e (IH e) (elems r)
                         end) l)
            | VObj o =>
                HO o ((fix members (o : list (jsstring * jsval))
                        : Forall (fun m => P (snd m)) o :=
                         match o with
                         | [] => Forall_nil _
                         | m :: r => Forall_cons m (IH (snd m)) (members r)
                         end) o)
            | VDecimal negative m e => HD negative m e
            end).
Qed.

Lemma JSON_stringify_VArr l :
  JSON_stringify (VArr l)
  = match stringify_elements l with
    | Some ts => Text (91%N :: join ts ++ [93%N])
    | None => Beyond
    end.
Proof.
  simpl.
  match goal with
  | |- match ?f l with _ => _ end = _ =>
      assert (H : forall l', f l' = stringify_elements l')
  end.
  { induction l' as [|e l' IH]; simpl; [reflexivity|]. now rewrite IH. }
  now rewrite H.
Qed.

Lemma reloaded_VObj o : reloaded (VObj o) = VObj (build_object (reloaded_members o)).
Proof.
  simpl. do 2 f_equal.
  all: induction o as [|[k x] o IH]; simpl; [reflexivity|]; rewrite IH; reflexivity.
Qed.

Lemma integer_text_starts z : starts_value (integer_text z) = true.
Proof.
  unfold integer_text. destruct (z <? 0); [reflexivity|].
  pose proof (to_uint_nonnil (Z.to_N (Z.abs z))) as H.
  destruct (N.to_uint (Z.to_N (Z.abs z))); [congruence|..]; reflexivity.
Qed.

Lemma starts_value_text v t : element_text v = Some t -> starts_value t = true.
Proof.
  unfold element_text. destruct v as [| |[]|[|z|b]|s|l|o|negative m e].
  all: try (simpl; intros [= <-]; reflexivity).
  - simpl. destruct (exact z); [|discriminate].
    intros [= <-]. apply integer_text_starts.
  - rewrite JSON_stringify_VArr. destruct (stringify_elements l);
      [intros [= <-]; reflexivity|discriminate].
  - rewrite JSON_stringify_VObj. destruct (stringify_members o);
      [intros [= <-]; reflexivity|discriminate].
Qed.

Lemma starts_value_cases t :
  starts_value t = true ->
  exists c t', t = c :: t'
    /\ In c [110; 116; 102; 34; 91; 123; 45; 48; 49; 50; 51; 52; 53; 54; 55; 56; 57]%N.
Proof.
  destruct t as [|c t']; [discriminate|]. intros H. exists c, t'. split; [reflexivity|].
  unfold starts_value in H. apply existsb_exists in H as (x & Hin & Hx).
  apply N.eqb_eq in Hx. now subst.
Qed.

Lemma expect_close_starts_value c t rest :
  c = 93%N \/ c = 125%N ->
  starts_value t = true -> expect c (t ++ rest) = None.
Proof.
  intros Hc Ht. apply starts_value_cases in Ht as (x & t' & -> & Hin).
  simpl in Hin.
  repeat (destruct Hin as [<-|Hin]; [destruct Hc as [->| ->]; reflexivity|]).
  destruct Hin.
Qed.

Lemma classify_integer_text z rest :
  classify (integer_text z ++ rest) = StartNumber (integer_text z ++ rest).
Proof.
  unfold integer_text. destruct (z <? 0); [reflexivity|].
  pose proof (to_uint_nonnil (Z.to_N (Z.abs z))) as H.
  destruct (N.to_uint (Z.to_N (Z.abs z))); [congruence|..]; reflexivity.
Qed.

Lemma join_cons t t' ts : join (t :: t' :: ts) = t ++ 44%N :: join (t' :: ts).
Proof. reflexivity. Qed.

Lemma stringify_elements_cons e r :
  stringify_elements (e :: r)
  = match element_text e, stringify_elements r with
    | Some t, Some ts => Some (t :: ts)
    | _, _ => None
    end.
Proof.
  unfold element_text. simpl.
  destruct (JSON_stringify e), (stringify_elements r); reflexivity.
Qed.

Lemma JSON_stringify_Undefined v : JSON_stringify v = Undefined -> v = VUndef.
Proof.
  destruct v as [| |[]|[|z|b]|s|l|o|negative m e];
    try discriminate; try reflexivity.
  - simpl. destruct (exact z); discriminate.
  - rewrite JSON_stringify_VArr. destruct (stringify_elements l); discriminate.
  - rewrite JSON_stringify_VObj. destruct (stringify_members o); discriminate.
Qed.

Lemma reloaded_members_cons k x r :
  x <> VUndef ->
  reloaded_members ((k, x) :: r) = (k, reloaded x) :: reloaded_members r.
Proof. destruct x; try reflexivity. congruence. Qed.

Lemma reloaded_members_no_text o :
  stringify_members o = Some [] -> reloaded_members o = [].
Proof.
  induction o as [|[k x] o IH]; [reflexivity|]. simpl.
  destruct (JSON_stringify x) eqn:Hx; destruct (stringify_members o) as [ts|];
    try discriminate.
  intros H. apply JSON_stringify_Undefined in Hx as ->. now apply IH.
Qed.

Lemma parse_elements_texts l :
  Forall reads_back l ->
  forallb tracked l = true ->
  forall ts, stringify_elements l = Some ts ->
  l <> [] ->
  exists n, forall rest,
    parse_elements n (join ts ++ 93%N :: rest) = Some (map reloaded l, rest).
Proof.
  induction 1 as [|e r He Hr IH]; [congruence|].
  intros Htr ts Hts _. simpl in Htr. apply andb_prop in Htr as [Htr_e Htr_r].
  rewrite stringify_elements_cons in Hts.
  destruct (element_text e) as [t|] eqn:Ht; [|discriminate].
  destruct (stringify_elements r) as [ts'|] eqn:Hts'; [|discriminate].
  injection Hts as <-.
  destruct (He Htr_e t Ht) as [n Hn].
  destruct r as [|e' r'].
  - injection Hts' as <-. exists (S n). intros rest.
    rewrite parse_elements_S. simpl join.
    rewrite (Hn (93%N :: rest) eq_refl). reflexivity.
  - destruct (IH Htr_r ts' eq_refl ltac:(discriminate)) as [m Hm].
    assert (Hne : exists t' ts'', ts' = t' :: ts'').
    { rewrite stringify_elements_cons in Hts'.
      destruct (element_text e'), (stringify_elements r'); try discriminate.
      injection Hts' as <-. eauto. }
    destruct Hne as (t' & ts'' & ->).
    exists (S (Nat.max n m)). intros rest.
    rewrite parse_elements_S, join_cons, <- app_assoc.
    change ((44%N :: join (t' :: ts'')) ++ 93%N :: rest)
      with (44%N :: (join (t' :: ts'') ++ 93%N :: rest)).
    rewrite (parse_value_fuel_le n _ _ _ (Nat.le_max_l n m)
               (Hn (44%N :: _) eq_refl)).
    change (expect 93 (44%N :: join (t' :: ts'') ++ 93%N :: rest)) with (@None jsstring).
    change (expect 44 (44%N :: join (t' :: ts'') ++ 93%N :: rest))
      with (Some (join (t' :: ts'') ++ 93%N :: rest)).
    cbv iota.
    rewrite (parse_elements_fuel_le m _ _ _ (Nat.le_max_r n m) (Hm rest)).
    reflexivity.
Qed.

Lemma parse_member_text k t rest :
  expect 34 ((quote k ++ 58%N :: t) ++ rest) = Some (quote_units k ++ 34%N :: 58%N :: t ++ rest)
  /\ parse_chars (quote_units k ++ 34%N :: 58%N :: t ++ rest) = Some (k, 58%N :: t ++ rest)
  /\ expect 58 (58%N :: t ++ rest) = Some (t ++ rest).
Proof.
  split; [|split].
  - unfold quote. simpl. unfold expect. simpl. rewrite <- !app_assoc. reflexivity.
  - apply parse_chars_quote_units.
  - reflexivity.
Qed.

Lemma stringify_members_cons k x r :
  stringify_members ((k, x) :: r)
  = match JSON_stringify x, stringify_members r with
    | Text t, Some ts => Some ((quote k ++ 58%N :: t) :: ts)
    | Undefined, Some ts => Some ts
    | _, _ => None
    end.
Proof. reflexivity. Qed.

Opaque quote.

Lemma parse_members_texts o :
  Forall (fun m => reads_back (snd m)) o ->
  forallb (fun m => tracked (snd m)) o = true ->
  forall ts, stringify_members o = Some ts ->
  ts <> [] ->
  exists n, forall rest,
    parse_members n (join ts ++ 125%N :: rest) = Some (reloaded_members o, rest).
Proof.
  induction 1 as [|[k x] r Hx Hr IH]; [simpl; congruence|].
  intros Htr ts Hts Hne. simpl in Htr, Hx.
  apply andb_prop in Htr as [Htr_x Htr_r]. rewrite stringify_members_cons in Hts.
  destruct (JSON_stringify x) as [t| |] eqn:Ht; [| |discriminate].
  - destruct (stringify_members r) as [ts'|] eqn:Hts'; [|discriminate].
    injection Hts as <-.
    assert (Hxu : x <> VUndef) by (intros ->; discriminate).
    assert (Het : element_text x = Some t) by (unfold element_text; now rewrite Ht).
    destruct (Hx Htr_x t Het) as [n Hn].
    rewrite (reloaded_members_cons k x r Hxu).
    destruct ts' as [|t' ts''].
    + rewrite (reloaded_members_no_text r Hts'). exists (S n). intros rest.
      rewrite parse_members_S.
      change (join [quote k ++ 58%N :: t]) with (quote k ++ 58%N :: t).
      destruct (parse_member_text k t (125%N :: rest)) as (-> & -> & ->).
      rewrite (Hn (125%N :: rest) eq_refl). reflexivity.
    + destruct (IH Htr_r (t' :: ts'') eq_refl ltac:(discriminate)) as [m Hm].
      exists (S (Nat.max n m)). intros rest.
      rewrite parse_members_S, join_cons.
      replace (((quote k ++ 58%N :: t) ++ 44%N :: join (t' :: ts'')) ++ 125%N :: rest)
        with ((quote k ++ 58%N :: t) ++ 44%N :: join (t' :: ts'') ++ 125%N :: rest)
        by (now rewrite <- !app_assoc).
      destruct (parse_member_text k t (44%N :: join (t' :: ts'') ++ 125%N :: rest))
        as (-> & -> & ->).
      rewrite (parse_value_fuel_le n _ _ _ (Nat.le_max_l n m)
                 (Hn (44%N :: _) eq_refl)).
      change (expect 125 (44%N :: join (t' :: ts'') ++ 125%N :: rest))
        with (@None jsstring).
      change (expect 44 (44%N :: join (t' :: ts'') ++ 125%N :: rest))
        with (Some (join (t' :: ts'') ++ 125%N :: rest)).
      cbv iota.
      rewrite (parse_members_fuel_le m _ _ _ (Nat.le_max_r n m) (Hm rest)).
      reflexivity.
  - destruct (stringify_members r) as [ts'|] eqn:Hts'; [|discriminate].
    injection Hts as <-. apply JSON_stringify_Undefined in Ht as ->. simpl.
    now apply IH.
Qed.

Transparent quote.

Lemma join_head t ts :
  join (t :: ts) = t ++ match ts with [] => [] | _ => 44%N :: join ts end.
Proof. destruct ts; simpl; [now rewrite app_nil_r|reflexivity]. Qed.

Lemma stringify_elements_starts e l t ts :
  stringify_elements (e :: l) = Some (t :: ts) -> starts_value t = true.
Proof.
  rewrite stringify_elements_cons.
  destruct (element_text e) as [t0|] eqn:He; [|discriminate].
  destruct (stringify_elements l); [|discriminate].
  intros [= <- _]. eapply starts_value_text; eauto.
Qed.

Lemma stringify_members_starts o t ts :
  stringify_members o = Some (t :: ts) -> starts_value t = true.
Proof.
  revert t ts. induction o as [|[k x] o IH]; [discriminate|]. intros t ts.
  rewrite stringify_members_cons.
  destruct (JSON_stringify x), (stringify_members o) as [ts'|]; try discriminate.
  - intros [= <- _]. reflexivity.
  - intros [= ->]. eapply IH; reflexivity.
Qed.

Lemma stringify_elements_nil l : stringify_elements l = Some [] -> l = [].
Proof.
  destruct l as [|e l]; [reflexivity|]. rewrite stringify_elements_cons.
  destruct (element_text e), (stringify_elements l); discriminate.
Qed.

Theorem reads_back_all v : reads_back v.
Proof.
  induction v as [| |b|n|s|l IH|o IH|negative m e] using jsval_nested_ind;
    intros Htr t Ht; [| | | | | | |discriminate].
  - injection Ht as <-. exists 1%nat. reflexivity.
  - injection Ht as <-. exists 1%nat. reflexivity.
  - destruct b; injection Ht as <-; exists 1%nat; reflexivity.
  - destruct n as [|z|b];
      [injection Ht as <-; exists 1%nat; reflexivity|
      |injection Ht as <-; exists 1%nat; reflexivity].
    simpl in Htr. unfold element_text in Ht. simpl in Ht. rewrite Htr in Ht.
    injection Ht as <-. exists 1%nat. intros rest Hrest.
    rewrite parse_value_S, classify_integer_text.
    now rewrite (parse_number_integer_text z rest Hrest Htr).
  - injection Ht as <-. exists 1%nat. intros rest _.
    rewrite parse_value_S. unfold quote.
    change (classify ((34%N :: quote_units s ++ [34%N]) ++ rest))
      with (StartString ((quote_units s ++ [34%N]) ++ rest)).
    rewrite <- app_assoc. simpl app.
    now rewrite parse_chars_quote_units.
  - unfold element_text in Ht. rewrite JSON_stringify_VArr in Ht.
    destruct (stringify_elements l) as [ts|] eqn:Hts; [|discriminate].
    injection Ht as <-. simpl in Htr.
    destruct ts as [|t1 ts].
    + apply stringify_elements_nil in Hts as ->. exists 1%nat. reflexivity.
    + assert (Hl : l <> []) by (intros ->; discriminate).
      destruct (parse_elements_texts l IH Htr _ Hts Hl) as [n Hn].
      exists (S n). intros rest _. rewrite parse_value_S.
      change (classify ((91%N :: join (t1 :: ts) ++ [93%N]) ++ rest))
        with (StartArray ((join (t1 :: ts) ++ [93%N]) ++ rest)).
      rewrite <- app_assoc. simpl ([93%N] ++ rest).
      assert (He : expect 93 (join (t1 :: ts) ++ 93%N :: rest) = None).
      { rewrite join_head, <- app_assoc.
        apply expect_close_starts_value; [now left|].
        destruct l as [|e l']; [congruence|].
        eapply stringify_elements_starts; eauto. }
      rewrite He, Hn. reflexivity.
  - unfold element_text in Ht. rewrite JSON_stringify_VObj in Ht.
    destruct (stringify_members o) as [ts|] eqn:Hts; [|discriminate].
    injection Ht as <-. simpl in Htr. rewrite reloaded_VObj.
    destruct ts as [|t1 ts].
    + rewrite (reloaded_members_no_text o Hts). exists 1%nat. reflexivity.
    + destruct (parse_members_texts o IH Htr _ Hts ltac:(discriminate)) as [n Hn].
      exists (S n). intros rest _. rewrite parse_value_S.
      change (classify ((123%N :: join (t1 :: ts) ++ [125%N]) ++ rest))
        with (StartObject ((join (t1 :: ts) ++ [125%N]) ++ rest)).
      rewrite <- app_assoc. simpl ([125%N] ++ rest).
      assert (He : expect 125 (join (t1 :: ts) ++ 125%N :: rest) = None).
      { rewrite join_head, <- app_assoc.
        apply expect_close_starts_value; [now right|].
        eapply stringify_members_starts; eauto. }
      rewrite He, Hn. reflexivity.
Qed.

(** What [JSON.parse] reads from the text [JSON.stringify] wrote. *)
Theorem parse_text_JSON_stringify v t :
  tracked v = true ->
  JSON_stringify v = Text t ->
  parse_text t = Some (reloaded v).
Proof.
  intros Htr Ht.
  assert (Het : element_text v = Some t) by (unfold element_text; now rewrite Ht).
  destruct (reads_back_all v Htr t Het) as [n Hn].
  specialize (Hn [] eq_refl). rewrite app_nil_r in Hn.
  unfold parse_text. now rewrite (parse_text_fuel _ _ _ _ Hn).
Qed.

(** ** What the next session loads *)

Lemma favorite_of_named card :
  named_with_points card = true ->
  tracked (favorite_of card) = true
  /\ reloaded (favorite_of card) = favorite_of card
  /\ followed (favorite_of card)
  /\ favorite_of card <> VUndef.
Proof.
  unfold named_with_points, favorite_of.
  destruct (unitName card) as [n|]; [|discriminate].
  destruct (parseInt (to_string (unitPoints card))) as [|z|b] eqn:Hp;
    try discriminate.
  intros Hz. repeat split.
  - simpl. now rewrite Hz.
  - unfold followed. rewrite JSON_stringify_VObj. simpl. now rewrite Hz.
  - discriminate.
Qed.

Lemma Forall_delete_own (P : jsstring * jsval -> Prop) k o :
  Forall P o -> Forall P (delete_own k o).
Proof.
  induction 1 as [|[k0 v0] o Hm Ho IH]; simpl; [constructor|].
  destruct (str_eqb k0 k); [exact Ho|now constructor].
Qed.

Lemma Forall_set_own (P : jsval -> Prop) k v o :
  P v -> Forall (fun m => P (snd m)) o -> Forall (fun m => P (snd m)) (set_own k v o).
Proof.
  intros Hv Ho. unfold set_own. destruct (get_own k o).
  - induction Ho as [|[k0 v0] o Hm Ho IH]; simpl; [constructor|].
    destruct (str_eqb k0 k); constructor; auto.
  - destruct (array_index k) as [i|].
    + induction Ho as [|[k0 v0] o Hm Ho IH]; simpl; [repeat constructor; exact Hv|].
      destruct (array_index k0) as [j|]; [destruct (j <? i)|];
        repeat constructor; auto.
    + apply Forall_app; split; [exact Ho|]. repeat constructor. exact Hv.
Qed.

Lemma made_from_cards_toggled card o :
  named_with_points card = true ->
  made_from_cards o -> made_from_cards (toggled card o).
Proof.
  intros Hc [Hu Ho]. unfold toggled.
  destruct (property_truthy (get (unitId card) o)); split.
  - now apply unique_keys_delete_own.
  - now apply Forall_delete_own.
  - now apply unique_keys_set_own.
  - apply (Forall_set_own (fun v => exists card, named_with_points card = true
                                                 /\ v = favorite_of card));
      [eauto|exact Ho].
Qed.

Lemma made_from_cards_members o :
  made_from_cards o ->
  forallb (fun m => tracked (snd m)) o = true
  /\ followed (VObj o)
  /\ reloaded_members o = o.
Proof.
  intros [_ Ho]. rewrite followed_VObj.
  induction Ho as [|[k v] o (card & Hc & Hv) Ho (IH1 & IH2 & IH3)];
    [repeat split; discriminate|].
  simpl in Hv. subst v.
  destruct (favorite_of_named card Hc) as (Ht & Hr & Hf & Hu).
  split; [|split].
  - cbn [forallb snd]. now rewrite Ht, IH1.
  - apply members_cons. auto.
  - rewrite (reloaded_members_cons _ _ _ Hu), Hr, IH3. reflexivity.
Qed.

Lemma get_own_fold_set_own k m acc :
  unique_keys m ->
  get_own k (fold_left (fun o x => set_own (fst x) (snd x) o) m acc)
  = match get_own k m with
    | Some v => Some v
    | None => get_own k acc
    end.
Proof.
  unfold unique_keys. revert acc.
  induction m as [|[k0 v0] m IH]; intros acc Hu; simpl; [reflexivity|].
  inversion Hu as [|? ? Hk0 Hu']; subst.
  rewrite (IH _ Hu'), get_own_set_own.
  destruct (str_eqb_spec k0 k) as [->|Hne]; [|reflexivity].
  apply get_own_None in Hk0. now rewrite Hk0.
Qed.

Lemma same_entries_build_object o :
  unique_keys o -> same_entries o (build_object o).
Proof.
  intros Hu k. unfold build_object. rewrite (get_own_fold_set_own k o [] Hu).
  now destruct (get_own k o).
Qed.

Lemma keys_build_object_unique m : unique_keys (build_object m).
Proof.
  unfold build_object.
  assert (H : forall acc, unique_keys acc ->
                          unique_keys (fold_left (fun o x => set_own (fst x) (snd x) o) m acc)).
  { induction m as [|[k v] m IH]; intros acc Hacc; simpl; [exact Hacc|].
    apply IH. now apply unique_keys_set_own. }
  apply H. constructor.
Qed.

Lemma named_with_points_tracked card :
  named_with_points card = true ->
  points_followed card = true.
Proof.
  unfold named_with_points, points_followed.
  destruct (unitName card); [|discriminate].
  now destruct (parseInt (to_string (unitPoints card))).
Qed.

(** The state a click leaves, whether the write that ends it was accepted
    or refused. *)
Lemma favoriteBtn_click_ends card s o :
  favorites s = VObj o ->
  followed (VObj o) ->
  points_followed card = true ->
  exists s',
    match favoriteBtn_click card s with
    | Done _ s1 | Raised _ s1 => s1 = s'
    | Unfollowed => False
    end
    /\ favorites s' = VObj (toggled card o).
Proof.
  intros Hs Ho Hp.
  destruct (favoriteBtn_click_returns card s o Hs Ho Hp) as (t & Ht & Hclick).
  rewrite Hclick.
  destruct (accepts (host s) (localStorage s) (str "favorites") t);
    eexists; split; reflexivity.
Qed.

Lemma run_favorite_clicks cards :
  Forall (fun card => named_with_points card = true) cards ->
  forall s o,
    favorites s = VObj o ->
    made_from_cards o ->
    exists s' o',
      run (map ClickFavorite cards) s = Some s'
      /\ favorites s' = VObj o'
      /\ made_from_cards o'.
Proof.
  induction 1 as [|card cards Hc Hcs IH]; intros s o Hs Ho.
  - exists s, o. split; [reflexivity|]. split; [exact Hs|exact Ho].
  - destruct (made_from_cards_members o Ho) as (_ & Hf & _).
    destruct (favoriteBtn_click_ends card s o Hs Hf
                (named_with_points_tracked card Hc)) as (s1 & Hclick & Hs1).
    destruct (IH s1 (toggled card o) Hs1 (made_from_cards_toggled card o Hc Ho))
      as (s' & o' & Hrun & Hs' & Ho').
    exists s', o'. split; [|split; [exact Hs'|exact Ho']].
    cbn [map run dispatch]. unfold bind at 1.
    destruct (favoriteBtn_click card s) as [b s0|e s0|];
      [subst s0; exact Hrun|subst s0; exact Hrun|destruct Hclick].
Qed.

(** Favorites made from cards with names and integer points are read
    back: when a click has returned, the next session, on whatever host,
    loads an object with the same entries. *)
Lemma favorites_round_trip card s o b s' h' :
  favorites s = VObj o ->
  made_from_cards o ->
  named_with_points card = true ->
  favoriteBtn_click card s = Done b s' ->
  exists s2 o2,
    loadFavorites (initial h' (localStorage s')) = Done tt s2
    /\ favorites s2 = VObj o2
    /\ same_entries (toggled card o) o2.
Proof.
  intros Hs Ho Hcard Hclick.
  destruct (made_from_cards_members o Ho) as (_ & Hf & _).
  destruct (favoriteBtn_click_returns card s o Hs Hf
              (named_with_points_tracked card Hcard)) as (t & Ht & Hc).
  rewrite Hc in Hclick.
  destruct (accepts (host s) (localStorage s) (str "favorites") t);
    [|discriminate].
  injection Hclick as _ <-.
  pose proof (made_from_cards_toggled card o Hcard Ho) as Ho2.
  destruct (made_from_cards_members _ Ho2) as (Htr & _ & Hre).
  assert (Hparse : parse_text t
                   = Some (VObj (build_object (toggled card o)))).
  { rewrite (parse_text_JSON_stringify (VObj (toggled card o)) t Htr Ht),
      reloaded_VObj, Hre. reflexivity. }
  assert (Ht' : exists c t', t = c :: t').
  { rewrite JSON_stringify_VObj in Ht.
    destruct (stringify_members (toggled card o));
      [injection Ht as <-; eauto|discriminate]. }
  destruct Ht' as (c & t' & ->).
  do 2 eexists. split; [apply loadFavorites_returns|].
  cbn [localStorage initial with_localStorage favorites with_favorites].
  rewrite getItem_stored, str_eqb_refl, Hparse. split; [reflexivity|].
  apply same_entries_build_object. apply Ho2.
Qed.

Lemma get_own_In k v o : get_own k o = Some v -> In (k, v) o.
Proof.
  induction o as [|[k0 v0] o IH]; simpl; [discriminate|].
  destruct (str_eqb_spec k0 k) as [->|_]; [intros [= ->]; now left|].
  intros H. right. now apply IH.
Qed.

(** X4. On favorites the handler made, and for an id that is no inherited
    name, a click deletes the entry of a unit that has one and creates the
    entry of a unit that has none; the other entries stay. The click then
    writes the text of the favorites: it returns, with the button favorited
    or not as the unit now is, when the store accepts the write, and throws
    the error of the store when it refuses, the favorites variable changed
    in either case. *)
Lemma favoriteBtn_click_toggles card s o :
  favorites s = VObj o ->
  made_from_cards o ->
  named_with_points card = true ->
  inherited (unitId card) = false ->
  exists b o' t,
    JSON_stringify (VObj o') = Text t
    /\ favoriteBtn_click card s
       = (if accepts (host s) (localStorage s) (str "favorites") t
          then Done b (with_localStorage
                         (stored (str "favorites") t (localStorage s))
                         (with_favorites (VObj o') s))
          else Raised QuotaExceededError (with_favorites (VObj o') s))
    /\ match get_own (unitId card) o with
       | Some _ => b = false /\ get_own (unitId card) o' = None
       | None => b = true /\ get_own (unitId card) o' = Some (favorite_of card)
       end
    /\ forall k, k <> unitId card -> get_own k o' = get_own k o.
Proof.
  intros Hs Ho Hc Hin.
  destruct (made_from_cards_members o Ho) as (_ & Hf & _).
  destruct (favoriteBtn_click_returns card s o Hs Hf
              (named_with_points_tracked card Hc)) as (t & Ht & Hclick).
  do 3 eexists. split; [exact Ht|]. split; [exact Hclick|].
  destruct Ho as [Hu Hvals]. unfold toggled, get.
  destruct (get_own (unitId card) o) as [v|] eqn:Hk.
  - assert (Hv : truthy v = true).
    { apply get_own_In in Hk. rewrite Forall_forall in Hvals.
      destruct (Hvals _ Hk) as (c & _ & Hv). simpl in Hv. now subst v. }
    simpl. rewrite Hv. split; [split; [reflexivity|]|].
    + now rewrite (get_own_delete_own _ _ _ Hu), str_eqb_refl.
    + intros k Hne. rewrite (get_own_delete_own _ _ _ Hu).
      apply not_eq_sym, str_eqb_neq in Hne. now rewrite Hne.
  - rewrite Hin. simpl. split; [split; [reflexivity|]|].
    + now rewrite get_own_set_own, str_eqb_refl.
    + intros k Hne. rewrite get_own_set_own.
      apply not_eq_sym, str_eqb_neq in Hne. now rewrite Hne.
Qed.

(** The scenario of the specification: on the empty mapping a click on u1
    makes it the one favorite, and a second click leaves none. *)
Lemma favoriteBtn_click_scenario :
  let card := mkDataset (str "u1") (Some (str "Intercessor Squad"))
                (Some (str "100")) in
  exists s1 s2,
    favoriteBtn_click card (initial (accepting []) []) = Done true s1
    /\ listFavorites s1 = Done [favorite_of card] s1
    /\ favoriteBtn_click card s1 = Done false s2
    /\ listFavorites s2 = Done [] s2.
Proof.
  do 2 eexists. split; [vm_compute; reflexivity|].
  split; [reflexivity|]. split; [vm_compute; reflexivity|]. reflexivity.
Qed.

(** * The claims of the specification *)

(** C1 as stated fails. The points texts [9007199254740992] (2^53) and [1]
    are read as these integers, and the total of the two units is 2^53: the
    sum 2^53 + 1 is no double, and the addition of [updatePointsTotal]
    rounds it. *)
Lemma totalPoints_rounds_the_sum :
  let cards := [(str "u1", str "Intercessor Squad", str "9007199254740992");
                (str "u2", str "Redemptor Dreadnought", str "1")] in
  let s := add_all cards (initial (accepting []) []) in
  map (fun c => parseInt (snd c)) cards = map Int [9007199254740992; 1]
  /\ sum [9007199254740992; 1] = 9007199254740993
  /\ totalPoints (armyList s) = Int 9007199254740992
  /\ pointsTotalElement s = Some (Int 9007199254740992).
Proof. vm_compute. repeat split. Qed.

(** C1, amended. After a sequence of [addUnitToArmy] calls on the empty
    roster, with cards whose points texts [parseInt] reads as the integers
    [zs], every running total being of magnitude at most 2^53, the reduce of
    [updatePointsTotal] gives the sum of [zs], and that is the number written
    to the points total; on the empty roster it gives 0. Adding u1 with 100
    points and u2 with 180 gives 280, and removing u1 then gives 180 with a
    roster of length 1. *)
Theorem totalPoints_is_sum (h : Host) (st : storage)
    (cards : list (jsstring * jsstring * jsstring)) (zs : list Z) :
  map (fun c => parseInt (snd c)) cards = map Int zs ->
  totals_exact 0 zs = true ->
  totalPoints (armyList (add_all cards (initial h st))) = Int (sum zs)
  /\ (cards <> [] ->
      pointsTotalElement (add_all cards (initial h st)) = Some (Int (sum zs)))
  /\ totalPoints (armyList (initial h st)) = Int 0
  /\ (let s2 :=
        add_all [(str "u1", str "Intercessor Squad", str "100");
                 (str "u2", str "Redemptor Dreadnought", str "180")]
          (initial h st) in
      totalPoints (armyList s2) = Int 280
      /\ totalPoints (armyList (removeUnitFromArmy (str "u1") s2)) = Int 180
      /\ List.length (armyList (removeUnitFromArmy (str "u1") s2)) = 1%nat).
Proof.
  intros Hmap Hex.
  assert (Htot : totalPoints (armyList (add_all cards (initial h st)))
                 = Int (sum zs)).
  { rewrite armyList_add_all; simpl. unfold totalPoints.
    rewrite (fold_points_exact _ zs 0); [reflexivity| |exact Hex].
    rewrite map_map; exact Hmap. }
  split; [exact Htot|]. split.
  - intros Hne. now rewrite pointsTotalElement_add_all, Htot.
  - split; [reflexivity|]. cbv zeta. repeat split; vm_compute; reflexivity.
Qed.

Lemma totalPoints_is_sum_witness :
  totalPoints
    (armyList (add_all [(str "a", str "A", str "100"); (str "b", str "B", str "-30");
                        (str "a", str "A", str " 7 models")]
                 (initial (accepting []) [])))
  = Int 77.
Proof.
  apply (proj1 (totalPoints_is_sum (accepting []) []
                  [(str "a", str "A", str "100"); (str "b", str "B", str "-30");
                   (str "a", str "A", str " 7 models")]
                  [100; -30; 7] eq_refl eq_refl)).
Defined.

(** C2 as stated fails. The call removes the unit u1 and its value is
    [undefined], not [true]; on an id no unit has its value is [undefined]
    as well, not [false]. *)
Lemma removeUnitFromArmy_call_undefined :
  let a := mkUnit (str "u1") (str "Intercessor Squad") (Int 100) in
  let s := with_armyList [a] (initial (accepting []) []) in
  (exists s',
      removeUnitFromArmy_call (str "u1") s = Done VUndef s'
      /\ armyList s' = [])
  /\ removeUnitFromArmy_call (str "u9") s = Done VUndef s
  /\ VUndef <> VBool true
  /\ VUndef <> VBool false.
Proof.
  intros a s. split; [eexists; split; reflexivity|].
  split; [reflexivity|]. split; discriminate.
Qed.

(** C2, amended. [removeUnitFromArmy] takes out the first entry of the
    roster whose id is the argument and keeps the others in order; when no
    entry has the id nothing changes, so a second removal right after the
    first changes nothing when no other entry had the id. The call gives
    [undefined], whether or not an entry was removed. *)
Theorem removeUnitFromArmy_first_match (s : State) (unitId : jsstring) :
  (forall l1 e l2,
      armyList s = l1 ++ e :: l2 ->
      Forall (fun x => id x <> unitId) l1 ->
      id e = unitId ->
      armyList (removeUnitFromArmy unitId s) = l1 ++ l2
      /\ (Forall (fun x => id x <> unitId) l2 ->
          removeUnitFromArmy unitId (removeUnitFromArmy unitId s)
          = removeUnitFromArmy unitId s))
  /\ (Forall (fun x => id x <> unitId) (armyList s) ->
      removeUnitFromArmy unitId s = s)
  /\ removeUnitFromArmy_call unitId s
     = Done VUndef (removeUnitFromArmy unitId s).
Proof.
  assert (Habsent : forall s', Forall (fun x => id x <> unitId) (armyList s') ->
                               removeUnitFromArmy unitId s' = s').
  { intros s' H. unfold removeUnitFromArmy.
    now rewrite (findIndex_none _ _ H). }
  split; [|split; [apply Habsent|reflexivity]].
  intros l1 e l2 Hl Hl1 He.
  assert (Hs : removeUnitFromArmy unitId s
               = updatePointsTotal (with_armyList (l1 ++ l2) s)).
  { unfold removeUnitFromArmy.
    rewrite Hl, (findIndex_first _ _ _ _ Hl1 He), splice1_middle.
    destruct (Z.ltb_spec (-1) (Z.of_nat (List.length l1))); [reflexivity|lia]. }
  rewrite Hs; simpl. split; [reflexivity|].
  intros Hl2. apply Habsent; simpl. apply Forall_app; now split.
Qed.

Lemma removeUnitFromArmy_first_match_witness :
  let a := mkUnit (str "a") (str "A") (Int 1) in
  let b := mkUnit (str "b") (str "B") (Int 2) in
  let b' := mkUnit (str "b") (str "B") (Int 3) in
  let s := with_armyList [a; b; a; b'] (initial (accepting []) []) in
  armyList (removeUnitFromArmy (str "b") s) = [a; a; b']
  /\ removeUnitFromArmy (str "c") s = s.
Proof.
  intros a b b' s.
  destruct (removeUnitFromArmy_first_match s (str "b")) as [Hfirst _].
  destruct (removeUnitFromArmy_first_match s (str "c")) as (_ & Hnone & _).
  split.
  - apply (Hfirst [a] b [a; b'] eq_refl).
    + repeat constructor; discriminate.
    + reflexivity.
  - apply Hnone. repeat constructor; discriminate.
Defined.

(** C10. A catalogue entry without a points cost is rendered as a card
    whose points text is [N/A] (for an id and a name that the HTML parser
    reads back as they were written); [addUnitToArmy] reads it with
    [parseInt] unguarded, so the roster gets an entry whose points are NaN
    and the total computed from then on is NaN. *)
Theorem addUnitToArmy_NaN (unit : entry) (s : State)
    (unitId unitName unitPoints : jsstring) :
  entry_cost unit = None ->
  renderUnitCard unit = Some (unitId, unitName, unitPoints) ->
  unitPoints = str "N/A"
  /\ parseInt unitPoints = NaN
  /\ armyList (addUnitToArmy unitId unitName unitPoints s)
     = armyList s ++ [mkUnit unitId unitName NaN]
  /\ totalPoints (armyList (addUnitToArmy unitId unitName unitPoints s)) = NaN
  /\ pointsTotalElement (addUnitToArmy unitId unitName unitPoints s) = Some NaN.
Proof.
  intros Hcost Hcard. unfold renderUnitCard in Hcard; rewrite Hcost in Hcard.
  destruct (_ && _) in Hcard; [|discriminate].
  injection Hcard as <- <- <-.
  assert (Htot : totalPoints
                   (armyList s
                    ++ [mkUnit (template (entry_id unit))
                          (template (entry_name unit)) NaN]) = NaN)
    by now apply totalPoints_NaN_last.
  repeat split; try reflexivity; simpl.
  - exact Htot.
  - now rewrite <- Htot.
Qed.

Lemma addUnitToArmy_NaN_witness :
  totalPoints
    (armyList
       (addUnitToArmy (str "u3") (str "Servitors") (str "N/A")
          (add_all [(str "u1", str "Intercessor Squad", str "100")]
             (initial (accepting []) []))))
  = NaN.
Proof.
  apply (addUnitToArmy_NaN
           (mkEntry (Some (str "u3")) (Some (str "Servitors")) None)
           (add_all [(str "u1", str "Intercessor Squad", str "100")]
              (initial (accepting []) []))
           (str "u3") (str "Servitors") (str "N/A")
           eq_refl eq_refl).
Defined.

(** C3, at a unit whose id is a property name every object inherits: on the
    empty mapping the id is not a key, yet the click finds [favorites[id]]
    truthy, deletes nothing, inserts nothing and writes the text of the
    empty mapping: when the store accepts the write the click returns with
    the button not favorited and the empty mapping stored, when it refuses
    the click throws and nothing has changed. The list of favorites stays
    empty. *)
Theorem favoriteBtn_click_inherited_name (h : Host) (st : storage)
    (unitName unitPoints : option jsstring) :
  let card := mkDataset (str "constructor") unitName unitPoints in
  let s' := with_localStorage (stored (str "favorites") (str "{}") st)
              (initial h st) in
  get_own (unitId card) [] = None
  /\ favoriteBtn_click card (initial h st)
     = (if accepts h st (str "favorites") (str "{}")
        then Done false s'
        else Raised QuotaExceededError (initial h st))
  /\ listFavorites s' = Done [] s'
  /\ listFavorites (initial h st) = Done [] (initial h st).
Proof.
  repeat split. unfold favoriteBtn_click, bind, read. simpl.
  unfold bind, modify, saveFavorites, bind, read, stringify_text, setItem.
  simpl. match goal with |- context [accepts ?a ?b ?c ?d] =>
                   destruct (accepts a b c d) end; reflexivity.
Qed.







(** C5 as stated fails: a stored text that is valid JSON, here the one a
    click on the favorite button of u1 wrote in an earlier session, is loaded,
    and the favorites are not the empty mapping. *)
Lemma loadFavorites_loads_valid_text :
  let text := json "{'u1':{'id':'u1','name':'Intercessor Squad','points':100}}" in
  exists b s0 s',
    favoriteBtn_click
      (mkDataset (str "u1") (Some (str "Intercessor Squad")) (Some (str "100")))
      (initial (accepting []) []) = Done b s0
    /\ getItem (str "favorites") (localStorage s0) = Some text
    /\ loadFavorites (initial (accepting []) [(str "favorites", text)])
       = Done tt s'
    /\ favorites s' <> VObj [].
Proof.
  do 3 eexists. split; [vm_compute; reflexivity|]. split; [reflexivity|].
  split; [vm_compute; reflexivity|]. discriminate.
Qed.

(** C5, amended. Whatever the storage holds under [favorites],
    [loadFavorites] returns and no exception escapes it. When nothing or the
    empty string is stored the favorites are left as they are (the empty
    mapping at the start of a session); when the text fails to parse they
    are reset to the empty mapping; when it parses they are the value
    parsed. Nothing else in the state changes. The text [not json] fails to
    parse. *)
Theorem loadFavorites_never_throws (s : State) :
  exists s',
    loadFavorites s = Done tt s'
    /\ favorites s'
       = match getItem (str "favorites") (localStorage s) with
         | Some ((_ :: _) as text) =>
             match parse_text text with
             | Some v => v
             | None => VObj []
             end
         | _ => favorites s
         end
    /\ s' = with_favorites (favorites s') s
    /\ favorites (initial (host s) (localStorage s)) = VObj []
    /\ parse_text (str "not json") = None.
Proof.
  eexists. split; [apply loadFavorites_returns|].
  repeat split.
Qed.

(** C9, on the code: a stored crusade text that fails to parse makes
    [loadCrusadeData] throw the SyntaxError of [JSON.parse], which nothing
    catches: it escapes the [DOMContentLoaded] handler, and the call of
    [showTab] that follows in the handler is not made. [loadFavorites], on
    the same text under its key, returns. The stored text [null] parses, and
    reading [crusadeData.battleHonors] then throws a TypeError. *)
Theorem loadCrusadeData_lets_SyntaxError_escape (h : Host) (st : storage)
    (text : jsstring) :
  getItem (str "crusadeData") st = Some text ->
  text <> [] ->
  parse_text text = None ->
  loadCrusadeData (initial h st) = Raised SyntaxError (initial h st)
  /\ (exists s',
         onDOMContentLoaded (initial h st) = Raised SyntaxError s'
         /\ activeTab s' = None
         /\ activeTabBtn s' = None)
  /\ (exists s', loadFavorites (initial h [(str "favorites", text)]) = Done tt s')
  /\ loadCrusadeData (initial h [(str "crusadeData", str "null")])
     = Raised TypeError (initial h [(str "crusadeData", str "null")]).
Proof.
  intros Hget Hne Hparse. split; [|split; [|split; [|reflexivity]]].
  - now apply (loadCrusadeData_SyntaxError _ text).
  - unfold onDOMContentLoaded, bind at 1.
    rewrite loadFavorites_returns.
    match goal with
    | |- context [with_favorites ?v (initial h st)] =>
        set (s1 := with_favorites v (initial h st))
    end.
    exists s1. unfold bind.
    rewrite (loadCrusadeData_SyntaxError s1 text Hget Hne Hparse).
    repeat split.
  - eexists. apply loadFavorites_returns.
Qed.

Lemma loadCrusadeData_lets_SyntaxError_escape_witness :
  loadCrusadeData (initial (accepting []) [(str "crusadeData", str "not json")])
  = Raised SyntaxError
      (initial (accepting []) [(str "crusadeData", str "not json")]).
Proof.
  apply (proj1 (loadCrusadeData_lets_SyntaxError_escape (accepting [])
                  [(str "crusadeData", str "not json")] (str "not json")
                  eq_refl ltac:(discriminate) eq_refl)).
Defined.

(** C8. Every handler leaves the items of the storage as they are, but for
    the keys [favorites] and [crusadeData]; a sequence of additions to and
    removals from the roster runs to its end and leaves the storage as it
    found it; the roster is empty when the script has been evaluated,
    whatever the storage holds, and is still empty after the
    [DOMContentLoaded] handler. *)
Theorem storage_written_under_two_keys :
  (forall e, keeps same_other_items (dispatch e))
  /\ (forall calls s,
        exists s', run (map roster_event calls) s = Some s'
                   /\ localStorage s' = localStorage s)
  /\ (forall h st, armyList (initial h st) = []
                   /\ keeps same_armyList onDOMContentLoaded).
Proof.
  assert (Hother : forall k t s,
             same_other_items s
               (with_localStorage (stored k t (localStorage s)) s)
             \/ (k <> str "favorites" /\ k <> str "crusadeData")).
  { intros k t s.
    destruct (str_eqb_spec k (str "favorites")) as [->|Hf];
      [left|destruct (str_eqb_spec k (str "crusadeData")) as [->|Hc];
            [left|right; tauto]];
      intros k' Hf' Hc'; cbn [localStorage with_localStorage];
      rewrite getItem_stored;
      match goal with
      | |- (if str_eqb ?a k' then _ else _) = _ =>
          destruct (str_eqb_spec a k'); [congruence|reflexivity]
      end. }
  split; [|split].
  - intros e. apply keeps_dispatch; try (intros; intros k _ _; reflexivity).
    + intros s1 s2 s3 H12 H23 k Hf Hc. now rewrite (H23 k Hf Hc), (H12 k Hf Hc).
    + intros t s. destruct (Hother (str "favorites") t s) as [H|[H _]];
        [exact H|congruence].
    + intros t s. destruct (Hother (str "crusadeData") t s) as [H|[_ H]];
        [exact H|congruence].
  - induction calls as [|c calls IH]; intros s; simpl.
    + eauto.
    + assert (Hc : exists s1, dispatch (roster_event c) s = Done tt s1
                              /\ localStorage s1 = localStorage s).
      { destruct c as [i n p|i]; simpl; unfold modify; eexists;
          (split; [reflexivity|]).
        - apply (R_addUnitToArmy same_storage); unfold same_storage;
            intros; congruence || reflexivity.
        - apply (R_removeUnitFromArmy same_storage); unfold same_storage;
            intros; congruence || reflexivity. }
      destruct Hc as (s1 & Hd & Hst). rewrite Hd.
      destruct (IH s1) as (s' & Hrun & Hst'). exists s'. split; [exact Hrun|].
      congruence.
  - intros h st. split; [reflexivity|].
    apply keeps_onDOMContentLoaded; unfold same_armyList;
      intros; congruence || reflexivity.
Qed.

(** C6, on the code. A card without a points cost carries the text [N/A]:
    the favorite made from it has the points NaN, which [JSON.stringify]
    writes as [null], so the next session loads the points [null]. A click on
    a card of the favorites tab, which carries neither name nor points, makes
    a favorite without name whose points are NaN: what is loaded has no name
    and the points [null]. *)
Theorem favorites_round_trip_loses_points :
  let card := mkDataset (str "u2") (Some (str "Redemptor Dreadnought"))
                (Some (str "N/A")) in
  let bare := mkDataset (str "u1") None None in
  (exists b s1 s2,
      favoriteBtn_click card (initial (accepting []) []) = Done b s1
      /\ favorites s1
         = VObj [(str "u2",
                  VObj [(str "id", VStr (str "u2"));
                        (str "name", VStr (str "Redemptor Dreadnought"));
                        (str "points", VNum NaN)])]
      /\ getItem (str "favorites") (localStorage s1)
         = Some (json "{'u2':{'id':'u2','name':'Redemptor Dreadnought','points':null}}")
      /\ loadFavorites (initial (accepting []) (localStorage s1)) = Done tt s2
      /\ favorites s2
         = VObj [(str "u2",
                  VObj [(str "id", VStr (str "u2"));
                        (str "name", VStr (str "Redemptor Dreadnought"));
                        (str "points", VNull)])])
  /\ (exists b s1 s2,
         favoriteBtn_click bare (initial (accepting []) []) = Done b s1
         /\ favorites s1
            = VObj [(str "u1",
                     VObj [(str "id", VStr (str "u1"));
                           (str "name", VUndef);
                           (str "points", VNum NaN)])]
         /\ loadFavorites (initial (accepting []) (localStorage s1)) = Done tt s2
         /\ favorites s2
            = VObj [(str "u1",
                     VObj [(str "id", VStr (str "u1"));
                           (str "points", VNull)])]).
Proof.
  intros card bare. split; do 3 eexists.
  - split; [vm_compute; reflexivity|]. split; [reflexivity|].
    split; [reflexivity|]. split; vm_compute; reflexivity.
  - split; [vm_compute; reflexivity|]. split; [reflexivity|].
    split; vm_compute; reflexivity.
Qed.

(** * Further properties of the code *)

(** ** The roster and its total *)

Lemma of_integer_not_NaN z : of_integer z <> NaN.
Proof.
  unfold of_integer. destruct (Z.abs (round_integer z) <? 2 ^ 1024); discriminate.
Qed.

Lemma num_add_NaN a b :
  num_add a b = NaN
  <-> a = NaN \/ b = NaN
      \/ exists negative, a = Infinity negative /\ b = Infinity (negb negative).
Proof.
  split.
  - destruct a as [|x|n], b as [|y|n']; cbn [num_add]; intros H; auto;
      try discriminate.
    + now apply of_integer_not_NaN in H.
    + right; right. exists n.
      destruct n, n'; try discriminate; split; reflexivity.
  - intros [->|[->|(m & -> & ->)]].
    + reflexivity.
    + now destruct a.
    + now destruct m.
Qed.

Lemma totalPoints_snoc l u :
  totalPoints (l ++ [u]) = num_add (totalPoints l) (points u).
Proof. unfold totalPoints. now rewrite fold_left_app. Qed.

(** X1. The total [updatePointsTotal] computes is NaN exactly when some
    unit of the roster has the points NaN, or has an infinity for points
    while the total of the units before it is the opposite infinity. It is
    not NaN when the points of every unit are integers. *)
Theorem totalPoints_NaN_iff (l : list Unit) :
  (totalPoints l = NaN
   <-> exists l1 u l2,
         l = l1 ++ u :: l2
         /\ (points u = NaN
             \/ exists negative,
                  points u = Infinity negative
                  /\ totalPoints l1 = Infinity (negb negative)))
  /\ ((forall u, In u l -> exists z, points u = Int z) -> totalPoints l <> NaN).
Proof.
  assert (Hiff : forall l,
             totalPoints l = NaN
             <-> exists l1 u l2,
                   l = l1 ++ u :: l2
                   /\ (points u = NaN
                       \/ exists negative,
                            points u = Infinity negative
                            /\ totalPoints l1 = Infinity (negb negative))).
  { clear l. induction l as [|x l IH] using rev_ind.
    - split; [discriminate|]. intros (l1 & u & l2 & H & _).
      destruct l1; discriminate.
    - rewrite totalPoints_snoc, num_add_NaN, IH. split.
      + intros [(l1 & u & l2 & -> & H)|[H|(n & H1 & H2)]].
        * exists l1, u, (l2 ++ [x]). rewrite <- app_assoc. now split.
        * exists l, x, []. split; [reflexivity|]. now left.
        * exists l, x, []. split; [reflexivity|]. right. exists (negb n).
          rewrite negb_involutive. now split.
      + intros (l1 & u & l2 & Heq & H).
        destruct l2 as [|y l2 _] using rev_ind.
        * apply app_inj_tail in Heq as [-> ->].
          destruct H as [H|(n & H1 & H2)]; [now right; left|].
          right; right. exists (negb n). rewrite negb_involutive. now split.
        * change (l1 ++ u :: l2 ++ [y]) with (l1 ++ (u :: l2) ++ [y]) in Heq.
          rewrite app_assoc in Heq. apply app_inj_tail in Heq as [-> ->].
          left. exists l1, u, l2. now split. }
  split; [apply Hiff|].
  intros Hall Hnan. apply Hiff in Hnan as (l1 & u & l2 & -> & H).
  destruct (Hall u) as [z Hz]; [apply in_elt|].
  destruct H as [H|(n & H & _)]; congruence.
Qed.

Lemma keeps_total_shown e : keeps total_kept (dispatch e).
Proof.
  assert (Hrefl : forall s, total_kept s s) by (intros s H; exact H).
  assert (Htrans : forall s1 s2 s3 : State,
             total_kept s1 s2 -> total_kept s2 s3 -> total_kept s1 s3)
    by (unfold total_kept; auto).
  assert (Hsame : forall s s' : State,
             armyList s' = armyList s ->
             pointsTotalElement s' = pointsTotalElement s -> total_kept s s').
  { unfold total_kept, total_shown. intros s s' -> ->. auto. }
  destruct e as [|i n p|i|card|[] t|]; cbn [dispatch].
  - apply (keeps_onDOMContentLoaded total_kept Hrefl Htrans);
      intros; now apply Hsame.
  - apply keeps_modify. intros s _. left. reflexivity.
  - apply keeps_modify. intros s H. unfold removeUnitFromArmy.
    destruct (-1 <? findIndex i (armyList s)); [left; reflexivity|exact H].
  - apply (keeps_bind total_kept Htrans);
      [|intros b; now apply (keeps_ret total_kept Hrefl)].
    apply (keeps_favoriteBtn_click total_kept Hrefl Htrans);
      intros; now apply Hsame.
  - apply keeps_modify. intros s. now apply Hsame.
  - apply keeps_modify. intros s. now apply Hsame.
  - apply keeps_modify. intros s. now apply Hsame.
  - apply (keeps_saveCrusadeBtn_click total_kept Hrefl Htrans);
      intros; now apply Hsame.
Qed.

(** X2. After whatever events the script handled since it started, the
    number on the page is the total of the roster as it now is: every
    handler that changes the roster writes the total anew, and before the
    first of them the roster is empty and nothing is written. *)
Theorem total_shown_after_run (es : list event) (h : Host) (st : storage)
    (s : State) :
  run es (initial h st) = Some s -> total_shown s.
Proof.
  assert (H : forall s0, total_shown s0 -> run es s0 = Some s -> total_shown s).
  { induction es as [|e es IH]; intros s0 H0; simpl.
    - now intros [= <-].
    - pose proof (keeps_total_shown e s0) as Hk.
      destruct (dispatch e s0) as [[] s1|err s1|]; [| |discriminate];
        apply IH; now apply Hk. }
  apply H. right. split; reflexivity.
Qed.

Lemma total_shown_after_run_witness :
  total_shown
    (removeUnitFromArmy (str "u1")
       (addUnitToArmy (str "u2") (str "B") (str "N/A")
          (addUnitToArmy (str "u1") (str "A") (str "100")
             (initial (refusing []) [])))).
Proof.
  apply (total_shown_after_run
           [ClickAddToArmy (str "u1") (str "A") (str "100");
            ClickAddToArmy (str "u2") (str "B") (str "N/A");
            ClickRemoveFromArmy (str "u1")] (refusing []) [] _ eq_refl).
Defined.

Lemma armyList_addUnitToArmy i n p s :
  armyList (addUnitToArmy i n p s) = armyList s ++ [mkUnit i n (parseInt p)].
Proof. reflexivity. Qed.

Lemma armyList_removeUnitFromArmy i s :
  armyList (removeUnitFromArmy i s)
  = if -1 <? findIndex i (armyList s)
    then splice1 (findIndex i (armyList s)) (armyList s)
    else armyList s.
Proof.
  unfold removeUnitFromArmy. now destruct (-1 <? findIndex i (armyList s)).
Qed.

(** X3. Adding a unit and then removing by its id gives the roster back
    when no unit had that id. When one had, the removal takes out the
    first of them and the unit just added stays at the end. *)
Theorem add_then_remove (unitId unitName unitPoints : jsstring) (s : State) :
  (Forall (fun x => id x <> unitId) (armyList s) ->
   armyList (removeUnitFromArmy unitId (addUnitToArmy unitId unitName unitPoints s))
   = armyList s)
  /\ (forall l1 e l2,
        armyList s = l1 ++ e :: l2 ->
        Forall (fun x => id x <> unitId) l1 ->
        id e = unitId ->
        armyList (removeUnitFromArmy unitId (addUnitToArmy unitId unitName unitPoints s))
        = l1 ++ l2 ++ [mkUnit unitId unitName (parseInt unitPoints)]).
Proof.
  split.
  - intros Hno. rewrite armyList_removeUnitFromArmy, armyList_addUnitToArmy.
    rewrite (findIndex_first unitId (armyList s)
               (mkUnit unitId unitName (parseInt unitPoints)) [] Hno eq_refl).
    destruct (Z.ltb_spec (-1) (Z.of_nat (List.length (armyList s)))); [|lia].
    rewrite splice1_middle. apply app_nil_r.
  - intros l1 e l2 Hl Hl1 He.
    rewrite armyList_removeUnitFromArmy, armyList_addUnitToArmy, Hl, <- app_assoc.
    simpl app. rewrite (findIndex_first unitId l1 e _ Hl1 He).
    destruct (Z.ltb_spec (-1) (Z.of_nat (List.length l1))); [|lia].
    now rewrite splice1_middle.
Qed.

Lemma add_then_remove_witness :
  let a := mkUnit (str "a") (str "A") (Int 1) in
  let b := mkUnit (str "b") (str "old") (Int 2) in
  let s := with_armyList [a; b; a] (initial (accepting []) []) in
  armyList (removeUnitFromArmy (str "c") (addUnitToArmy (str "c") (str "C") (str "3") s))
  = [a; b; a]
  /\ armyList (removeUnitFromArmy (str "b") (addUnitToArmy (str "b") (str "new") (str "5") s))
     = [a; a; mkUnit (str "b") (str "new") (Int 5)].
Proof.
  intros a b s. split.
  - apply (proj1 (add_then_remove (str "c") (str "C") (str "3") s)).
    repeat constructor; discriminate.
  - apply (proj2 (add_then_remove (str "b") (str "new") (str "5") s) [a] b [a] eq_refl).
    + repeat constructor; discriminate.
    + reflexivity.
Defined.

(** ** The favorite button, again *)

Lemma favoriteBtn_click_toggles_witness :
  let card := mkDataset (str "u1") (Some (str "Intercessor Squad")) (Some (str "80")) in
  let o := [(str "7", favorite_of (mkDataset (str "7") (Some (str "Hellblaster Squad"))
                                     (Some (str "115"))));
            (str "u1", favorite_of card)] in
  let s := with_favorites (VObj o) (initial (limited 40 []) []) in
  exists b o' t,
    JSON_stringify (VObj o') = Text t
    /\ favoriteBtn_click card s
       = (if accepts (host s) (localStorage s) (str "favorites") t
          then Done b (with_localStorage
                         (stored (str "favorites") t (localStorage s))
                         (with_favorites (VObj o') s))
          else Raised QuotaExceededError (with_favorites (VObj o') s))
    /\ match get_own (unitId card) o with
       | Some _ => b = false /\ get_own (unitId card) o' = None
       | None => b = true /\ get_own (unitId card) o' = Some (favorite_of card)
       end
    /\ forall k, k <> unitId card -> get_own k o' = get_own k o.
Proof.
  intros card o s. apply (favoriteBtn_click_toggles card s o).
  - reflexivity.
  - split.
    + repeat constructor; simpl; intuition discriminate.
    + repeat constructor; eexists; (split; [|reflexivity]); reflexivity.
  - reflexivity.
  - reflexivity.
Defined.

(** The state a click leaves on a plain object, whether it returns or
    throws. *)
Lemma favoriteBtn_click_left card s o s' :
  favorites s = VObj o ->
  left_by (favoriteBtn_click card s) = Some s' ->
  favorites s' = VObj (toggled card o).
Proof.
  intros Hs Hclick.
  destruct (JSON_stringify (VObj (toggled card o))) as [t| |] eqn:Ht.
  - rewrite (favoriteBtn_click_object card s o t Hs Ht) in Hclick.
    destruct (accepts (host s) (localStorage s) (str "favorites") t);
      injection Hclick as <-; reflexivity.
  - rewrite JSON_stringify_VObj in Ht.
    destruct (stringify_members (toggled card o)); discriminate.
  - exfalso. unfold toggled in Ht.
    unfold favoriteBtn_click, bind, read in Hclick; rewrite Hs in Hclick.
    destruct (property_truthy (get (unitId card) o));
      unfold bind, modify, saveFavorites, bind, read, stringify_text in Hclick;
      cbn [favorites with_favorites] in Hclick; rewrite Ht in Hclick;
      discriminate.
Qed.

(** ** Saving and loading *)

Lemma text_nonempty v t : JSON_stringify v = Text t -> exists c t', t = c :: t'.
Proof.
  intros H. assert (Hs : starts_value t = true).
  { apply (starts_value_text v). unfold element_text. now rewrite H. }
  destruct t as [|c t']; [discriminate|eauto].
Qed.

Lemma saveFavorites_writes s t :
  JSON_stringify (favorites s) = Text t ->
  saveFavorites s
  = if accepts (host s) (localStorage s) (str "favorites") t
    then Done tt (with_localStorage
                    (stored (str "favorites") t (localStorage s)) s)
    else Raised QuotaExceededError s.
Proof.
  intros H. unfold saveFavorites, bind, read, stringify_text. now rewrite H.
Qed.

(** X6. For favorites every number of which is NaN, an infinity or an
    integer of magnitude at most 2^53, and that have a JSON text:
    [saveFavorites] returns with the text stored when the store accepts it,
    and throws with nothing changed when the store refuses. When it has
    returned, what [loadFavorites] loads, in a later session or at once, is
    the favorites as [JSON.stringify] and [JSON.parse] carry them: without
    the members that are [undefined], and with [null] for NaN, for the
    infinities and for [undefined] in an array ([reloaded]). *)
Theorem saveFavorites_then_loadFavorites (s s0 : State) (t : jsstring) :
  tracked (favorites s) = true ->
  JSON_stringify (favorites s) = Text t ->
  saveFavorites s
  = (if accepts (host s) (localStorage s) (str "favorites") t
     then Done tt (with_localStorage
                     (stored (str "favorites") t (localStorage s)) s)
     else Raised QuotaExceededError s)
  /\ forall s1,
       saveFavorites s = Done tt s1 ->
       exists s2,
         loadFavorites (with_localStorage (localStorage s1) s0) = Done tt s2
         /\ favorites s2 = reloaded (favorites s).
Proof.
  intros Htr Ht. split; [exact (saveFavorites_writes s t Ht)|].
  intros s1 Hsave. rewrite (saveFavorites_writes s t Ht) in Hsave.
  destruct (accepts (host s) (localStorage s) (str "favorites") t);
    [|discriminate].
  injection Hsave as <-. eexists. split; [apply loadFavorites_returns|].
  cbn [localStorage with_localStorage favorites with_favorites].
  rewrite getItem_stored, str_eqb_refl.
  destruct (text_nonempty _ _ Ht) as (c & t' & ->).
  now rewrite (parse_text_JSON_stringify _ _ Htr Ht).
Qed.

Lemma saveFavorites_then_loadFavorites_witness :
  let saved := VObj [(str "7", VArr [VUndef; VNum (Int (-3))]);
                     (str "u1", VObj [(str "id", VStr (str "u1"));
                                      (str "name", VUndef);
                                      (str "points", VNum NaN)]);
                     (str "u2", VNum (Infinity true))] in
  exists s1 s2,
    saveFavorites (with_favorites saved (initial (accepting []) [])) = Done tt s1
    /\ loadFavorites (with_localStorage (localStorage s1) (initial (accepting []) []))
       = Done tt s2
    /\ favorites s2
       = VObj [(str "7", VArr [VNull; VNum (Int (-3))]);
               (str "u1", VObj [(str "id", VStr (str "u1"));
                                (str "points", VNull)]);
               (str "u2", VNull)].
Proof.
  intros saved.
  destruct (saveFavorites_then_loadFavorites
              (with_favorites saved (initial (accepting []) []))
              (initial (accepting []) []) _ eq_refl eq_refl)
    as [H1 H2].
  destruct (H2 _ H1) as (s2 & Hl & Hf).
  eexists. exists s2. split; [exact H1|]. split; [exact Hl|].
  rewrite Hf. reflexivity.
Defined.

Lemma input_value_VStr t s : input_value (VStr t) s = Done t s.
Proof. now destruct t. Qed.

(** What [loadCrusadeData] does with the text of a record the save handler
    wrote. *)
Lemma loadCrusadeData_own_text s honors xp rp t :
  JSON_stringify (crusade_record honors xp rp) = Text t ->
  getItem (str "crusadeData") (localStorage s) = Some t ->
  loadCrusadeData s = Done tt (with_crusadeInputs honors xp rp s).
Proof.
  intros Ht Hget.
  assert (Hparse : parse_text t = Some (crusade_record honors xp rp))
    by (rewrite (parse_text_JSON_stringify (crusade_record honors xp rp) t
                   eq_refl Ht); reflexivity).
  destruct (text_nonempty _ _ Ht) as (c & t' & ->).
  unfold loadCrusadeData, bind at 1, read. rewrite Hget.
  unfold bind at 1, JSON_parse. rewrite Hparse.
  unfold crusade_record, bind, read_field, ret, modify; simpl get_own.
  cbv iota. rewrite input_value_VStr. cbv iota. rewrite input_value_VStr.
  cbv iota. rewrite input_value_VStr. reflexivity.
Qed.

Lemma saveCrusadeBtn_click_writes s :
  saveCrusadeBtn_click s
  = if accepts (host s) (localStorage s) (str "crusadeData")
         (crusade_text (crusadeBattleHonorsInput s) (crusadeXpInput s)
            (crusadeRpInput s))
    then Done tt
           (with_localStorage
              (stored (str "crusadeData")
                 (crusade_text (crusadeBattleHonorsInput s) (crusadeXpInput s)
                    (crusadeRpInput s))
                 (localStorage s)) s)
    else Raised QuotaExceededError s.
Proof. reflexivity. Qed.

(** X7. A click on the save button of the crusade tracker returns with the
    text of the three inputs stored when the store accepts it, and throws
    with nothing changed when the store refuses. When it has returned,
    [loadCrusadeData], in whatever state over the storage it left, returns
    and gives the three inputs the texts they had at the click. *)
Theorem crusade_round_trip (s s0 : State) :
  saveCrusadeBtn_click s
  = (if accepts (host s) (localStorage s) (str "crusadeData")
          (crusade_text (crusadeBattleHonorsInput s) (crusadeXpInput s)
             (crusadeRpInput s))
     then Done tt
            (with_localStorage
               (stored (str "crusadeData")
                  (crusade_text (crusadeBattleHonorsInput s) (crusadeXpInput s)
                     (crusadeRpInput s))
                  (localStorage s)) s)
     else Raised QuotaExceededError s)
  /\ forall s1,
       saveCrusadeBtn_click s = Done tt s1 ->
       loadCrusadeData (with_localStorage (localStorage s1) s0)
       = Done tt
           (with_crusadeInputs (crusadeBattleHonorsInput s) (crusadeXpInput s)
              (crusadeRpInput s) (with_localStorage (localStorage s1) s0)).
Proof.
  split; [apply saveCrusadeBtn_click_writes|].
  intros s1 Hsave. rewrite saveCrusadeBtn_click_writes in Hsave.
  destruct (accepts _ _ _ _); [|discriminate]. injection Hsave as <-.
  apply (loadCrusadeData_own_text _ _ _ _
           (crusade_text (crusadeBattleHonorsInput s) (crusadeXpInput s)
              (crusadeRpInput s)));
    [reflexivity|].
  cbn [localStorage with_localStorage].
  now rewrite getItem_stored, str_eqb_refl.
Qed.

Lemma decimal_value_defined negative m e : decimal_value negative m e <> VUndef.
Proof.
  unfold decimal_value.
  repeat match goal with
  | |- context [if ?b then _ else _] => destruct b
  end; discriminate.
Qed.

Lemma parse_number_defined s v rest :
  parse_number s = Some (v, rest) -> v <> VUndef.
Proof.
  unfold parse_number. destruct (parse_sign s) as [negative s1].
  destruct (parse_int s1) as [ip s2].
  destruct ip; try discriminate;
    destruct (parse_frac s2) as [[fd s3]|]; try discriminate;
    destruct (parse_exp s3) as [[e r]|]; try discriminate;
    intros [= <- _]; apply decimal_value_defined.
Qed.

Lemma parse_value_defined fuel s v rest :
  parse_value fuel s = Some (v, rest) -> v <> VUndef.
Proof.
  destruct fuel as [|fuel]; [discriminate|]. rewrite parse_value_S.
  repeat match goal with
  | |- match ?x with _ => _ end = _ -> _ => destruct x as [[? ?]|] || destruct x
  end; first [apply parse_number_defined|intros [= <- _]; discriminate].
Qed.

Lemma parse_text_defined text v : parse_text text = Some v -> v <> VUndef.
Proof.
  unfold parse_text.
  destruct (parse_value _ text) as [[v' rest]|] eqn:H; [|discriminate].
  destruct (skip_ws rest); [|discriminate]. intros [= <-].
  eapply parse_value_defined; eauto.
Qed.

Lemma classic_VNull v : v = VNull \/ v <> VNull.
Proof. destruct v; (now left) || (right; discriminate). Qed.

Lemma loadCrusadeData_eq s :
  loadCrusadeData s
  = match getItem (str "crusadeData") (localStorage s) with
    | Some ((_ :: _) as text) =>
        match parse_text text with
        | Some v => crusade_fields v s
        | None => Raised SyntaxError s
        end
    | _ => Done tt s
    end.
Proof.
  unfold loadCrusadeData, bind at 1, read.
  destruct (getItem (str "crusadeData") (localStorage s)) as [[|c text]|];
    try reflexivity.
  unfold bind at 1, JSON_parse. now destruct (parse_text (c :: text)).
Qed.

(** Reading a field of a record and converting it for the input. *)
Lemma read_field_input_value k v s :
  v <> VNull -> v <> VUndef ->
  (x <- read_field k v ;; input_value x) s
  = match field_text k v with
    | Chars t => Done t s
    | NotConvertible => Raised TypeError s
    | NotFollowed => Unfollowed
    end.
Proof.
  intros Hn Hu. unfold field_text.
  assert (H : read_field k v s
              = Done match v with
                     | VObj o => match get_own k o with
                                 | Some x => x
                                 | None => VUndef
                                 end
                     | _ => VUndef
                     end s)
    by (destruct v; congruence || reflexivity).
  unfold bind. rewrite H. unfold input_value, converted.
  destruct (truthy _); [|reflexivity]. now destruct (ToString _).
Qed.

(** The rest of [loadCrusadeData], by the conversions of the three
    fields. *)
Lemma crusade_fields_eq v s :
  v <> VNull -> v <> VUndef ->
  crusade_fields v s
  = match field_text (str "battleHonors") v with
    | NotConvertible => Raised TypeError s
    | NotFollowed => Unfollowed
    | Chars a =>
        match field_text (str "xp") v with
        | NotConvertible =>
            Raised TypeError
              (with_crusadeInputs a (crusadeXpInput s) (crusadeRpInput s) s)
        | NotFollowed => Unfollowed
        | Chars b =>
            match field_text (str "rp") v with
            | NotConvertible =>
                Raised TypeError (with_crusadeInputs a b (crusadeRpInput s) s)
            | NotFollowed => Unfollowed
            | Chars c => Done tt (with_crusadeInputs a b c s)
            end
        end
    end.
Proof.
  intros Hn Hu.
  assert (Hstep : forall k (f : jsstring -> M unit) s0,
             (x <- read_field k v ;; t <- input_value x ;; f t) s0
             = match field_text k v with
               | Chars t => f t s0
               | NotConvertible => Raised TypeError s0
               | NotFollowed => Unfollowed
               end).
  { intros k f s0.
    pose proof (read_field_input_value k v s0 Hn Hu) as H.
    unfold bind in H |- *.
    destruct (read_field k v s0) as [x s1|e s1|];
      [|destruct (field_text k v); congruence..].
    destruct (input_value x s1) as [t s2|e s2|];
      destruct (field_text k v); try discriminate; try reflexivity;
      now injection H as -> ->. }
  unfold crusade_fields. rewrite Hstep.
  destruct (field_text (str "battleHonors") v) as [a| |]; try reflexivity.
  unfold bind at 1, modify at 1. rewrite Hstep.
  destruct (field_text (str "xp") v) as [b| |]; try reflexivity.
  unfold bind at 1, modify at 1. rewrite Hstep.
  destruct (field_text (str "rp") v) as [c| |]; reflexivity.
Qed.

(** X8. [loadCrusadeData] returns with nothing changed when the stored
    text is missing or empty. On a text that is not empty it throws a
    SyntaxError when the text fails to parse and a TypeError when it parses
    to [null], either with nothing changed. On another value it converts
    the three fields in turn, each when it is truthy: a field that cannot
    be converted to a string (an object with a member [toString], or an
    array that holds one) makes it throw a TypeError, the inputs of the
    fields before it changed, and it returns with the three inputs set when
    the three are converted. It throws in no other case, and does not return
    when one of the three fields cannot be converted. *)
Theorem loadCrusadeData_throws_when (s : State) :
  (getItem (str "crusadeData") (localStorage s) = None
   \/ getItem (str "crusadeData") (localStorage s) = Some [] ->
   loadCrusadeData s = Done tt s)
  /\ (forall text,
        getItem (str "crusadeData") (localStorage s) = Some text ->
        text <> [] ->
        (parse_text text = None -> loadCrusadeData s = Raised SyntaxError s)
        /\ (parse_text text = Some VNull ->
            loadCrusadeData s = Raised TypeError s)
        /\ (forall v,
              parse_text text = Some v ->
              v <> VNull ->
              (field_text (str "battleHonors") v = NotConvertible ->
               loadCrusadeData s = Raised TypeError s)
              /\ (forall a,
                    field_text (str "battleHonors") v = Chars a ->
                    field_text (str "xp") v = NotConvertible ->
                    loadCrusadeData s
                    = Raised TypeError
                        (with_crusadeInputs a (crusadeXpInput s)
                           (crusadeRpInput s) s))
              /\ (forall a b,
                    field_text (str "battleHonors") v = Chars a ->
                    field_text (str "xp") v = Chars b ->
                    field_text (str "rp") v = NotConvertible ->
                    loadCrusadeData s
                    = Raised TypeError
                        (with_crusadeInputs a b (crusadeRpInput s) s))
              /\ (forall a b c,
                    field_text (str "battleHonors") v = Chars a ->
                    field_text (str "xp") v = Chars b ->
                    field_text (str "rp") v = Chars c ->
                    loadCrusadeData s = Done tt (with_crusadeInputs a b c s))
              /\ (field_text (str "battleHonors") v = NotConvertible
                  \/ field_text (str "xp") v = NotConvertible
                  \/ field_text (str "rp") v = NotConvertible ->
                  forall s', loadCrusadeData s <> Done tt s')))
  /\ (forall e s',
        loadCrusadeData s = Raised e s' ->
        exists text,
          getItem (str "crusadeData") (localStorage s) = Some text
          /\ text <> []
          /\ (parse_text text = None
              \/ parse_text text = Some VNull
              \/ exists v,
                   parse_text text = Some v
                   /\ (field_text (str "battleHonors") v = NotConvertible
                       \/ field_text (str "xp") v = NotConvertible
                       \/ field_text (str "rp") v = NotConvertible))).
Proof.
  rewrite loadCrusadeData_eq. split; [|split].
  - intros [->| ->]; reflexivity.
  - intros text Hget Hne. rewrite Hget.
    destruct text as [|c text]; [congruence|].
    split; [now intros ->|]. split; [now intros ->|].
    intros v Hparse Hn. rewrite Hparse.
    rewrite (crusade_fields_eq v s Hn (parse_text_defined _ _ Hparse)).
    split; [now intros ->|]. split; [now intros a -> ->|].
    split; [now intros a b -> -> ->|]. split; [now intros a b c0 -> -> ->|].
    intros H s'.
    destruct (field_text (str "battleHonors") v) as [a| |]; try discriminate.
    destruct (field_text (str "xp") v) as [b| |]; try discriminate.
    destruct (field_text (str "rp") v) as [c1| |]; try discriminate.
    destruct H as [H|[H|H]]; discriminate.
  - intros e s'.
    destruct (getItem (str "crusadeData") (localStorage s)) as [[|c text]|];
      try discriminate.
    intros H. exists (c :: text). split; [reflexivity|]. split; [discriminate|].
    destruct (parse_text (c :: text)) as [v|] eqn:Hparse; [|now left].
    right. destruct (classic_VNull v) as [->|Hn]; [now left|].
    right. exists v. split; [reflexivity|].
    rewrite (crusade_fields_eq v s Hn (parse_text_defined _ _ Hparse)) in H.
    destruct (field_text (str "battleHonors") v) as [a| |]; auto;
      try discriminate.
    destruct (field_text (str "xp") v) as [b| |]; auto; try discriminate.
    destruct (field_text (str "rp") v) as [c0| |]; auto; discriminate.
Qed.

(** Two stored records at which [loadCrusadeData] throws a TypeError: at
    the first field, with nothing changed, and at the second, the first
    input changed. *)
Lemma loadCrusadeData_not_convertible :
  let s1 := initial (accepting [])
              [(str "crusadeData", json "{'battleHonors':{'toString':null}}")] in
  let s2 := initial (accepting [])
              [(str "crusadeData",
                json "{'battleHonors':'a','xp':{'toString':null}}")] in
  loadCrusadeData s1 = Raised TypeError s1
  /\ loadCrusadeData s2
     = Raised TypeError (with_crusadeInputs (str "a") [] [] s2).
Proof. split; vm_compute; reflexivity. Qed.

Lemma same_crusade_refl s : same_crusade s s.
Proof. repeat split. Qed.

Lemma same_crusade_trans s1 s2 s3 :
  same_crusade s1 s2 -> same_crusade s2 s3 -> same_crusade s1 s3.
Proof.
  unfold same_crusade. intros (A1 & B1 & C1 & D1) (A2 & B2 & C2 & D2).
  repeat split; congruence.
Qed.

Lemma same_favorites_refl s : same_favorites s s.
Proof. repeat split. Qed.

Lemma same_favorites_trans s1 s2 s3 :
  same_favorites s1 s2 -> same_favorites s2 s3 -> same_favorites s1 s3.
Proof.
  unfold same_favorites. intros (A1 & B1) (A2 & B2). split; congruence.
Qed.

(** X9. The two stored records do not touch: the favorite button and
    [loadFavorites] leave the stored crusade record and the three inputs as
    they are, the save button of the crusade tracker and [loadCrusadeData]
    leave the stored favorites and the favorites variable as they are, and
    adding or removing a unit leaves all of them. *)
Theorem persisted_records_apart :
  (forall card, keeps same_crusade (favoriteBtn_click card))
  /\ keeps same_crusade loadFavorites
  /\ keeps same_favorites saveCrusadeBtn_click
  /\ keeps same_favorites loadCrusadeData
  /\ (forall i n p s, same_crusade s (addUnitToArmy i n p s)
                      /\ same_favorites s (addUnitToArmy i n p s))
  /\ (forall i s, same_crusade s (removeUnitFromArmy i s)
                  /\ same_favorites s (removeUnitFromArmy i s)).
Proof.
  assert (Hitem : forall k k' t st,
             str_eqb k k' = false -> getItem k' (stored k t st) = getItem k' st).
  { intros k k' t st H. now rewrite getItem_stored, H. }
  split; [|split; [|split; [|split; [|split]]]].
  - intros card.
    apply (keeps_favoriteBtn_click same_crusade same_crusade_refl same_crusade_trans).
    + intros v s. repeat split.
    + intros t s. split; [|repeat split]. now apply Hitem.
  - apply (keeps_loadFavorites same_crusade same_crusade_refl same_crusade_trans).
    intros v s. repeat split.
  - apply (keeps_saveCrusadeBtn_click same_favorites same_favorites_refl
             same_favorites_trans).
    intros t s. split; [|reflexivity]. now apply Hitem.
  - apply (keeps_loadCrusadeData same_favorites same_favorites_refl
             same_favorites_trans).
    intros a b c s. repeat split.
  - intros i n p s. split.
    + apply (R_addUnitToArmy same_crusade same_crusade_trans); intros; repeat split.
    + apply (R_addUnitToArmy same_favorites same_favorites_trans); intros; repeat split.
  - intros i s. split.
    + apply (R_removeUnitFromArmy same_crusade same_crusade_refl same_crusade_trans);
        intros; repeat split.
    + apply (R_removeUnitFromArmy same_favorites same_favorites_refl
               same_favorites_trans); intros; repeat split.
Qed.

Lemma getElementById_found i s :
  In i (elementIds (host s)) -> getElementById i s = Done true s.
Proof.
  intros H. unfold getElementById, read. f_equal.
  apply existsb_exists. exists i. split; [exact H|apply str_eqb_refl].
Qed.

(** [showTab] on a page that has the button and the content of the tab,
    up to the rendering of the favorites. *)
Lemma showTab_found tabId s :
  In (str "tab-" ++ tabId) (elementIds (host s)) ->
  In (str "content-" ++ tabId) (elementIds (host s)) ->
  showTab tabId s
  = (if str_eqb tabId (str "favorites")
     then renderFavorites ;;; ret tt
     else ret tt)
      (with_activeTab (Some tabId)
         (with_activeTab None
            (with_activeTabBtn (Some (str "tab-" ++ tabId))
               (with_activeTabBtn None s)))).
Proof.
  intros Hb Hc. unfold showTab.
  unfold bind at 1, modify at 1. unfold bind at 1.
  rewrite getElementById_found by exact Hb.
  unfold bind at 1, ret at 1. unfold bind at 1, modify at 1.
  unfold bind at 1, modify at 1. unfold bind at 1.
  rewrite getElementById_found by exact Hc.
  unfold bind at 1, ret at 1. unfold bind at 1, modify at 1.
  reflexivity.
Qed.

(** X10. On a page that has the button and the content of the Battle Forge
    tab, and when the stored crusade record, if there is one, is a text the
    save handler wrote, the [DOMContentLoaded] handler returns whatever is
    stored under [favorites]: it marks the button and shows the content of
    the Battle Forge tab, and the roster is empty. *)
Theorem startup_on_own_storage (h : Host) (st : storage) :
  In (str "tab-battle-forge") (elementIds h) ->
  In (str "content-battle-forge") (elementIds h) ->
  (forall text, getItem (str "crusadeData") st = Some text ->
                exists honors xp rp, text = crusade_text honors xp rp) ->
  exists s',
    onDOMContentLoaded (initial h st) = Done tt s'
    /\ activeTabBtn s' = Some (str "tab-battle-forge")
    /\ activeTab s' = Some (str "battle-forge")
    /\ armyList s' = [].
Proof.
  intros Hb Hc Hown. unfold onDOMContentLoaded, bind at 1.
  rewrite loadFavorites_returns.
  match goal with
  | |- context [with_favorites ?v (initial h st)] =>
      set (s1 := with_favorites v (initial h st))
  end.
  assert (Hl : exists s2, loadCrusadeData s1 = Done tt s2
                          /\ armyList s2 = [] /\ host s2 = h).
  { destruct (getItem (str "crusadeData") st) as [text|] eqn:Hget.
    - destruct (Hown text eq_refl) as (a & b & c & ->).
      eexists. split;
        [apply (loadCrusadeData_own_text s1 a b c (crusade_text a b c));
           [reflexivity|exact Hget]
        |split; reflexivity].
    - rewrite loadCrusadeData_eq. cbn [s1 localStorage with_favorites initial].
      rewrite Hget. eexists. split; [reflexivity|split; reflexivity]. }
  destruct Hl as (s2 & Hl & Harmy & Hhost). unfold bind at 1. rewrite Hl.
  rewrite (showTab_found (str "battle-forge") s2)
    by (rewrite Hhost; assumption).
  eexists. split; [reflexivity|]. split; [reflexivity|].
  split; [reflexivity|exact Harmy].
Qed.

Lemma startup_on_own_storage_witness :
  exists s',
    onDOMContentLoaded
      (initial (refusing [str "tab-battle-forge"; str "content-battle-forge"])
         [(str "favorites", str "not json");
          (str "crusadeData", crusade_text (str "Warlord") (str "12") [])])
    = Done tt s'
    /\ activeTabBtn s' = Some (str "tab-battle-forge")
    /\ activeTab s' = Some (str "battle-forge")
    /\ armyList s' = [].
Proof.
  apply startup_on_own_storage.
  - left. reflexivity.
  - right. left. reflexivity.
  - intros text H.
    exists (str "Warlord"), (str "12"), []. cbn in H. now injection H as <-.
Defined.

(** ** The order of the keys *)

Lemma take_digits_text s :
  s = uint_units (fst (take_digits s)) ++ snd (take_digits s).
Proof.
  induction s as [|c s IH]; [reflexivity|]. simpl.
  destruct (digit_of_unit c) as [D|] eqn:Hc; [|reflexivity].
  destruct (take_digits s) as [d rest]; simpl in *.
  assert (Hu : forall d, uint_units (D d) = c :: uint_units d).
  { intros d0. revert Hc. unfold digit_of_unit.
    repeat match goal with
    | |- context [match ?x with _ => _ end] => is_var x; destruct x
    end; intros [= <-] || discriminate; reflexivity. }
  rewrite Hu. simpl. now f_equal.
Qed.

Lemma unorm_canonical d :
  d <> Decimal.Nil ->
  match d with
  | Decimal.D0 Decimal.Nil => true
  | Decimal.D0 _ => false
  | _ => true
  end = true ->
  Decimal.unorm d = d.
Proof.
  destruct d as [|d|d|d|d|d|d|d|d|d|d]; try reflexivity; [congruence|].
  destruct d; try discriminate. reflexivity.
Qed.

(** The key of an array index is its decimal numeral. *)
Lemma array_index_text k i :
  array_index k = Some i -> k = uint_units (N.to_uint (Z.to_N i)).
Proof.
  unfold array_index. pose proof (take_digits_text k) as Hk.
  destruct (take_digits k) as [d rest]. simpl in Hk.
  assert (H : forall d', d = d' -> d' <> Decimal.Nil ->
              match rest with
              | [] =>
                  if match d' with
                     | Decimal.D0 Decimal.Nil => true
                     | Decimal.D0 _ => false
                     | _ => true
                     end && (uint_value d' <? 2 ^ 32 - 1)
                  then Some (uint_value d') else None
              | _ :: _ => None
              end = Some i -> k = uint_units (N.to_uint (Z.to_N i))).
  { intros d' <- Hnil. destruct rest; [|discriminate].
    destruct (match d with
              | Decimal.D0 Decimal.Nil => true
              | Decimal.D0 _ => false
              | _ => true
              end) eqn:Hcan; [|discriminate].
    destruct (uint_value d <? 2 ^ 32 - 1); [|discriminate]. intros [= <-].
    unfold uint_value. rewrite N2Z.id, DecimalN.Unsigned.to_of.
    rewrite (unorm_canonical d Hnil Hcan). now rewrite app_nil_r in Hk. }
  destruct d; [discriminate|..]; apply (H _ eq_refl); discriminate.
Qed.

Lemma array_index_inj k k' i :
  array_index k = Some i -> array_index k' = Some i -> k = k'.
Proof.
  intros H H'. apply array_index_text in H, H'. congruence.
Qed.

Lemma index_keys_ascending_le lo lo' o :
  lo' <= lo -> index_keys_ascending lo o = true -> index_keys_ascending lo' o = true.
Proof.
  destruct o as [|[k v] r]; [trivial|]. simpl. intros Hle.
  destruct (array_index k) as [i|]; [|trivial].
  intros H. apply andb_prop in H as [H1 H2]. apply Z.ltb_lt in H1.
  rewrite H2, andb_true_r. apply Z.ltb_lt. lia.
Qed.

Lemma no_index_keys_delete_own k o :
  forallb (fun m => match array_index (fst m) with Some _ => false | None => true end) o = true ->
  forallb (fun m => match array_index (fst m) with Some _ => false | None => true end)
    (delete_own k o) = true.
Proof.
  induction o as [|[k0 v0] o IH]; [trivial|]. simpl.
  intros H. apply andb_prop in H as [H1 H2].
  destruct (str_eqb k0 k); [exact H2|]. simpl. now rewrite H1, IH.
Qed.

Lemma index_keys_ascending_delete_own k o :
  forall lo, index_keys_ascending lo o = true ->
             index_keys_ascending lo (delete_own k o) = true.
Proof.
  induction o as [|[k0 v0] o IH]; [trivial|]. intros lo. simpl.
  destruct (str_eqb k0 k).
  - destruct (array_index k0) as [i|].
    + intros H. apply andb_prop in H as [H1 H2]. apply Z.ltb_lt in H1.
      apply (index_keys_ascending_le i); [lia|exact H2].
    + intros H. clear IH. destruct o as [|[k1 v1] o]; [reflexivity|].
      simpl in H |- *. apply andb_prop in H as [H1 H2].
      destruct (array_index k1); [discriminate|exact H2].
  - simpl. destruct (array_index k0) as [i|].
    + intros H. apply andb_prop in H as [H1 H2]. now rewrite H1, IH.
    + apply no_index_keys_delete_own.
Qed.

Lemma index_keys_ascending_replace_own k v o :
  forall lo, index_keys_ascending lo (replace_own k v o) = index_keys_ascending lo o.
Proof.
  assert (Hno : forall o,
             forallb (fun m => match array_index (fst m) with Some _ => false | None => true end)
               (replace_own k v o)
             = forallb (fun m => match array_index (fst m) with Some _ => false | None => true end) o).
  { induction o0 as [|[k0 v0] o0 IH]; [reflexivity|]. simpl.
    destruct (str_eqb k0 k); simpl; [reflexivity|now rewrite IH]. }
  induction o as [|[k0 v0] o IH]; [reflexivity|]. intros lo. simpl.
  destruct (str_eqb k0 k); simpl; [reflexivity|].
  destruct (array_index k0); [now rewrite IH|apply Hno].
Qed.

Lemma index_keys_ascending_insert_index i k v o :
  array_index k = Some i ->
  get_own k o = None ->
  forall lo, lo < i ->
             index_keys_ascending lo o = true ->
             index_keys_ascending lo (insert_index i k v o) = true.
Proof.
  intros Hk. induction o as [|[k0 v0] o IH]; intros Hget lo Hlo Ho.
  - simpl. rewrite Hk. apply andb_true_intro. split; [now apply Z.ltb_lt|reflexivity].
  - simpl in Hget. destruct (str_eqb_spec k0 k) as [->|Hne]; [discriminate|].
    simpl in Ho |- *. destruct (array_index k0) as [j|] eqn:Hk0.
    + apply andb_prop in Ho as [Ho1 Ho2].
      destruct (Z.ltb_spec j i).
      * simpl. rewrite Hk0, Ho1. simpl. apply IH; auto.
      * assert (j <> i) by (intros ->; apply Hne; eapply array_index_inj; eauto).
        simpl. rewrite Hk, Hk0.
        apply andb_true_intro. split; [now apply Z.ltb_lt|].
        apply andb_true_intro. split; [apply Z.ltb_lt; lia|exact Ho2].
    + simpl. rewrite Hk, Hk0.
      apply andb_true_intro. split; [now apply Z.ltb_lt|]. exact Ho.
Qed.

Lemma index_keys_ascending_app_other k v o :
  array_index k = None ->
  forall lo, index_keys_ascending lo o = true ->
             index_keys_ascending lo (o ++ [(k, v)]) = true.
Proof.
  intros Hk. induction o as [|[k0 v0] o IH]; intros lo Ho.
  - simpl. now rewrite Hk.
  - simpl in Ho |- *. destruct (array_index k0) as [j|].
    + apply andb_prop in Ho as [Ho1 Ho2]. now rewrite Ho1, IH.
    + rewrite forallb_app, Ho. simpl. now rewrite Hk.
Qed.

Lemma array_index_nonneg k i : array_index k = Some i -> 0 <= i.
Proof.
  unfold array_index. destruct (take_digits k) as [d [|c r]];
    destruct d; try discriminate;
    match goal with
    | |- (if ?b then _ else _) = _ -> _ => destruct b; [|discriminate]
    end; intros [= <-]; unfold uint_value; lia.
Qed.

Lemma host_order_set_own k v o : host_order o -> host_order (set_own k v o).
Proof.
  unfold host_order, set_own. intros Ho. destruct (get_own k o) eqn:Hget.
  - now rewrite index_keys_ascending_replace_own.
  - destruct (array_index k) as [i|] eqn:Hk.
    + apply index_keys_ascending_insert_index; auto.
      apply array_index_nonneg in Hk. lia.
    + now apply index_keys_ascending_app_other.
Qed.

Lemma host_order_delete_own k o : host_order o -> host_order (delete_own k o).
Proof. apply index_keys_ascending_delete_own. Qed.

Lemma index_after_bound acc k v r i :
  array_index k = Some i ->
  forall lo, index_keys_ascending lo (acc ++ (k, v) :: r) = true -> lo < i.
Proof.
  intros Hk. induction acc as [|[k0 v0] acc IH]; intros lo H; simpl in H.
  - rewrite Hk in H. apply andb_prop in H as [H _]. now apply Z.ltb_lt.
  - destruct (array_index k0) as [j|].
    + apply andb_prop in H as [H1 H2]. apply Z.ltb_lt in H1.
      specialize (IH j H2). lia.
    + rewrite forallb_app in H. apply andb_prop in H as [_ H]. simpl in H.
      now rewrite Hk in H.
Qed.

Lemma insert_index_at_end acc k v r i :
  array_index k = Some i ->
  forall lo, index_keys_ascending lo (acc ++ (k, v) :: r) = true ->
             insert_index i k v acc = acc ++ [(k, v)].
Proof.
  intros Hk. induction acc as [|[k0 v0] acc IH]; intros lo H; [reflexivity|].
  simpl in H |- *. destruct (array_index k0) as [j|].
  - apply andb_prop in H as [H1 H2].
    pose proof (index_after_bound acc k v r i Hk j H2) as Hlt.
    apply Z.ltb_lt in Hlt. rewrite Hlt. f_equal. now apply (IH j).
  - rewrite forallb_app in H. apply andb_prop in H as [_ H]. simpl in H.
    now rewrite Hk in H.
Qed.

Lemma fold_set_own_host_order o :
  forall acc,
    host_order (acc ++ o) -> unique_keys (acc ++ o) ->
    fold_left (fun o x => set_own (fst x) (snd x) o) o acc = acc ++ o.
Proof.
  induction o as [|[k v] r IH]; intros acc Ho Hu; simpl.
  - now rewrite app_nil_r.
  - assert (Hget : get_own k acc = None).
    { apply get_own_None. unfold unique_keys in Hu. rewrite map_app in Hu.
      simpl in Hu. apply NoDup_remove_2 in Hu. intros Hin. apply Hu.
      apply in_or_app. now left. }
    assert (Hset : set_own k v acc = acc ++ [(k, v)]).
    { unfold set_own. rewrite Hget. destruct (array_index k) as [i|] eqn:Hk;
        [|reflexivity].
      now apply (insert_index_at_end acc k v r i Hk (-1)). }
    rewrite Hset, IH; rewrite <- app_assoc; simpl; auto.
Qed.

(** Defining the members of an object in the order the host keeps them
    gives the object. *)
Lemma build_object_host_order o :
  host_order o -> unique_keys o -> build_object o = o.
Proof. intros Ho Hu. now apply (fold_set_own_host_order o []). Qed.

Lemma host_order_toggled card o : host_order o -> host_order (toggled card o).
Proof.
  intros Ho. unfold toggled. destruct (property_truthy _).
  - now apply host_order_delete_own.
  - now apply host_order_set_own.
Qed.

Lemma run_favorite_clicks_host_order cards :
  forall s o,
    favorites s = VObj o -> host_order o ->
    forall s' o',
      run (map ClickFavorite cards) s = Some s' ->
      favorites s' = VObj o' -> host_order o'.
Proof.
  induction cards as [|card cards IH]; intros s o Hs Ho s' o'.
  - simpl. intros [= <-] Hs'. congruence.
  - cbn [map run dispatch]. unfold bind at 1.
    destruct (favoriteBtn_click card s) as [b s1|e s1|] eqn:Hclick;
      [| |discriminate];
      (apply (IH _ (toggled card o)); [|now apply host_order_toggled]);
      apply (favoriteBtn_click_left card s o s1 Hs); now rewrite Hclick.
Qed.

(** X5. In a session whose favorites are an object the handler made from
    cards with names and integer points, in the order the host keeps the
    keys (so they are when the script starts, and when a session loads what
    is described here): whatever such cards are clicked, and whether the
    store accepts or refuses the writes, once a click on such a card has
    returned, the favorites the next session loads from the storage, on
    whatever host, are the favorites the variable then holds: the same
    units under the same ids, in the same order. They are again such an
    object. *)
Theorem favorites_reloaded_in_order (s : State) (o : object)
    (cards : list dataset) (card : dataset) (h' : Host) :
  favorites s = VObj o ->
  made_from_cards o ->
  host_order o ->
  Forall (fun card => named_with_points card = true) cards ->
  named_with_points card = true ->
  exists s1,
    run (map ClickFavorite cards) s = Some s1
    /\ forall b s2,
         favoriteBtn_click card s1 = Done b s2 ->
         exists s3 o2,
           loadFavorites (initial h' (localStorage s2)) = Done tt s3
           /\ favorites s3 = favorites s2
           /\ favorites s2 = VObj o2
           /\ made_from_cards o2
           /\ host_order o2.
Proof.
  intros Hs Ho Hh Hcards Hcard.
  destruct (run_favorite_clicks cards Hcards s o Hs Ho)
    as (s1 & o1 & Hrun & Hs1 & Ho1).
  pose proof (run_favorite_clicks_host_order cards s o Hs Hh s1 o1 Hrun Hs1)
    as Hh1.
  exists s1. split; [exact Hrun|]. intros b s2 Hclick.
  destruct (made_from_cards_members o1 Ho1) as (_ & Hf & _).
  destruct (favoriteBtn_click_returns card s1 o1 Hs1 Hf
              (named_with_points_tracked card Hcard)) as (t & Ht & Hc).
  rewrite Hc in Hclick.
  destruct (accepts (host s1) (localStorage s1) (str "favorites") t);
    [|discriminate].
  injection Hclick as _ <-.
  assert (Ho2 : made_from_cards (toggled card o1))
    by now apply made_from_cards_toggled.
  assert (Hh2 : host_order (toggled card o1)) by now apply host_order_toggled.
  destruct (made_from_cards_members _ Ho2) as (Htr & _ & Hre).
  assert (Hparse : parse_text t = Some (VObj (toggled card o1))).
  { rewrite (parse_text_JSON_stringify (VObj (toggled card o1)) t Htr Ht),
      reloaded_VObj, Hre.
    rewrite (build_object_host_order _ Hh2 (proj1 Ho2)). reflexivity. }
  destruct (text_nonempty _ _ Ht) as (c & t' & ->).
  eexists. exists (toggled card o1). split; [apply loadFavorites_returns|].
  cbn [localStorage initial with_localStorage favorites with_favorites].
  rewrite getItem_stored, str_eqb_refl, Hparse.
  split; [reflexivity|]. split; [reflexivity|]. split; [exact Ho2|exact Hh2].
Qed.

Lemma favorites_reloaded_in_order_witness :
  let u2 := mkDataset (str "u2") (Some (str "Redemptor Dreadnought"))
              (Some (str "210")) in
  let cards := [u2;
                mkDataset (str "7") (Some (str "Intercessor Squad"))
                  (Some (str "80"));
                mkDataset (str "u1") (Some (str "Hellblaster Squad"))
                  (Some (str "115 pts"))] in
  exists s1 s2 s3,
    run (map ClickFavorite cards) (initial (limited 130 []) []) = Some s1
    /\ ~ in_sync s1
    /\ favoriteBtn_click u2 s1 = Done false s2
    /\ loadFavorites (initial (refusing []) (localStorage s2)) = Done tt s3
    /\ favorites s3 = favorites s2.
Proof.
  intros u2 cards.
  destruct (favorites_reloaded_in_order (initial (limited 130 []) []) [] cards
              u2 (refusing []) eq_refl)
    as (s1 & Hrun & H).
  - split; constructor.
  - reflexivity.
  - repeat constructor.
  - reflexivity.
  - pose proof Hrun as Heq. vm_compute in Heq. injection Heq as Heq.
    subst s1.
    edestruct (H false) as (s3 & o2 & Hl & Hf & _); [vm_compute; reflexivity|].
    eexists. eexists. exists s3. split; [exact Hrun|].
    split; [|split; [vm_compute; reflexivity|split; [exact Hl|exact Hf]]].
    intros (t & Ht & Hst). vm_compute in Ht, Hst. congruence.
Defined.

(** ** The army list on the page *)





Lemma nth_error_map_card m l u :
  nth_error l m = Some u ->
  nth_error (map added_unit_card l) m = Some (added_unit_card u).
Proof. intros H. now rewrite nth_error_map, H. Qed.

Lemma findIndex_length l1 e l2 :
  Forall (fun x => id x <> id e) l1 ->
  findIndex (id e) (l1 ++ e :: l2) = Z.of_nat (List.length l1).
Proof.
  induction 1 as [|x l1 Hx Hl IH]; simpl.
  - now rewrite str_eqb_refl.
  - apply str_eqb_neq in Hx. rewrite Hx, IH.
    destruct (Z.of_nat (List.length l1) <? 0) eqn:E; [apply Z.ltb_lt in E|]; lia.
Qed.

Lemma splice1_length l1 e l2 :
  splice1 (Z.of_nat (List.length l1)) (l1 ++ e :: l2) = l1 ++ l2.
Proof.
  unfold splice1. rewrite Nat2Z.id.
  induction l1 as [|x l1 IH]; [reflexivity|].
  cbn [List.length app firstn skipn] in *. now rewrite IH.
Qed.

(** X12. A click on the remove button of the card of the unit at position [m]
    of the roster takes out the first unit with that unit's id, which stands
    at [m] or before it, and the container is rendered from what is left. *)
Theorem removeFromArmyBtn_click_first_with_id
    (pg : Page) (before : list node) (m : nat) (u e : Unit) (l1 l2 : list Unit) :
  armyListContainer pg = before ++ map added_unit_card (armyList (script pg)) ->
  nth_error (armyList (script pg)) m = Some u ->
  armyList (script pg) = l1 ++ e :: l2 ->
  id e = id u ->
  Forall (fun x => id x <> id u) l1 ->
  let pg' := removeFromArmyBtn_click (List.length before + m) pg in
  armyList (script pg') = l1 ++ l2
  /\ armyListContainer pg' = renderArmyList (l1 ++ l2)
  /\ pointsTotalElement (script pg') = Some (totalPoints (l1 ++ l2))
  /\ (List.length l1 <= m)%nat.
Proof.
  intros Hc Hm Hl He Hl1 pg'.
  assert (Hfind : findIndex (id u) (armyList (script pg)) = Z.of_nat (List.length l1)).
  { rewrite Hl, <- He. apply findIndex_length. now rewrite He. }
  assert (Hrm : armyList (removeUnitFromArmy (id u) (script pg)) = l1 ++ l2
                /\ pointsTotalElement (removeUnitFromArmy (id u) (script pg))
                   = Some (totalPoints (l1 ++ l2))).
  { unfold removeUnitFromArmy. rewrite Hfind.
    replace (-1 <? Z.of_nat (List.length l1)) with true
      by (symmetry; apply Z.ltb_lt; lia).
    unfold updatePointsTotal. cbn [armyList pointsTotalElement with_pointsTotal with_armyList].
    rewrite Hl, splice1_length. split; reflexivity. }
  assert (Hpg' : pg' = mkPage (removeUnitFromArmy (id u) (script pg))
                         (renderArmyList (armyList (removeUnitFromArmy (id u) (script pg))))).
  { unfold pg', removeFromArmyBtn_click.
    rewrite Hc, nth_error_app2 by lia.
    replace (List.length before + m - List.length before)%nat with m by lia.
    rewrite (nth_error_map_card m _ u Hm). cbn [added_unit_card].
    unfold removeUnitFromArmy_on_page. rewrite Hfind.
    replace (-1 <? Z.of_nat (List.length l1)) with true
      by (symmetry; apply Z.ltb_lt; lia).
    reflexivity. }
  rewrite Hpg'. cbn [script armyListContainer].
  destruct Hrm as [H1 H2]. rewrite H1. repeat split; auto.
  destruct (Nat.le_gt_cases (List.length l1) m) as [Hle|Hgt]; [exact Hle|].
  exfalso. rewrite Hl, nth_error_app1 in Hm by exact Hgt.
  apply nth_error_In in Hm. rewrite Forall_forall in Hl1. now apply (Hl1 u).
Qed.

Lemma removeFromArmyBtn_click_first_with_id_witness :
  let a := mkUnit (str "u1") (str "Intercessor Squad") (Int 80) in
  let b := mkUnit (str "u2") (str "Redemptor Dreadnought") NaN in
  let pg := page_run [AddToArmy (str "u1") (str "Intercessor Squad") (str "80");
                      AddToArmy (str "u2") (str "Redemptor Dreadnought") (str "N/A");
                      AddToArmy (str "u1") (str "Intercessor Squad") (str "80")]
              (mkPage (initial (accepting []) []) [Paragraph (str "Add units to your army.")]) in
  let pg' := removeFromArmyBtn_click 3 pg in
  armyList (script pg') = [b; a]
  /\ armyListContainer pg' = renderArmyList [b; a]
  /\ pointsTotalElement (script pg') = Some (totalPoints [b; a])
  /\ (0 <= 2)%nat.
Proof.
  intros a b pg.
  apply (removeFromArmyBtn_click_first_with_id pg
           [Paragraph (str "Add units to your army.")] 2 a a [] [b; a]);
    try reflexivity.
  constructor.
Defined.



(** ** The favorites tab *)

Lemma html_plain_uint_units d : html_plain (uint_units d) = true.
Proof. unfold html_plain. induction d; simpl; auto. Qed.

Lemma html_plain_integer_text z : html_plain (integer_text z) = true.
Proof.
  unfold integer_text. destruct (z <? 0); [|apply html_plain_uint_units].
  unfold html_plain. cbn [forallb]. apply andb_true_intro.
  split; [reflexivity|apply html_plain_uint_units].
Qed.

(** The points of a favorite made from a card, as [renderFavorites] prints
    them. *)
Lemma converted_points card s :
  points_followed card = true ->
  exists t,
    converted (VNum (parseInt (to_string (unitPoints card)))) s = Done t s
    /\ html_plain t = true.
Proof.
  unfold points_followed, converted.
  destruct (parseInt (to_string (unitPoints card))) as [|z|[]]; intros H.
  - eexists. split; reflexivity.
  - cbn [ToString]. rewrite H. eexists.
    split; [reflexivity|apply html_plain_integer_text].
  - eexists. split; reflexivity.
  - eexists. split; reflexivity.
Qed.

Lemma catalogue_card_followed card :
  catalogue_card card = true -> points_followed card = true.
Proof.
  unfold catalogue_card. destruct (unitName card); [|discriminate].
  destruct (unitPoints card); [|discriminate].
  intros H. now apply andb_prop in H as [_ H].
Qed.

Lemma catalogue_favorites_followed o :
  catalogue_favorites o -> followed (VObj o).
Proof.
  intros [_ Ho]. rewrite followed_VObj.
  induction Ho as [|[k v] o (card & Hc & _ & Hv) Ho IH]; [discriminate|].
  simpl in Hv. subst v. apply members_cons. split; [|exact IH].
  apply followed_favorite_of. now apply catalogue_card_followed.
Qed.

Lemma favorite_card_favorite_of card s :
  catalogue_card card = true ->
  exists c,
    favorite_card (favorite_of card) s = Done c s
    /\ card_dataset c = Some (mkDataset (unitId card) None None).
Proof.
  intros Hc. pose proof (catalogue_card_followed card Hc) as Hpts.
  destruct (converted_points card s Hpts) as (t & Ht & Hplain).
  revert Hc. unfold catalogue_card.
  destruct (unitName card) as [n|] eqn:Hn; [|discriminate].
  destruct (unitPoints card) as [p|] eqn:Hp; [|discriminate].
  intros H. apply andb_prop in H as [H _]. apply andb_prop in H as [Hid Hname].
  exists (FavoriteCard (unitId card) n t). split; [|reflexivity].
  assert (Heq : favorite_card (favorite_of card) s
                = (points_text <-
                     converted (VNum (parseInt (to_string (unitPoints card)))) ;;
                   if html_plain (unitId card) && html_plain n
                      && html_plain points_text
                   then ret (FavoriteCard (unitId card) n points_text)
                   else beyond) s)
    by (unfold favorite_of; rewrite Hn; reflexivity).
  rewrite Heq. unfold bind. rewrite Hp, Ht, Hid, Hname, Hplain. reflexivity.
Qed.

Lemma forEach_favorite_card o s :
  Forall (fun m => exists card,
              catalogue_card card = true
              /\ fst m = unitId card
              /\ snd m = favorite_of card) o ->
  exists content,
    forEach favorite_card (values o) s = Done content s
    /\ map card_dataset content
       = map (fun m => Some (mkDataset (fst m) None None)) o.
Proof.
  induction 1 as [|[k v] o (card & Hcard & Hk & Hv) Ho (content & Hrun & Hmap)].
  - exists []. split; reflexivity.
  - simpl in Hk, Hv. subst k v.
    destruct (favorite_card_favorite_of card s Hcard) as (c & Hc & Hd).
    exists (c :: content). split.
    + cbn [values map snd forEach]. unfold bind at 1. rewrite Hc.
      unfold bind at 1. unfold values in Hrun. rewrite Hrun. reflexivity.
    + cbn [map fst]. now rewrite Hd, Hmap.
Qed.

Lemma In_get_own k v o : unique_keys o -> In (k, v) o -> get_own k o = Some v.
Proof.
  unfold unique_keys. induction o as [|[k0 v0] o IH]; simpl; [tauto|].
  intros Hu [H|H]; inversion Hu as [|? ? Hk0 Hu']; subst.
  - injection H as -> ->. now rewrite str_eqb_refl.
  - destruct (str_eqb_spec k0 k) as [->|_]; [|now apply IH].
    exfalso. apply Hk0. apply in_map_iff. now exists (k, v).
Qed.

(** The state a click leaves on favorites whose text is followed. *)
Lemma favoriteBtn_click_left_by card s o :
  favorites s = VObj o ->
  followed (VObj o) ->
  points_followed card = true ->
  exists s',
    left_by (favoriteBtn_click card s) = Some s'
    /\ favorites s' = VObj (toggled card o).
Proof.
  intros Hs Ho Hp.
  destruct (favoriteBtn_click_returns card s o Hs Ho Hp) as (t & Ht & Hclick).
  rewrite Hclick.
  destruct (accepts (host s) (localStorage s) (str "favorites") t);
    eexists; split; reflexivity.
Qed.

(** X14. On the favorites tab, for favorites made from the cards of a
    catalogue, each with a name and a points text, an id and a name the
    HTML parser reads back as they are (no double quote, ampersand,
    less-than sign, NUL or carriage return) and points that [parseInt] reads
    as NaN, an infinity or an integer of magnitude at most 2^53:
    [renderFavorites] writes one card per favorite, in the order of the
    object, each with the key of its favorite in [data-unit-id]. A click on
    the favorite button of such a card, whether the store accepts the write
    or the click throws on its refusal, removes that favorite and no other.
    The card stays, and a second click on it, for an id that is no
    inherited name, makes a favorite under that id without name and with
    the points NaN. *)
Theorem favorites_tab_clicks (s : State) (o : object) :
  favorites s = VObj o ->
  catalogue_favorites o ->
  o <> [] ->
  exists content,
    renderFavorites s = Done content s
    /\ map card_dataset content
       = map (fun m => Some (mkDataset (fst m) None None)) o
    /\ forall c d,
        In c content -> card_dataset c = Some d ->
        exists s1 o1,
          left_by (favoriteBtn_click d s) = Some s1
          /\ favorites s1 = VObj o1
          /\ get_own (unitId d) o <> None
          /\ get_own (unitId d) o1 = None
          /\ (forall k, k <> unitId d -> get_own k o1 = get_own k o)
          /\ (inherited (unitId d) = false ->
              exists s2 o2,
                left_by (favoriteBtn_click d s1) = Some s2
                /\ favorites s2 = VObj o2
                /\ get_own (unitId d) o2
                   = Some (VObj [(str "id", VStr (unitId d));
                                 (str "name", VUndef);
                                 (str "points", VNum NaN)])).
Proof.
  intros Hs Hcat Hne.
  pose proof (catalogue_favorites_followed o Hcat) as Hf.
  destruct Hcat as [Hu Ho].
  destruct (forEach_favorite_card o s Ho) as (content & Hrun & Hmap).
  exists content. split; [|split; [exact Hmap|]].
  - unfold renderFavorites, bind at 1, listFavorites, bind, read. rewrite Hs.
    unfold ret at 1. destruct o as [|m o]; [congruence|exact Hrun].
  - intros c d Hc Hd.
    assert (Hin : In (Some d) (map card_dataset content)).
    { rewrite <- Hd. now apply in_map. }
    rewrite Hmap in Hin. apply in_map_iff in Hin as ([k v] & [= <-] & Hin).
    cbn [unitId fst].
    rewrite Forall_forall in Ho. destruct (Ho _ Hin) as (card & _ & _ & Hv).
    simpl in Hv. subst v.
    pose proof (In_get_own _ _ _ Hu Hin) as Hget.
    assert (Hbare : points_followed (mkDataset k None None) = true)
      by reflexivity.
    destruct (favoriteBtn_click_left_by (mkDataset k None None) s o Hs Hf Hbare)
      as (s1 & Hclick & Hs1).
    assert (Htog : toggled (mkDataset k None None) o = delete_own k o).
    { unfold toggled, get. cbn [unitId]. now rewrite Hget. }
    rewrite Htog in Hs1.
    exists s1, (delete_own k o). split; [exact Hclick|]. split; [exact Hs1|].
    split; [congruence|]. split; [|split].
    + now rewrite (get_own_delete_own _ _ _ Hu), str_eqb_refl.
    + intros k' Hk'. rewrite (get_own_delete_own _ _ _ Hu).
      apply not_eq_sym, str_eqb_neq in Hk'. now rewrite Hk'.
    + intros Hinh.
      assert (Hf1 : followed (VObj (delete_own k o)))
        by now apply followed_delete_own.
      destruct (favoriteBtn_click_left_by (mkDataset k None None) s1
                  (delete_own k o) Hs1 Hf1 Hbare) as (s2 & Hclick1 & Hs2).
      assert (Hfalse : property_truthy (get k (delete_own k o)) = false).
      { unfold get. rewrite (get_own_delete_own _ _ _ Hu), str_eqb_refl.
        now rewrite Hinh. }
      unfold toggled in Hs2. cbn [unitId] in Hs2. rewrite Hfalse in Hs2.
      do 2 eexists. split; [exact Hclick1|]. split; [exact Hs2|].
      now rewrite get_own_set_own, str_eqb_refl.
Qed.

Lemma favorites_tab_clicks_witness :
  let o := [(str "7", favorite_of (mkDataset (str "7") (Some (str "Hellblaster Squad"))
                                     (Some (str "115"))));
            (str "u1", favorite_of (mkDataset (str "u1") (Some (str "Servitors"))
                                      (Some (str "N/A"))))] in
  let s := with_favorites (VObj o) (initial (limited 64 []) []) in
  exists content,
    renderFavorites s = Done content s
    /\ map card_dataset content
       = map (fun m => Some (mkDataset (fst m) None None)) o
    /\ forall c d,
        In c content -> card_dataset c = Some d ->
        exists s1 o1,
          left_by (favoriteBtn_click d s) = Some s1
          /\ favorites s1 = VObj o1
          /\ get_own (unitId d) o <> None
          /\ get_own (unitId d) o1 = None
          /\ (forall k, k <> unitId d -> get_own k o1 = get_own k o)
          /\ (inherited (unitId d) = false ->
              exists s2 o2,
                left_by (favoriteBtn_click d s1) = Some s2
                /\ favorites s2 = VObj o2
                /\ get_own (unitId d) o2
                   = Some (VObj [(str "id", VStr (unitId d));
                                 (str "name", VUndef);
                                 (str "points", VNum NaN)])).
Proof.
  intros o s. apply (favorites_tab_clicks s o).
  - reflexivity.
  - split.
    + repeat constructor; simpl; intuition discriminate.
    + apply Forall_cons; [|apply Forall_cons; [|apply Forall_nil]].
      * exists (mkDataset (str "7") (Some (str "Hellblaster Squad"))
                  (Some (str "115"))).
        repeat split.
      * exists (mkDataset (str "u1") (Some (str "Servitors"))
                  (Some (str "N/A"))).
        repeat split.
  - discriminate.
Defined.

(** ** The favorite button of a catalogue card *)

Lemma favoriteBtn_click_Done card s o b s' :
  favorites s = VObj o ->
  favoriteBtn_click card s = Done b s' ->
  b = negb (property_truthy (get (unitId card) o))
  /\ favorites s' = VObj (toggled card o).
Proof.
  intros Hs Hclick. split.
  - destruct (JSON_stringify (VObj (toggled card o))) as [t| |] eqn:Ht.
    + rewrite (favoriteBtn_click_object card s o t Hs Ht) in Hclick.
      destruct (accepts (host s) (localStorage s) (str "favorites") t);
        [|discriminate].
      now injection Hclick as <- _.
    + rewrite JSON_stringify_VObj in Ht.
      destruct (stringify_members (toggled card o)); discriminate.
    + exfalso. unfold toggled in Ht.
      unfold favoriteBtn_click, bind, read in Hclick; rewrite Hs in Hclick.
      destruct (property_truthy (get (unitId card) o));
        unfold bind, modify, saveFavorites, bind, read, stringify_text in Hclick;
        cbn [favorites with_favorites] in Hclick; rewrite Ht in Hclick;
        discriminate.
  - apply (favoriteBtn_click_left card s o s' Hs). now rewrite Hclick.
Qed.

(** X15. For a catalogue card whose three attributes the HTML parser reads
    back as they were written, and an id that is no inherited name: after a
    click on the favorite button of the card that returns, the button has
    the class [favorited] exactly when a new rendering of the card would
    give it; its title is the one a new rendering would give only when the
    unit was made a favorite: after a click that removes the favorite the
    button still says [Unfavorite Unit]. *)
Theorem favorite_button_after_click (unit : entry) (card : dataset)
    (s s' : State) (o : object) (btn : button) :
  card_of_entry unit = Some card ->
  favorites s = VObj o ->
  unique_keys o ->
  inherited (unitId card) = false ->
  favoriteBtn_after_click card s = Done btn s' ->
  exists btn',
    renderUnitCard_button unit s' = Done btn' s'
    /\ favorited btn' = favorited btn
    /\ (title btn' = title btn <-> favorited btn = true).
Proof.
  intros Hcard Hs Hu Hinh Hclick.
  assert (Hid : unitId card = template (entry_id unit)).
  { unfold card_of_entry, renderUnitCard in Hcard.
    destruct (_ && _) in Hcard; [|discriminate]. now injection Hcard as <-. }
  unfold favoriteBtn_after_click, bind in Hclick.
  destruct (favoriteBtn_click card s) as [b s1|e s1|] eqn:Hc;
    try discriminate.
  destruct (favoriteBtn_click_Done _ _ _ _ _ Hs Hc) as [Hb Hs1].
  unfold renderUnitCard_button, bind, read. rewrite <- Hid.
  unfold toggled in Hs1.
  destruct (property_truthy (get (unitId card) o)) eqn:Hp;
    simpl in Hb; subst b; injection Hclick as <- <-; rewrite Hs1.
  - assert (Hget : property_truthy
                     (get (unitId card) (delete_own (unitId card) o)) = false).
    { unfold get. rewrite (get_own_delete_own _ _ _ Hu), str_eqb_refl.
      now rewrite Hinh. }
    rewrite Hget. eexists. split; [reflexivity|]. split; [reflexivity|].
    simpl. split; discriminate.
  - rewrite get_set_own_same. cbn [property_truthy]. rewrite truthy_favorite_of.
    eexists. split; [reflexivity|]. split; [reflexivity|]. split; reflexivity.
Qed.

Lemma favorite_button_after_click_witness :
  let unit := mkEntry (Some (str "u1")) (Some (str "Intercessor Squad"))
                (Some (Some (str "80"))) in
  let card := mkDataset (str "u1") (Some (str "Intercessor Squad"))
                (Some (str "80")) in
  let o := [(str "u1", favorite_of card)] in
  let s := with_favorites (VObj o) (initial (accepting []) []) in
  let s' := with_localStorage [(str "favorites", json "{}")]
              (with_favorites (VObj []) (initial (accepting []) [])) in
  exists btn',
    renderUnitCard_button unit s' = Done btn' s'
    /\ favorited btn' = false
    /\ (title btn' = str "Unfavorite Unit" <-> false = true).
Proof.
  intros unit card o s s'.
  apply (favorite_button_after_click unit card s s' o
           (mkButton false (str "Unfavorite Unit"))).
  - reflexivity.
  - reflexivity.
  - repeat constructor. simpl. tauto.
  - reflexivity.
  - vm_compute. reflexivity.
Defined.

(** ** The tab buttons *)

Lemma strip_prefix_app p x : strip_prefix p (p ++ x) = Some x.
Proof.
  induction p as [|a p IH]; simpl; [now destruct x|].
  now rewrite N.eqb_refl.
Qed.

Lemma replace_by_empty_prefix p x : replace_by_empty p (p ++ x) = x.
Proof.
  destruct (p ++ x) as [|c r] eqn:E; simpl; rewrite <- E, strip_prefix_app;
    reflexivity.
Qed.

(** [showTab], by the elements the page has. *)
Lemma showTab_cases tabId s :
  showTab tabId s
  = if existsb (str_eqb (str "tab-" ++ tabId)) (elementIds (host s))
    then
      if existsb (str_eqb (str "content-" ++ tabId)) (elementIds (host s))
      then
        (if str_eqb tabId (str "favorites")
         then renderFavorites ;;; ret tt
         else ret tt)
          (with_activeTab (Some tabId)
             (with_activeTab None
                (with_activeTabBtn (Some (str "tab-" ++ tabId))
                   (with_activeTabBtn None s))))
      else
        Raised TypeError
          (with_activeTab None
             (with_activeTabBtn (Some (str "tab-" ++ tabId))
                (with_activeTabBtn None s)))
    else Raised TypeError (with_activeTabBtn None s).
Proof.
  unfold showTab, bind, modify, getElementById, read.
  cbn [host with_activeTabBtn with_activeTab].
  destruct (existsb (str_eqb (str "tab-" ++ tabId)) (elementIds (host s)));
    [|reflexivity].
  unfold ret at 1. cbn [host with_activeTabBtn with_activeTab].
  destruct (existsb (str_eqb (str "content-" ++ tabId)) (elementIds (host s)));
    reflexivity.
Qed.

Lemma existsb_str_eqb i ids : existsb (str_eqb i) ids = true <-> In i ids.
Proof.
  rewrite existsb_exists. split.
  - intros (x & Hx & Heq). apply str_eqb_eq in Heq. now subst x.
  - intros H. exists i. split; [exact H|apply str_eqb_refl].
Qed.

(** [renderFavorites] changes nothing in the state. *)
Lemma renderFavorites_same s s' :
  left_by (renderFavorites s) = Some s' -> s' = s.
Proof.
  pose proof (keeps_renderFavorites (@eq State) (@eq_refl State)
                (@eq_trans State) s) as H.
  destruct (renderFavorites s); simpl; intros [= <-]; now symmetry.
Qed.

(** X16. The click listener of a tab button takes for the name of the tab
    the id of the clicked element without its first [tab-], and calls
    [showTab]. On a page that has the clicked button, of id [tab-]
    followed by a name, and the content of that name, the listener marks
    the clicked button and shows that content; it returns, but on the
    favorites tab, where it then renders the favorites and ends as that
    rendering ends. When the page has no element of id [tab-] followed by
    the name, it throws a TypeError with no button marked and the content
    shown as before; when it has that element and no content of the name,
    it throws a TypeError with the button marked and no content shown.
    Whenever the listener ends with a button marked, that button is an
    element of the page, and it is the clicked one exactly when the id of
    the clicked element starts with [tab-]. *)
Theorem tabBtn_click_marks_clicked (target_id : jsstring) (s : State) :
  (forall tabId,
      target_id = str "tab-" ++ tabId ->
      In target_id (elementIds (host s)) ->
      In (str "content-" ++ tabId) (elementIds (host s)) ->
      (exists s1,
          activeTabBtn s1 = Some target_id
          /\ activeTab s1 = Some tabId
          /\ tabBtn_click target_id s
             = (if str_eqb tabId (str "favorites")
                then renderFavorites ;;; ret tt
                else ret tt) s1)
      /\ (forall s',
            left_by (tabBtn_click target_id s) = Some s' ->
            activeTabBtn s' = Some target_id /\ activeTab s' = Some tabId)
      /\ (tabId <> str "favorites" ->
          exists s', tabBtn_click target_id s = Done tt s'))
  /\ (~ In (tab_button_id (replace_by_empty (str "tab-") target_id))
         (elementIds (host s)) ->
      exists s',
        tabBtn_click target_id s = Raised TypeError s'
        /\ activeTabBtn s' = None
        /\ activeTab s' = activeTab s)
  /\ (In (tab_button_id (replace_by_empty (str "tab-") target_id))
        (elementIds (host s)) ->
      ~ In (str "content-" ++ replace_by_empty (str "tab-") target_id)
          (elementIds (host s)) ->
      exists s',
        tabBtn_click target_id s = Raised TypeError s'
        /\ activeTabBtn s'
           = Some (tab_button_id (replace_by_empty (str "tab-") target_id))
        /\ activeTab s' = None)
  /\ (forall s' b,
        left_by (tabBtn_click target_id s) = Some s' ->
        activeTabBtn s' = Some b ->
        In b (elementIds (host s))
        /\ (b = target_id <-> exists tabId, target_id = str "tab-" ++ tabId)).
Proof.
  assert (Hleft : forall tabId s',
             left_by (showTab tabId s) = Some s' ->
             (activeTabBtn s' = None
              /\ ~ In (str "tab-" ++ tabId) (elementIds (host s)))
             \/ (activeTabBtn s' = Some (str "tab-" ++ tabId)
                 /\ In (str "tab-" ++ tabId) (elementIds (host s))
                 /\ (In (str "content-" ++ tabId) (elementIds (host s)) ->
                     activeTab s' = Some tabId))).
  { intros tabId s'. rewrite showTab_cases.
    destruct (existsb (str_eqb (str "tab-" ++ tabId)) (elementIds (host s)))
      eqn:Hb.
    - apply existsb_str_eqb in Hb.
      destruct (existsb (str_eqb (str "content-" ++ tabId))
                  (elementIds (host s))) eqn:Hc.
      + intros H. right. split; [|split; [exact Hb|intros _]].
        * destruct (str_eqb tabId (str "favorites")).
          -- unfold bind in H.
             match type of H with
             | context [renderFavorites ?s1] =>
                 pose proof (renderFavorites_same s1) as Hsame;
                 destruct (renderFavorites s1) as [x s2|e s2|];
                 [specialize (Hsame s2 eq_refl)
                 |specialize (Hsame s2 eq_refl)|discriminate]
             end; injection H as <-; now subst s2.
          -- now injection H as <-.
        * destruct (str_eqb tabId (str "favorites")).
          -- unfold bind in H.
             match type of H with
             | context [renderFavorites ?s1] =>
                 pose proof (renderFavorites_same s1) as Hsame;
                 destruct (renderFavorites s1) as [x s2|e s2|];
                 [specialize (Hsame s2 eq_refl)
                 |specialize (Hsame s2 eq_refl)|discriminate]
             end; injection H as <-; now subst s2.
          -- now injection H as <-.
      + intros [= <-]. right. split; [reflexivity|]. split; [exact Hb|].
        intros Hin. apply existsb_str_eqb in Hin. congruence.
    - intros [= <-]. left. split; [reflexivity|].
      intros Hin. apply existsb_str_eqb in Hin. congruence. }
  split; [|split; [|split]].
  - intros tabId -> Hb Hc. unfold tabBtn_click.
    rewrite replace_by_empty_prefix. split; [|split].
    + eexists. split; [|split; [|apply (showTab_found tabId s Hb Hc)]];
        reflexivity.
    + intros s' H. destruct (Hleft tabId s' H) as [[_ Hno]|(Hbtn & _ & Htab)];
        [contradiction|]. split; [exact Hbtn|now apply Htab].
    + intros Hne. rewrite (showTab_found tabId s Hb Hc).
      apply str_eqb_neq in Hne. rewrite Hne. eexists. reflexivity.
  - intros Hno. unfold tabBtn_click. rewrite showTab_cases.
    unfold tab_button_id in Hno.
    destruct (existsb _ (elementIds (host s))) eqn:Hb at 1.
    + apply existsb_str_eqb in Hb. contradiction.
    + eexists. split; [reflexivity|]. split; reflexivity.
  - intros Hb Hno. unfold tabBtn_click. rewrite showTab_cases.
    unfold tab_button_id in Hb |- *.
    apply existsb_str_eqb in Hb. rewrite Hb.
    destruct (existsb _ (elementIds (host s))) eqn:Hc at 1.
    + apply existsb_str_eqb in Hc. contradiction.
    + eexists. split; [reflexivity|]. split; reflexivity.
  - intros s' b H Hbtn. unfold tabBtn_click in H.
    destruct (Hleft _ s' H) as [[Hnone _]|(Hsome & Hin & _)]; [congruence|].
    rewrite Hsome in Hbtn. injection Hbtn as <-. split; [exact Hin|]. split.
    + intros Heq. eexists. symmetry. exact Heq.
    + intros [tabId ->]. now rewrite replace_by_empty_prefix.
Qed.

(** ** Favorites that are no object *)

Lemma parse_text_nonempty text v : parse_text text = Some v -> text <> [].
Proof. intros H ->. vm_compute in H. discriminate. Qed.

Lemma run_favorite_clicks_null cards s :
  favorites s = VNull -> run (map ClickFavorite cards) s = Some s.
Proof.
  intros Hs. induction cards as [|card cards IH]; [reflexivity|].
  cbn [map run dispatch]. unfold bind, favoriteBtn_click, bind, read.
  rewrite Hs. exact IH.
Qed.

(** X17. When the text stored under [favorites] parses to [null],
    [loadFavorites] makes [null] the favorites, and from then on the favorite
    branch of the click handler, [renderFavorites] and the rendering of a
    catalogue card each throw a TypeError and leave everything as it is:
    whatever favorite buttons are clicked, the favorites stay [null] and the
    stored text stays. *)
Theorem null_favorites_stay (s : State) (text : jsstring) :
  getItem (str "favorites") (localStorage s) = Some text ->
  parse_text text = Some VNull ->
  exists s',
    loadFavorites s = Done tt s'
    /\ favorites s' = VNull
    /\ localStorage s' = localStorage s
    /\ (forall card, favoriteBtn_click card s' = Raised TypeError s')
    /\ renderFavorites s' = Raised TypeError s'
    /\ (forall unit, renderUnitCard_button unit s' = Raised TypeError s')
    /\ (forall cards, run (map ClickFavorite cards) s' = Some s').
Proof.
  intros Hget Hparse.
  pose proof (parse_text_nonempty _ _ Hparse) as Hne.
  exists (with_favorites VNull s). split.
  - rewrite loadFavorites_returns, Hget, Hparse.
    destruct text; [congruence|reflexivity].
  - repeat split. intros cards. now apply run_favorite_clicks_null.
Qed.

Lemma null_favorites_stay_witness :
  let s := initial (accepting []) [(str "favorites", str "null")] in
  exists s',
    loadFavorites s = Done tt s'
    /\ favorites s' = VNull
    /\ localStorage s' = localStorage s
    /\ (forall card, favoriteBtn_click card s' = Raised TypeError s')
    /\ renderFavorites s' = Raised TypeError s'
    /\ (forall unit, renderUnitCard_button unit s' = Raised TypeError s')
    /\ (forall cards, run (map ClickFavorite cards) s' = Some s').
Proof.
  intros s. apply (null_favorites_stay s (str "null")); reflexivity.
Defined.
